(** * EditorModel (src/editor/model/Editor.js): a shallow embedding

    The editor model is a Backbone model: a bag of attributes, an event bus
    and a few module-level variables shared by every instance created from
    the same module.  Attributes are record fields, the event bus is an
    append-only log of what was triggered, and the module-level variables
    together with the browser's timer queue form a [World] that every
    instance lives in. *)

From Stdlib Require Import ZArith Lia Ascii String.
From stdpp Require Import base option list gmap strings.

Open Scope Z_scope.

(** ** Entities of the document tree *)

(** A component as the selection code sees it: an identity, the two
    capability flags, the collection it sits in and its [parent()].  The
    parent chain is finite, so the record is inductive. *)
#[warnings="-register-all"]
Inductive Component : Type :=
  mkComponent {
    cid : nat;
    selectable : bool;
    hoverable : bool;
    collection : option nat;
    parent : option Component
  }.

(** [===] on components is object identity. *)
Definition same (a b : Component) : bool := Nat.eqb (cid a) (cid b).

Definition contains (l : list Component) (c : Component) : bool :=
  existsb (same c) l.

(** What a caller hands to a selection operation: nothing at all, something
    no model is attached to, or an entity. *)
Inductive Target : Type :=
  | Empty
  | Unresolved
  | Entity (c : Component).

(** Modelled from the spec: [getModel] of utils/mixins is not part of the
    sources; it resolves the entity behind a target and yields nothing when
    no entity is resolvable. *)
Definition getModel (el : Target) : option Component :=
  match el with
  | Entity c => Some c
  | Empty | Unresolved => None
  end.

(** [!el] *)
Definition falsy (el : Target) : bool :=
  match el with
  | Empty => true
  | _ => false
  end.

(** ** Option objects *)

Record KeyEvent : Type :=
  mkKeyEvent { ctrlKey : bool; metaKey : bool; shiftKey : bool }.

(** Options of the selection and hover operations. *)
Record SelectOpts : Type :=
  mkSelectOpts {
    event : option KeyEvent;
    abort : bool;
    useValid : bool;
    forceChange : bool
  }.

(** Options carried by a mutation notification. *)
Record Opts : Type :=
  mkOpts {
    temporary : bool;
    noCount : bool;
    avoidStore : bool;
    unset : bool;
    silent : bool
  }.

(** ** Modules *)

Record Module : Type :=
  mkModule {
    name : string;
    storageKey : option string;
    has_store : bool;
    has_load : bool;
    private : bool;
    has_onLoad : bool;
    store_result : gmap string string
  }.

(** Truthiness of a string-valued property. *)
Definition truthy (v : option string) : bool :=
  match v with
  | Some (String _ _) => true
  | _ => false
  end.

Definition toLowerCase (a : ascii) : ascii :=
  let n := nat_of_ascii a in
  if ((65 <=? n) && (n <=? 90))%nat then ascii_of_nat (n + 32) else a.

(** [s.charAt(0).toLowerCase() + s.slice(1)] *)
Definition lcfirst (s : string) : string :=
  match s with
  | EmptyString => EmptyString
  | String a rest => String (toLowerCase a) rest
  end.

(** [Mod.storageKey && Mod.store && Mod.load] *)
Definition storable (m : Module) : bool :=
  truthy (storageKey m) && has_store m && has_load m.

Definition isDomComponents (m : Module) : bool :=
  String.eqb (lcfirst (name m)) "domComponents".

(** ** Events and callbacks *)

Inductive Event : Type :=
  | SelectBefore (c : Component)
  | Select (c : Component)
  | HoverBefore (c : Component)
  | Hover (c : option Component)
  | Hovered (c : Component)
  | Unhovered (c : Component)
  | ClearTextSelection
  | Update
  | Called (callback : nat) (arg : string)
  | LogError (msg : string)
  | UncaughtTypeError.

Record StorageManager : Type :=
  mkStorageManager {
    isAutosave : bool;
    getStepsBeforeSave : Z;
    canAutoload : bool
  }.

(** ** The editor model *)

Record EditorModel : Type :=
  mkEditorModel {
    (* attributes *)
    changesCount : Z;
    readyLoad : bool;
    readyCanvas : bool;
    ready : bool;
    selected : list Component;
    componentHovered : option Component;
    storables : list Module;
    toLoad : list Module;
    modules : list Module;
    exposed : gmap string Module;
    shallow : option nat;
    sm : option StorageManager;
    (* instance properties and configuration *)
    skip_flag : bool;
    noticeOnUnload : bool;
    multipleSelection : bool;
    (* listeners that may rewrite the options object they are handed *)
    onSelectBefore : Component -> SelectOpts -> SelectOpts;
    onHoverBefore : Component -> SelectOpts -> SelectOpts;
    (* what was triggered on the bus and which callbacks were invoked *)
    events : list Event
  }.

Definition trigger (ev : Event) (em : EditorModel) : EditorModel :=
  mkEditorModel (changesCount em) (readyLoad em) (readyCanvas em) (ready em)
    (selected em) (componentHovered em) (storables em) (toLoad em)
    (modules em) (exposed em) (shallow em) (sm em) (skip_flag em)
    (noticeOnUnload em) (multipleSelection em) (onSelectBefore em)
    (onHoverBefore em) (events em ++ [ev]).

Definition with_selected (l : list Component) (em : EditorModel) : EditorModel :=
  mkEditorModel (changesCount em) (readyLoad em) (readyCanvas em) (ready em)
    l (componentHovered em) (storables em) (toLoad em)
    (modules em) (exposed em) (shallow em) (sm em) (skip_flag em)
    (noticeOnUnload em) (multipleSelection em) (onSelectBefore em)
    (onHoverBefore em) (events em).

Definition with_hovered (h : option Component) (em : EditorModel) : EditorModel :=
  mkEditorModel (changesCount em) (readyLoad em) (readyCanvas em) (ready em)
    (selected em) h (storables em) (toLoad em)
    (modules em) (exposed em) (shallow em) (sm em) (skip_flag em)
    (noticeOnUnload em) (multipleSelection em) (onSelectBefore em)
    (onHoverBefore em) (events em).

Definition with_changesCount (n : Z) (em : EditorModel) : EditorModel :=
  mkEditorModel n (readyLoad em) (readyCanvas em) (ready em)
    (selected em) (componentHovered em) (storables em) (toLoad em)
    (modules em) (exposed em) (shallow em) (sm em) (skip_flag em)
    (noticeOnUnload em) (multipleSelection em) (onSelectBefore em)
    (onHoverBefore em) (events em).

Definition with_readiness (l c r : bool) (em : EditorModel) : EditorModel :=
  mkEditorModel (changesCount em) l c r
    (selected em) (componentHovered em) (storables em) (toLoad em)
    (modules em) (exposed em) (shallow em) (sm em) (skip_flag em)
    (noticeOnUnload em) (multipleSelection em) (onSelectBefore em)
    (onHoverBefore em) (events em).

Definition with_registry (st tl ms : list Module) (ex : gmap string Module)
    (em : EditorModel) : EditorModel :=
  mkEditorModel (changesCount em) (readyLoad em) (readyCanvas em) (ready em)
    (selected em) (componentHovered em) st tl ms ex (shallow em) (sm em)
    (skip_flag em) (noticeOnUnload em) (multipleSelection em)
    (onSelectBefore em) (onHoverBefore em) (events em).

Definition with_shallow (s : option nat) (em : EditorModel) : EditorModel :=
  mkEditorModel (changesCount em) (readyLoad em) (readyCanvas em) (ready em)
    (selected em) (componentHovered em) (storables em) (toLoad em)
    (modules em) (exposed em) s (sm em) (skip_flag em)
    (noticeOnUnload em) (multipleSelection em) (onSelectBefore em)
    (onHoverBefore em) (events em).

Definition with_skip (b : bool) (em : EditorModel) : EditorModel :=
  mkEditorModel (changesCount em) (readyLoad em) (readyCanvas em) (ready em)
    (selected em) (componentHovered em) (storables em) (toLoad em)
    (modules em) (exposed em) (shallow em) (sm em) b
    (noticeOnUnload em) (multipleSelection em) (onSelectBefore em)
    (onHoverBefore em) (events em).

(** ** Module registry *)

(** [loadModule]: a storable module joins the storable list, at the front
    when it is the components module and at the back otherwise; a public
    module is exposed under its name; a module with [onLoad] joins the load
    queue; every module joins the module list. *)
Definition loadModule (Mod : Module) (em : EditorModel) : EditorModel :=
  let st :=
    if storable Mod then
      if isDomComponents Mod then Mod :: storables em
      else storables em ++ [Mod]
    else storables em in
  let ex := if private Mod then exposed em else <[name Mod := Mod]> (exposed em) in
  let tl := if has_onLoad Mod then toLoad em ++ [Mod] else toLoad em in
  with_registry st tl (modules em ++ [Mod]) ex em.

(** [deps.forEach(name => this.loadModule(name))] *)
Definition loadModules (deps : list Module) (em : EditorModel) : EditorModel :=
  fold_left (fun e m => loadModule m e) deps em.

(** ** Selection *)

(** Outcome of an operation that can raise: the state it returned with, or
    the state at the point where a [TypeError] left it. *)
Inductive outcome (A : Type) : Type :=
  | Returned (a : A)
  | Thrown (a : A).
Arguments Returned {A} a.
Arguments Thrown {A} a.

(** Sequencing: what follows a raise does not run. *)
Definition bind {A : Type} (x : outcome A) (f : A -> outcome A) : outcome A :=
  match x with
  | Returned a => f a
  | Thrown a => Thrown a
  end.

Definition state_of {A : Type} (x : outcome A) : A :=
  match x with
  | Returned a => a
  | Thrown a => a
  end.

Definition raised {A : Type} (x : outcome A) : bool :=
  match x with
  | Returned _ => false
  | Thrown _ => true
  end.

(** Modelled from the spec: the [Selected] collection (./Selected) is not
    part of the sources.  The Selection Set is an ordered sequence of
    entities without duplicates; adding inserts an entity if absent,
    removing takes it out if present, and nothing is inserted when no
    entity is given. *)
Definition hasComponent (sel : list Component) (m : option Component) : bool :=
  match m with
  | Some c => contains sel c
  | None => false
  end.

Definition addComponent (m : option Component) (sel : list Component) : list Component :=
  match m with
  | Some c => if contains sel c then sel else sel ++ [c]
  | None => sel
  end.

Definition removeComponent (ms : list Component) (sel : list Component) : list Component :=
  List.filter (fun s => negb (contains ms s)) sel.

Definition allComponents (sel : list Component) : list Component := sel.

Definition lastComponent (sel : list Component) : option Component := last sel.

Definition getSelected (em : EditorModel) : option Component :=
  lastComponent (selected em).

Definition getSelectedAll (em : EditorModel) : list Component :=
  allComponents (selected em).

(** [removeSelected(el)] with [el] already resolved to a list of entities. *)
Definition removeSelected (ms : list Component) (em : EditorModel) : EditorModel :=
  with_selected (removeComponent ms (selected em)) em.

(** [s === model] for a possibly missing [model]. *)
Definition isModel (model : option Component) (s : Component) : bool :=
  match model with
  | Some c => same s c
  | None => false
  end.

Definition entities (m : option Component) : list Component :=
  match m with
  | Some c => [c]
  | None => []
  end.

(** Body of the [forEach] in [addSelected]. *)
Definition addSelected1 (opts : SelectOpts) (em : EditorModel) (m : option Component)
    : EditorModel :=
  match m with
  | Some c =>
      if negb (selectable c) then em
      else
        let em1 := if forceChange opts then removeSelected [c] em else em in
        let em2 := with_selected (addComponent (Some c) (selected em1)) em1 in
        trigger (Select c) em2
  | None =>
      let em1 := if forceChange opts then removeSelected [] em else em in
      with_selected (addComponent None (selected em1)) em1
  end.

Definition addSelected (ms : list (option Component)) (opts : SelectOpts)
    (em : EditorModel) : EditorModel :=
  fold_left (addSelected1 opts) ms em.

(** Body of the [forEach] in [toggleSelected]. *)
Definition toggleSelected1 (opts : SelectOpts) (em : EditorModel) (m : option Component)
    : EditorModel :=
  if hasComponent (selected em) m then removeSelected (entities m) em
  else addSelected [m] opts em.

Definition toggleSelected (ms : list (option Component)) (opts : SelectOpts)
    (em : EditorModel) : EditorModel :=
  fold_left (toggleSelected1 opts) ms em.

(** The default [opts = {}]. *)
Definition noOpts : SelectOpts := mkSelectOpts None false false false.

(** The walk [parent = model.parent(); while (parent && !parent.get(flag))
    parent = parent.parent()]. *)
Fixpoint validParent (flag : Component -> bool) (c : Component) : option Component :=
  match c with
  | mkComponent _ _ _ _ (Some p) => if flag p then Some p else validParent flag p
  | mkComponent _ _ _ _ None => None
  end.

Section Collections.

(** Modelled from the spec: the sibling collections belong to the
    component module, which is not part of the sources.  [doc k] lists the
    entities of collection [k] in order; [index] is the position of an
    entity in its collection (0 without a collection) and [at_] the entity
    at a position. *)
Variable doc : nat -> list Component.

Fixpoint indexOf (l : list Component) (c : Component) (i : Z) : Z :=
  match l with
  | [] => -1
  | x :: rest => if same x c then i else indexOf rest c (i + 1)
  end.

Definition index (c : Component) : Z :=
  match collection c with
  | Some k => indexOf (doc k) c 0
  | None => 0
  end.

Definition at_ (k : nat) (i : Z) : option Component :=
  let j := if i <? 0 then i + Z.of_nat (length (doc k)) else i in
  if j <? 0 then None else doc k !! Z.to_nat j.

(** [selColl === coll] *)
Definition sameColl (a b : option nat) : bool :=
  match a, b with
  | Some x, Some y => Nat.eqb x y
  | None, None => true
  | _, _ => false
  end.

(** One round of the search for the nearest selected siblings. *)
Definition nearest (coll : option nat) (idx : Z) (acc : option Z * option Z)
    (sel : Component) : option Z * option Z :=
  let '(min, max) := acc in
  let selIndex := index sel in
  if sameColl (collection sel) coll then
    if selIndex <? idx then
      (Some (match min with None => selIndex | Some m => Z.max m selIndex end), max)
    else if selIndex >? idx then
      (min, Some (match max with None => selIndex | Some m => Z.min m selIndex end))
    else acc
  else acc.

(** The search over the selected entities: the nearest selected sibling
    before the candidate and the nearest one after it, if any. *)
Definition nearestSelected (coll : option nat) (idx : Z) (sel : list Component)
    : option Z * option Z :=
  fold_left (nearest coll idx) sel (None, None).

(** [while (min !== index) { this.addSelected(coll.at(min)); min++ }],
    unrolled [n] times. *)
Fixpoint addUpwards (k : nat) (n : nat) (min : Z) (em : EditorModel) : EditorModel :=
  match n with
  | O => em
  | S n' => addUpwards k n' (min + 1) (addSelected [at_ k min] noOpts em)
  end.

(** [while (max !== index) { this.addSelected(coll.at(max)); max-- }],
    unrolled [n] times. *)
Fixpoint addDownwards (k : nat) (n : nat) (max : Z) (em : EditorModel) : EditorModel :=
  match n with
  | O => em
  | S n' => addDownwards k n' (max - 1) (addSelected [at_ k max] noOpts em)
  end.

(** The range branch of [setSelected] for a resolved [model]. *)
Definition selectRange (model : Component) (em : EditorModel) : outcome EditorModel :=
  let em0 := trigger ClearTextSelection em in
  let coll := collection model in
  let idx := index model in
  let '(min, max) := nearestSelected coll idx (getSelectedAll em0) in
  let up :=
    match min with
    | None => Returned em0
    | Some mn =>
        match coll with
        | Some k => Returned (addUpwards k (Z.to_nat (idx - mn)) mn em0)
        | None => Thrown em0
        end
    end in
  bind up (fun em1 =>
    let down :=
      match max with
      | None => Returned em1
      | Some mx =>
          match coll with
          | Some k => Returned (addDownwards k (Z.to_nat (mx - idx)) mx em1)
          | None => Thrown em1
          end
      end in
    bind down (fun em2 => Returned (addSelected [Some model] noOpts em2))).

(** What the validity check of [setSelected] leaves in [model]: the
    candidate goes on, another entity (or none) goes on in its place, or
    the callback returns. *)
Inductive Checked : Type :=
  | GoOn (model : option Component)
  | Return.

Definition checkSelectable (m : Component) (opts : SelectOpts) : Checked :=
  if negb (selectable m) || abort opts then
    if useValid opts then GoOn (validParent selectable m) else Return
  else GoOn (Some m).

(** What [setSelected] does with the entity the validity check let
    through: toggle it, extend the range to it, or select it alone. *)
Definition commitSelected (ctrl shift mltSel multiple : bool) (sel0 : list Component)
    (opts : SelectOpts) (em : EditorModel) (model : option Component)
    : outcome (SelectOpts * EditorModel) :=
  if ctrl && mltSel then
    Returned (opts, toggleSelected [model] noOpts em)
  else if shift && mltSel then
    match model with
    | Some m =>
        match selectRange m em with
        | Returned e => Returned (opts, e)
        | Thrown e => Thrown (opts, e)
        end
    | None => Thrown (opts, trigger ClearTextSelection em)
    end
  else
    let em1 :=
      if multiple then em
      else removeSelected (List.filter (fun s => negb (isModel model s)) sel0) em in
    Returned (opts, addSelected [model] opts em1).

(** Body of the [forEach] in [setSelected].  [ctrl], [shift], [mltSel],
    [multiple] and the snapshot [sel0] are computed once, before the loop;
    the options object is the caller's and every listener of
    [component:select:before] may have rewritten it by the time [abort]
    and [useValid] are read. *)
Definition setSelected1 (ctrl shift mltSel multiple : bool) (sel0 : list Component)
    (st : SelectOpts * EditorModel) (el : option Component)
    : outcome (SelectOpts * EditorModel) :=
  let '(opts, em) := st in
  match el with
  | Some m =>
      let em1 := trigger (SelectBefore m) em in
      let opts1 := onSelectBefore em m opts in
      match checkSelectable m opts1 with
      | Return => Returned (opts1, em1)
      | GoOn model => commitSelected ctrl shift mltSel multiple sel0 opts1 em1 model
      end
  | None => commitSelected ctrl shift mltSel multiple sel0 opts em None
  end.

(** The argument of [setSelected]: one target or an array of them. *)
Inductive Arg : Type :=
  | One (el : Target)
  | Many (els : list Target).

Definition isArray (a : Arg) : bool :=
  match a with
  | One _ => false
  | Many _ => true
  end.

Definition toList (a : Arg) : list Target :=
  match a with
  | One el => [el]
  | Many els => els
  end.

Fixpoint forEach {S A : Type} (f : S -> A -> outcome S) (l : list A) (s : S)
    : outcome S :=
  match l with
  | [] => Returned s
  | x :: rest =>
      match f s x with
      | Returned s' => forEach f rest s'
      | Thrown s' => Thrown s'
      end
  end.

Definition setSelected (el : Arg) (opts : SelectOpts) (em : EditorModel)
    : outcome (SelectOpts * EditorModel) :=
  let ctrl :=
    match event opts with
    | Some ev => ctrlKey ev || metaKey ev
    | None => false
    end in
  let shift :=
    match event opts with
    | Some ev => shiftKey ev
    | None => false
    end in
  let multiple := isArray el in
  let els := map getModel (toList el) in
  let sel0 := getSelectedAll em in
  let mltSel := multipleSelection em in
  let em0 :=
    if multiple then
      removeSelected
        (List.filter (fun s => negb (existsb (fun e => isModel e s) els)) sel0) em
    else em in
  forEach (setSelected1 ctrl shift mltSel multiple sel0) els (opts, em0).

End Collections.

(** ** Hover *)

(** [this.set('componentHovered', v)]: nothing happens when the value is
    the one already stored; otherwise the [componentHovered] listener
    unhovers the previous entity and hovers the new one. *)
Definition sameOpt (a b : option Component) : bool :=
  match a, b with
  | Some x, Some y => same x y
  | None, None => true
  | _, _ => false
  end.

Definition set_componentHovered (v : option Component) (em : EditorModel) : EditorModel :=
  if sameOpt (componentHovered em) v then em
  else
    let prev := componentHovered em in
    let em1 := with_hovered v em in
    let em2 := match prev with Some p => trigger (Unhovered p) em1 | None => em1 end in
    match v with Some c => trigger (Hovered c) em2 | None => em2 end.

Definition setHovered (el : Target) (opts : SelectOpts) (em : EditorModel)
    : SelectOpts * EditorModel :=
  if falsy el then (opts, set_componentHovered None em)
  else
    match getModel el with
    | None => (opts, em)
    | Some m =>
        let em1 := if forceChange opts then set_componentHovered None em else em in
        let em2 := trigger (HoverBefore m) em1 in
        let opts1 := onHoverBefore em m opts in
        let commit (model : option Component) :=
          if abort opts1 then (opts1, em2)
          else (opts1, trigger (Hover model) (set_componentHovered model em2)) in
        if negb (hoverable m) then
          if useValid opts1 && negb (abort opts1) then commit (validParent hoverable m)
          else (opts1, em2)
        else commit (Some m)
    end.

Definition getHovered (em : EditorModel) : option Component := componentHovered em.

(** ** Change tracking, persistence and readiness *)

(** What a pending [setTimeout] will run. *)
Inductive Task : Type :=
  | IncChanges (em : nat) (opt : Opts)
  | TriggerUpdate (em : nat)
  | Startup (em : nat).

Inductive RequestKind : Type :=
  | StoreRequest (data : gmap string string)
  | LoadRequest.

(** A call handed to the storage backend and not answered yet. *)
Record Request : Type :=
  mkRequest {
    req_em : nat;
    req_kind : RequestKind;
    req_resolve : option nat;
    req_reject : option nat
  }.

(** Everything the instances of one page share: the instances themselves,
    the timer queue, the two module-level [let]s, the unload guard of the
    window and the calls the storage backend still has to answer. *)
Record World : Type :=
  mkWorld {
    editors : list EditorModel;
    timers : list (nat * Task);
    next_timer : nat;
    timedInterval : option nat;
    updateItr : option nat;
    onbeforeunload : bool;
    requests : list Request
  }.

Definition with_editors (l : list EditorModel) (w : World) : World :=
  mkWorld l (timers w) (next_timer w) (timedInterval w) (updateItr w)
    (onbeforeunload w) (requests w).

Definition with_timers (t : list (nat * Task)) (n : nat) (w : World) : World :=
  mkWorld (editors w) t n (timedInterval w) (updateItr w)
    (onbeforeunload w) (requests w).

Definition with_timedInterval (i : option nat) (w : World) : World :=
  mkWorld (editors w) (timers w) (next_timer w) i (updateItr w)
    (onbeforeunload w) (requests w).

Definition with_updateItr (i : option nat) (w : World) : World :=
  mkWorld (editors w) (timers w) (next_timer w) (timedInterval w) i
    (onbeforeunload w) (requests w).

Definition with_onbeforeunload (b : bool) (w : World) : World :=
  mkWorld (editors w) (timers w) (next_timer w) (timedInterval w) (updateItr w)
    b (requests w).

Definition with_requests (r : list Request) (w : World) : World :=
  mkWorld (editors w) (timers w) (next_timer w) (timedInterval w) (updateItr w)
    (onbeforeunload w) r.

(** Apply [f] to instance [e]. *)
Definition update_editor (e : nat) (f : EditorModel -> EditorModel) (w : World) : World :=
  match editors w !! e with
  | Some em => with_editors (<[e := f em]> (editors w)) w
  | None => w
  end.

(** [setTimeout(task)]: the handle and the world with the task queued. *)
Definition setTimeout (t : Task) (w : World) : nat * World :=
  (next_timer w, with_timers (timers w ++ [(next_timer w, t)]) (S (next_timer w)) w).

Definition clearTimeout (id : nat) (w : World) : World :=
  with_timers (List.filter (fun p => negb (Nat.eqb (fst p) id)) (timers w)) (next_timer w) w.

(** [h && clearTimeout(h)] *)
Definition clearHandle (h : option nat) (w : World) : World :=
  match h with
  | Some id => clearTimeout id w
  | None => w
  end.

(** [storeData]: the storable modules' results merged in storable order,
    later modules winning on a shared key. *)
Definition storeData (em : EditorModel) : gmap string string :=
  fold_left (fun result m => store_result m ∪ result) (storables em) ∅.

(** Modelled from the spec: the storage manager is not part of the sources.
    Its [store] and [load] hand the call to an asynchronous backend; when
    the backend reports success the success callback runs with the result,
    when it reports failure the failure callback runs with the error. *)
Definition store (e : nat) (resolve reject : option nat) (w : World) : World :=
  match editors w !! e with
  | Some em =>
      match sm em with
      | Some _ =>
          with_requests
            (requests w ++ [mkRequest e (StoreRequest (storeData em)) resolve reject]) w
      | None => w
      end
  | None => w
  end.

(** [updateChanges], the listener of [change:changesCount]: the [update]
    notification is rescheduled, the unload guard follows the counter, and
    the autosave policy may call [store].  Without a storage manager
    [stm.isAutosave()] raises inside the listener, after the rest is done. *)
Definition updateChanges (e : nat) (w : World) : World :=
  match editors w !! e with
  | Some em =>
      let changes := changesCount em in
      let w1 := clearHandle (updateItr w) w in
      let '(id, w2) := setTimeout (TriggerUpdate e) w1 in
      let w3 := with_updateItr (Some id) w2 in
      let w4 := if noticeOnUnload em then with_onbeforeunload (negb (changes =? 0)) w3 else w3 in
      match sm em with
      | Some stm =>
          if isAutosave stm && (getStepsBeforeSave stm <=? changes)
          then store e None None w4
          else w4
      | None => update_editor e (trigger UncaughtTypeError) w4
      end
  | None => w
  end.

(** [this.set('changesCount', v, opts)]: the attribute changes and, unless
    the options silence it, the change is announced. *)
Definition set_changesCount (e : nat) (v : Z) (silently : bool) (w : World) : World :=
  match editors w !! e with
  | Some em =>
      if changesCount em =? v then w
      else
        let w1 := update_editor e (with_changesCount v) w in
        if silently then w1 else updateChanges e w1
  | None => w
  end.

(** [_checkReady] *)
Definition _checkReady (em : EditorModel) : EditorModel :=
  if readyLoad em && readyCanvas em && negb (ready em)
  then with_readiness (readyLoad em) (readyCanvas em) true em
  else em.

(** [this.set('readyLoad', v)] and [this.set('readyCanvas', v)]: a change
    of the value runs [_checkReady]. *)
Definition set_readyLoad (v : bool) (em : EditorModel) : EditorModel :=
  if Bool.eqb (readyLoad em) v then em
  else _checkReady (with_readiness v (readyCanvas em) (ready em) em).

Definition set_readyCanvas (v : bool) (em : EditorModel) : EditorModel :=
  if Bool.eqb (readyCanvas em) v then em
  else _checkReady (with_readiness (readyLoad em) v (ready em) em).

(** [handleUpdates(model, val, opt)] on instance [e]. *)
Definition ignored (em : EditorModel) (opt : Opts) : bool :=
  skip_flag em || temporary opt || noCount opt || avoidStore opt || negb (ready em).

Definition handleUpdates (e : nat) (opt : Opts) (w : World) : World :=
  match editors w !! e with
  | Some em =>
      if ignored em opt then w
      else
        let w1 := clearHandle (timedInterval w) w in
        let '(id, w2) := setTimeout (IncChanges e opt) w1 in
        with_timedInterval (Some id) w2
  | None => w
  end.

Definition changesUp (e : nat) (opts : Opts) (w : World) : World :=
  handleUpdates e opts w.

(** [skip(clb)]: the flag is up while [clb] runs. *)
Definition skip (e : nat) (clb : World -> World) (w : World) : World :=
  update_editor e (with_skip false) (clb (update_editor e (with_skip true) w)).

(** The post-load routine of [loadOnStart]. *)
Definition postLoad (e : nat) (w : World) : World :=
  update_editor e (set_readyLoad true) w.

(** [load(resolve, reject)] as called by [loadOnStart]. *)
Definition load (e : nat) (w : World) : World :=
  match editors w !! e with
  | Some em =>
      match sm em with
      | Some _ => with_requests (requests w ++ [mkRequest e LoadRequest None None]) w
      | None => w
      end
  | None => w
  end.

(** Running the callback of a timer.  The increment reads the counter
    ([|| 0] leaves a number as it is), drops [unset] from the options of the
    notification and passes the rest on to [set], of which [silent] is the
    one that [set] looks at. *)
Definition run_task (t : Task) (w : World) : World :=
  match t with
  | IncChanges e opt =>
      match editors w !! e with
      | Some em => set_changesCount e (changesCount em + 1) (silent opt) w
      | None => w
      end
  | TriggerUpdate e => update_editor e (trigger Update) w
  | Startup e =>
      match editors w !! e with
      | Some em =>
          match sm em with
          | Some stm => if canAutoload stm then load e w else postLoad e w
          | None => postLoad e w
          end
      | None => w
      end
  end.

(** The timer [id] fires if it is still pending. *)
Definition fire (id : nat) (w : World) : World :=
  match List.find (fun p => Nat.eqb (fst p) id) (timers w) with
  | Some (_, t) => run_task t (clearTimeout id w)
  | None => w
  end.

(** One turn of the scheduler: the timers pending when the turn starts fire
    in the order they were set; those set meanwhile wait for the next. *)
Definition turn (w : World) : World :=
  fold_left (fun w' p => fire (fst p) w') (timers w) w.

Inductive Report : Type :=
  | Success (res : string)
  | Failure (err : string).

Definition call (cb : option nat) (arg : string) (e : nat) (w : World) : World :=
  match cb with
  | Some f => update_editor e (trigger (Called f arg)) w
  | None => w
  end.

(** The backend answers the pending call number [k]. *)
Definition answer (k : nat) (r : Report) (w : World) : World :=
  match requests w !! k with
  | None => w
  | Some req =>
      let w1 := with_requests (delete k (requests w)) w in
      let e := req_em req in
      match req_kind req, r with
      | StoreRequest _, Success res =>
          set_changesCount e 0 false (call (req_resolve req) res e w1)
      | StoreRequest _, Failure err => call (req_reject req) err e w1
      | LoadRequest, Success res => postLoad e w1
      | LoadRequest, Failure err => update_editor e (trigger (LogError err)) w1
      end
  end.

(** [new EditorModel(conf)]: a fresh instance with the modules of [deps]
    loaded, added to the world. *)
Definition freshEditor (stm : option StorageManager) (notice mlt : bool) : EditorModel :=
  mkEditorModel 0 false false false [] None [] [] [] ∅ None stm false notice mlt
    (fun _ o => o) (fun _ o => o) [].

Definition newEditorModel (deps : list Module) (stm : option StorageManager)
    (notice mlt : bool) (w : World) : nat * World :=
  (length (editors w),
   with_editors (editors w ++ [loadModules deps (freshEditor stm notice mlt)]) w).

(** [loadOnStart]: the start-up is deferred to a timer and the shallow
    instance is created, with no unload notice.  Modelled from the spec: the
    storage manager of an instance configured with [storageManager: false]
    has persistence disabled, so it neither saves nor loads on its own. *)
Definition loadOnStart (deps : list Module) (e : nat) (w : World) : World :=
  let '(_, w1) := setTimeout (Startup e) w in
  let '(s, w2) := newEditorModel deps (Some (mkStorageManager false 1 false)) false false w1 in
  update_editor e (with_shallow (Some s)) w2.

Definition emptyWorld : World := mkWorld [] [] 1 None None false [].

(** The storable components module, and the other storable modules. *)
Definition domStorable (m : Module) : bool := storable m && isDomComponents m.
Definition otherStorable (m : Module) : bool := storable m && negb (isDomComponents m).

(** The ancestors of an entity, nearest first. *)
Fixpoint ancestors (c : Component) : list Component :=
  match c with
  | mkComponent _ _ _ _ (Some p) => p :: ancestors p
  | mkComponent _ _ _ _ None => []
  end.

(** A burst of mutation notifications on one instance. *)
Definition burst (e : nat) (opts : list Opts) (w : World) : World :=
  fold_left (fun w' o => handleUpdates e o w') opts w.

(** Updates of the two readiness sub-flags. *)
Inductive FlagUpdate : Type :=
  | SetReadyLoad (v : bool)
  | SetReadyCanvas (v : bool).

Definition applyFlag (em : EditorModel) (u : FlagUpdate) : EditorModel :=
  match u with
  | SetReadyLoad v => set_readyLoad v em
  | SetReadyCanvas v => set_readyCanvas v em
  end.

Definition applyFlags (us : list FlagUpdate) (em : EditorModel) : EditorModel :=
  fold_left applyFlag us em.

(** The states an instance goes through, the starting one included. *)
Fixpoint flagStates (us : list FlagUpdate) (em : EditorModel) : list EditorModel :=
  match us with
  | [] => [em]
  | u :: rest => em :: flagStates rest (applyFlag em u)
  end.

Definition bothReady (em : EditorModel) : bool := readyLoad em && readyCanvas em.

(** How often [ready] goes from [a] to [b] between consecutive states. *)
Fixpoint transitions (a b : bool) (l : list EditorModel) : nat :=
  match l with
  | x :: (y :: _) as rest =>
      ((if Bool.eqb (ready x) a && Bool.eqb (ready y) b then 1 else 0)
       + transitions a b rest)%nat
  | _ => O
  end.

(** The change counter of instance [e]. *)
Definition counter (e : nat) (w : World) : option Z :=
  changesCount <$> editors w !! e.

Definition isInc (t : Task) : bool :=
  match t with
  | IncChanges _ _ => true
  | _ => false
  end.

(** Worlds as the code builds them: timer handles are never reused, and the
    only increment that can be pending is the one [timedInterval] holds. *)
Definition coalesced (w : World) : Prop :=
  Forall (fun p => (fst p < next_timer w)%nat) (timers w) /\
  Forall (fun p => isInc (snd p) = true -> timedInterval w = Some (fst p)) (timers w).

(** The state a burst leaves behind: one pending increment, the last timer
    of the queue, held by [timedInterval]. *)
Definition single_pending (e : nat) (o : Opts) (w : World) : Prop :=
  exists id rest,
    timers w = rest ++ [(id, IncChanges e o)]
    /\ Forall (fun p => isInc (snd p) = false /\ (fst p < id)%nat) rest
    /\ next_timer w = S id
    /\ timedInterval w = Some id.

(** What holds while the timers set before that increment fire: the counter
    is still [c] and the increment is still the one timer with handle [id]. *)
Definition awaiting (e : nat) (o : Opts) (id : nat) (c : Z) (w : World) : Prop :=
  counter e w = Some c
  /\ List.find (fun p => Nat.eqb (fst p) id) (timers w) = Some (id, IncChanges e o)
  /\ Forall (fun p => fst p <> id -> isInc (snd p) = false) (timers w).

(** ** A small page

    Two storable modules and a private one; a primary instance that
    autosaves after every step, started with [loadOnStart], whose start-up
    timer has fired and whose canvas has reported in. *)
Definition plainOpts : Opts := mkOpts false false false false false.

Definition someDeps : list Module :=
  [ mkModule "StorageManager" None false false false false ∅;
    mkModule "CssComposer" (Some "styles") true true false true {["styles" := "css"]};
    mkModule "DomComponents" (Some "components") true true false true
      {["components" := "html"]};
    mkModule "Utils" None false false true false ∅ ].

Definition startedWorld : World :=
  let '(p, w1) :=
    newEditorModel someDeps (Some (mkStorageManager true 1 false)) true true emptyWorld in
  let w2 := turn (loadOnStart someDeps p w1) in
  update_editor p (set_readyCanvas true) w2.

(** The same page once the shallow instance has been made ready as well. *)
Definition bothReadyWorld : World :=
  update_editor 1 (set_readyCanvas true)
    (update_editor 1 (set_readyLoad true) startedWorld).

(** Instance [e] of a world where there is one. *)
Definition instance (e : nat) (w : World) : EditorModel :=
  default (freshEditor None false false) (editors w !! e).

(** ** A small document

    A wrapper, a row in it, a locked cell in the row (neither selectable
    nor hoverable), a free-standing locked note, and five sibling blocks in
    one collection. *)
Definition wrapper : Component := mkComponent 1 true true None None.
Definition row : Component := mkComponent 2 true true (Some 10%nat) (Some wrapper).
Definition cell : Component := mkComponent 3 false false (Some 11%nat) (Some row).
Definition text : Component := mkComponent 4 true true (Some 11%nat) (Some row).
Definition note : Component := mkComponent 5 false false None None.
Definition block (i : nat) : Component :=
  mkComponent (20 + i) true true (Some 12%nat) (Some wrapper).

Definition someDoc (k : nat) : list Component :=
  if Nat.eqb k 10 then [row]
  else if Nat.eqb k 11 then [cell; text]
  else if Nat.eqb k 12 then [block 0; block 1; block 2; block 3; block 4]
  else [].

Definition someEditor : EditorModel := freshEditor None false true.

Definition shiftOpts : SelectOpts :=
  mkSelectOpts (Some (mkKeyEvent false false true)) false false false.
Definition abortValidOpts : SelectOpts := mkSelectOpts None true true false.
Definition validOpts : SelectOpts := mkSelectOpts None false true false.

(** ** Histories

    What can happen on a page, one step at a time.  [Edit] stands for
    anything that acts on the attributes of one instance alone: the
    selection and hover operations, the updates of the readiness flags. *)
Inductive Action : Type :=
  | NewEditor (deps : list Module) (stm : option StorageManager) (notice mlt : bool)
  | LoadOnStart (deps : list Module) (e : nat)
  | Notify (e : nat) (o : Opts)
  | Edit (e : nat) (f : EditorModel -> EditorModel)
  | Store (e : nat) (resolve reject : option nat)
  | Answer (k : nat) (r : Report)
  | Fire (id : nat)
  | Turn.

Definition perform (w : World) (a : Action) : World :=
  match a with
  | NewEditor deps stm notice mlt => snd (newEditorModel deps stm notice mlt w)
  | LoadOnStart deps e => loadOnStart deps e w
  | Notify e o => handleUpdates e o w
  | Edit e f => update_editor e f w
  | Store e resolve reject => store e resolve reject w
  | Answer k r => answer k r w
  | Fire id => fire id w
  | Turn => turn w
  end.

Definition history (acts : list Action) : World := fold_left perform acts emptyWorld.

(** The entities of [l] from position [lo] on, [n] of them. *)
Definition slice (lo n : nat) (l : list Component) : list Component :=
  take n (drop lo l).

(** ** Worlds at rest

    The shapes a quiescent page goes through when one instance is notified:
    the world with the one increment pending, and the world after that
    increment has run and [updateChanges] has done its part. *)
Definition pendingIncrement (w : World) (n : nat) (e : nat) (o : Opts) : World :=
  mkWorld (editors w) [(n, IncChanges e o)] (S n) (Some n)
    (updateItr w) (onbeforeunload w) (requests w).

Definition autosaves (stm : StorageManager) (changes : Z) : bool :=
  isAutosave stm && (getStepsBeforeSave stm <=? changes).

Definition afterIncrement (w : World) (n : nat) (e : nat) (em : EditorModel)
    (stm : StorageManager) : World :=
  let changes := changesCount em + 1 in
  mkWorld (<[e := with_changesCount changes em]> (editors w))
    [(S n, TriggerUpdate e)] (S (S n)) (Some n) (Some (S n))
    (if noticeOnUnload em then negb (changes =? 0) else onbeforeunload w)
    (requests w ++
       if autosaves stm changes
       then [mkRequest e (StoreRequest (storeData em)) None None]
       else []).

(** ** Data kept on an element

    [data(el, name, value)]: the element carries a store under
    [_gjs-data], created on first use; without a value the call reads, with
    one it writes and returns nothing.  The store is a plain object
    literal: a name it does not hold itself is looked up on
    [Object.prototype], whose members are listed in [objectPrototype], and
    [__proto__] is the accessor of the prototype, which ignores a string
    assigned to it.  The values written are taken to be strings. *)
Definition objectPrototype : list string :=
  [ "constructor"; "hasOwnProperty"; "isPrototypeOf"; "propertyIsEnumerable";
    "toLocaleString"; "toString"; "valueOf"; "__proto__";
    "__defineGetter__"; "__defineSetter__"; "__lookupGetter__"; "__lookupSetter__" ].

Definition inherited (key : string) : bool :=
  existsb (String.eqb key) objectPrototype.

(** What a read yields: a string written before, or the member of
    [Object.prototype] of that name. *)
Inductive JsValue : Type :=
  | JsString (s : string)
  | JsBuiltin (key : string).

Record Element : Type := mkElement { gjsData : option (gmap string string) }.

(** [el[varName][name]] *)
Definition readProperty (bag : gmap string string) (key : string) : option JsValue :=
  match bag !! key with
  | Some v => Some (JsString v)
  | None => if inherited key then Some (JsBuiltin key) else None
  end.

(** [el[varName][name] = value] *)
Definition writeProperty (bag : gmap string string) (key v : string)
    : gmap string string :=
  if String.eqb key "__proto__" then bag else <[key := v]> bag.

Definition data (el : Element) (key : string) (value : option string)
    : option JsValue * Element :=
  let bag := default ∅ (gjsData el) in
  match value with
  | None => (readProperty bag key, mkElement (Some bag))
  | Some v => (None, mkElement (Some (writeProperty bag key v)))
  end.

(** ** The default command

    [runDefault] and [stopDefault] drive the configured default command, if
    the command module knows it, and remember in [defaultRunning] whether
    it runs. *)
Inductive CommandCall : Type :=
  | CmdStop
  | CmdRun.

Record DefaultCommand : Type :=
  mkDefaultCommand { defaultRunning : bool; commandCalls : list CommandCall }.

Definition runDefault (known : bool) (s : DefaultCommand) : DefaultCommand :=
  if negb known || defaultRunning s then s
  else mkDefaultCommand true (commandCalls s ++ [CmdStop; CmdRun]).

Definition stopDefault (known : bool) (s : DefaultCommand) : DefaultCommand :=
  if negb known || negb (defaultRunning s) then s
  else mkDefaultCommand false (commandCalls s ++ [CmdStop]).

Inductive DefaultStep : Type :=
  | RunDefault
  | StopDefault.

Definition defaultStep (known : bool) (s : DefaultCommand) (a : DefaultStep)
    : DefaultCommand :=
  match a with
  | RunDefault => runDefault known s
  | StopDefault => stopDefault known s
  end.

Definition isRun (c : CommandCall) : bool :=
  match c with
  | CmdRun => true
  | CmdStop => false
  end.

(** The public modules of a given name. *)
Definition publicNamed (n : string) (m : Module) : bool :=
  negb (private m) && String.eqb (name m) n.

(** ** What a selection operation may touch *)

Definition with_events (ev : list Event) (em : EditorModel) : EditorModel :=
  mkEditorModel (changesCount em) (readyLoad em) (readyCanvas em) (ready em)
    (selected em) (componentHovered em) (storables em) (toLoad em)
    (modules em) (exposed em) (shallow em) (sm em) (skip_flag em)
    (noticeOnUnload em) (multipleSelection em) (onSelectBefore em)
    (onHoverBefore em) ev.

(** [em'] is [em] but for the Selection Set and the log; the log only grew,
    what was announced as selected is selectable, and so is what joined the
    Selection Set. *)
Definition selectionStep (em em' : EditorModel) : Prop :=
  em' = with_events (events em') (with_selected (selected em') em)
  /\ (exists tl, events em' = events em ++ tl
                 /\ forall c, In (Select c) tl -> selectable c = true)
  /\ (forall x, In x (selected em') -> In x (selected em) \/ selectable x = true).


(** ** Pages and instances to try things on

    A page with one new instance that does not autoload, the same with a
    storage manager that does, and an instance with two entities selected
    and one hovered. *)
Definition newWorld : World :=
  snd (newEditorModel someDeps (Some (mkStorageManager true 1 false)) true true emptyWorld).

Definition autoloadWorld : World :=
  snd (newEditorModel someDeps (Some (mkStorageManager true 1 true)) true true emptyWorld).

Definition busyEditor : EditorModel :=
  with_hovered (Some row) (with_selected [block 0; text] someEditor).

Definition ctrlOpts : SelectOpts :=
  mkSelectOpts (Some (mkKeyEvent true false false)) false false false.

(** Timer handles as [setTimeout] hands them out: no two pending timers
    share a handle, and every handle in use is below the next one. *)
Definition fresh_handles (w : World) : Prop :=
  NoDup (map fst (timers w)) /\
  Forall (fun p => (fst p < next_timer w)%nat) (timers w).

(** The increments waiting in the queue. *)
Definition pendingIncrements (w : World) : list (nat * Task) :=
  List.filter (fun p => isInc (snd p)) (timers w).

(** ** The range, by the words of the spec

    The block a range selection covers, written without the search loop of
    the code: from the nearest selected sibling before the candidate to the
    nearest one after it, the candidate's own position standing in on a
    side where no sibling is selected.  A selected sibling is a selected
    entity of the collection that is the sibling itself. *)
Definition selectedSibling (k : nat) (sel : list Component) (x : Component) : bool :=
  existsb (fun s => same s x && sameColl (collection s) (Some k)) sel.

Definition selectedAt (k : nat) (sel l : list Component) (j : nat) : bool :=
  match l !! j with
  | Some x => selectedSibling k sel x
  | None => false
  end.

Definition nearestBefore (k : nat) (sel l : list Component) (i : nat) : nat :=
  default i (List.find (selectedAt k sel l) (rev (seq 0 i))).

Definition nearestAfter (k : nat) (sel l : list Component) (i : nat) : nat :=
  default i (List.find (selectedAt k sel l) (seq (S i) (length l - S i))).

(** The entities a range selection at position [i] adds: the selectable
    ones of the block. *)
Definition rangeBlock (k : nat) (sel l : list Component) (i : nat) : list Component :=
  let lo := nearestBefore k sel l i in
  let hi := nearestAfter k sel l i in
  List.filter selectable (slice lo (S (hi - lo)) l).

(** Five siblings of one collection, the third of them locked. *)
Definition brick (i : nat) : Component :=
  mkComponent (30 + i) (negb (Nat.eqb i 2)) true (Some 13%nat) (Some wrapper).

Definition lockedDoc (k : nat) : list Component :=
  if Nat.eqb k 13 then [brick 0; brick 1; brick 2; brick 3; brick 4] else [].

Definition ctrlShiftOpts : SelectOpts :=
  mkSelectOpts (Some (mkKeyEvent true false true)) false false false.

Definition shiftAbortOpts : SelectOpts :=
  mkSelectOpts (Some (mkKeyEvent false false true)) true false false.

Definition ctrlValidOpts : SelectOpts :=
  mkSelectOpts (Some (mkKeyEvent true false false)) false true false.

(** ** Pages as the code builds them

    What the code does to one instance between two steps of the scheduler:
    the selection and hover operations, and the canvas reporting in. *)
Inductive Operation : Type :=
  | OpSetSelected (doc : nat -> list Component) (el : Arg) (opts : SelectOpts)
  | OpAddSelected (ms : list (option Component)) (opts : SelectOpts)
  | OpRemoveSelected (cs : list Component)
  | OpToggleSelected (ms : list (option Component)) (opts : SelectOpts)
  | OpSetHovered (el : Target) (opts : SelectOpts)
  | OpReadyCanvas (v : bool).

Definition operate (op : Operation) (em : EditorModel) : EditorModel :=
  match op with
  | OpSetSelected doc el opts => snd (state_of (setSelected doc el opts em))
  | OpAddSelected ms opts => addSelected ms opts em
  | OpRemoveSelected cs => removeSelected cs em
  | OpToggleSelected ms opts => toggleSelected ms opts em
  | OpSetHovered el opts => snd (setHovered el opts em)
  | OpReadyCanvas v => set_readyCanvas v em
  end.

(** Instance [s] is the shallow instance of some instance of the page. *)
Definition isShallow (w : World) (s : nat) : Prop :=
  exists p em, editors w !! p = Some em /\ shallow em = Some s.

(** An instance of the page that is nobody's shallow instance. *)
Definition primary (w : World) (e : nat) : Prop :=
  (e < length (editors w))%nat /\ ~ isShallow w e.

(** A step as the code takes it: [loadOnStart] is called on an instance a
    caller created, never on a shallow instance, which only [loadOnStart]
    itself creates; and an instance is acted on through its operations. *)
Definition coded (w : World) (a : Action) : Prop :=
  match a with
  | LoadOnStart _ e => primary w e
  | Edit _ f => exists op, f = operate op
  | _ => True
  end.

Fixpoint codedFrom (w : World) (acts : list Action) : Prop :=
  match acts with
  | [] => True
  | a :: rest => coded w a /\ codedFrom (perform w a) rest
  end.

(** The instance a timer will change the readiness or the counter of. *)
Definition target (t : Task) : option nat :=
  match t with
  | IncChanges e _ => Some e
  | Startup e => Some e
  | TriggerUpdate _ => None
  end.

Definition isLoad (k : RequestKind) : bool :=
  match k with
  | LoadRequest => true
  | StoreRequest _ => false
  end.

Definition unready (w : World) (s : nat) : Prop :=
  exists em,
    editors w !! s = Some em
    /\ readyLoad em = false /\ ready em = false /\ changesCount em = 0.

(** What holds of every page the code builds: a shallow instance is not
    ready, has not loaded and has counted nothing, and no pending start-up,
    increment or load is one of a shallow instance or of an instance that
    is not there. *)
Definition secluded (w : World) : Prop :=
  (forall s, isShallow w s -> unready w s)
  /\ Forall (fun p => forall e, target (snd p) = Some e -> primary w e) (timers w)
  /\ Forall (fun r => isLoad (req_kind r) = true -> primary w (req_em r)) (requests w).

(** The attributes of an instance that decide whether it counts changes. *)
Definition flags (em : EditorModel) : option nat * bool * bool * bool * Z :=
  (shallow em, readyLoad em, readyCanvas em, ready em, changesCount em).

(** The history that leads to the started page, and one notification. *)
Definition startedHistory : list Action :=
  [ NewEditor someDeps (Some (mkStorageManager true 1 false)) true true;
    LoadOnStart someDeps 0;
    Turn;
    Edit 0 (operate (OpReadyCanvas true)) ].

(** No increment of instance [s] is pending. *)
Definition noIncrement (s : nat) (w : World) : Prop :=
  Forall (fun p => forall o, snd p <> IncChanges s o) (timers w).

(** * Properties *)

(** ** Module registry *)

Lemma storables_loadModule (m : Module) (em : EditorModel) :
  storables (loadModule m em) =
    List.filter domStorable [m] ++ storables em ++ List.filter otherStorable [m].
Proof.
  unfold loadModule, domStorable, otherStorable. simpl.
  destruct (storable m), (isDomComponents m); simpl;
    rewrite ?app_nil_r; reflexivity.
Qed.

Lemma storables_loadModules (deps : list Module) (em : EditorModel) :
  storables (loadModules deps em) =
    rev (List.filter domStorable deps) ++ storables em ++ List.filter otherStorable deps.
Proof.
  revert em. induction deps as [|m deps IH]; intros em.
  - simpl. now rewrite app_nil_r.
  - change (loadModules (m :: deps) em) with (loadModules deps (loadModule m em)).
    rewrite IH, storables_loadModule. simpl.
    destruct (domStorable m), (otherStorable m); simpl;
      rewrite <- ?app_assoc; simpl; rewrite ?app_nil_r; reflexivity.
Qed.

Lemma modules_loadModules (deps : list Module) (em : EditorModel) :
  modules (loadModules deps em) = modules em ++ deps.
Proof.
  revert em. induction deps as [|m deps IH]; intros em.
  - simpl. now rewrite app_nil_r.
  - change (loadModules (m :: deps) em) with (loadModules deps (loadModule m em)).
    rewrite IH. simpl. now rewrite <- app_assoc.
Qed.

Lemma filter_none {A : Type} (f : A -> bool) (l : list A) :
  (forall x, In x l -> f x = false) -> List.filter f l = [].
Proof.
  induction l as [|x l IH]; intros H; [reflexivity|]. simpl.
  rewrite (H x (or_introl eq_refl)). apply IH. intros y Hy. apply H. now right.
Qed.

Lemma filter_all {A : Type} (f : A -> bool) (l : list A) :
  (forall x, In x l -> f x = true) -> List.filter f l = l.
Proof.
  induction l as [|x l IH]; intros H; [reflexivity|]. simpl.
  rewrite (H x (or_introl eq_refl)). f_equal. apply IH. intros y Hy. apply H. now right.
Qed.

(** C4. After any sequence of [loadModule] registrations on a new instance
    the storable list consists of exactly the registered modules that have
    [storageKey], [store] and [load]; the components module (if it is
    storable) sits at index 0, and all other storable modules follow in the
    order in which they were registered. *)
Theorem storables_components_first (deps : list Module)
    (stm : option StorageManager) (notice mlt : bool) :
  let st := storables (loadModules deps (freshEditor stm notice mlt)) in
  st = rev (List.filter domStorable deps) ++ List.filter otherStorable deps
  /\ (forall m, In m st <-> In m deps /\ storable m = true)
  /\ head st = match last (List.filter domStorable deps) with
               | Some d => Some d
               | None => head (List.filter otherStorable deps)
               end
  /\ List.filter (fun m => negb (isDomComponents m)) st = List.filter otherStorable deps.
Proof.
  intros st.
  assert (E : st = rev (List.filter domStorable deps) ++ List.filter otherStorable deps).
  { unfold st. rewrite storables_loadModules. reflexivity. }
  split; [exact E|]. split; [|split].
  - intros m. rewrite E, in_app_iff, <- in_rev, !filter_In.
    unfold domStorable, otherStorable.
    destruct (storable m), (isDomComponents m); simpl; intuition congruence.
  - rewrite E. generalize (List.filter domStorable deps) as l.
    induction l as [|d ds _] using rev_ind.
    + reflexivity.
    + rewrite rev_app_distr. simpl. rewrite last_snoc. reflexivity.
  - rewrite E, List.filter_app, filter_none, filter_all; [reflexivity| |].
    + intros x Hx. apply filter_In in Hx. destruct Hx as [_ Hx].
      unfold otherStorable in Hx. apply andb_true_iff in Hx. tauto.
    + intros x Hx. apply in_rev, filter_In in Hx. destruct Hx as [_ Hx].
      unfold domStorable in Hx. apply andb_true_iff in Hx.
      destruct Hx as [_ Hx]. now rewrite Hx.
Qed.

(** ** Readiness *)

Lemma ready_applyFlag (em : EditorModel) (u : FlagUpdate) :
  (bothReady em = true -> ready em = true) ->
  ready (applyFlag em u) = ready em || bothReady (applyFlag em u).
Proof.
  destruct em as [cc rl rc r]; destruct u as [v|v];
    unfold bothReady, applyFlag, set_readyLoad, set_readyCanvas, _checkReady;
    simpl; destruct rl, rc, r, v; simpl; intros H;
    try reflexivity; try (discriminate (H eq_refl)).
Qed.

Lemma settled_applyFlag (em : EditorModel) (u : FlagUpdate) :
  (bothReady em = true -> ready em = true) ->
  bothReady (applyFlag em u) = true -> ready (applyFlag em u) = true.
Proof.
  intros H B. rewrite ready_applyFlag, B by exact H. apply orb_true_r.
Qed.

Lemma ready_stays (em : EditorModel) (u : FlagUpdate) :
  ready em = true -> ready (applyFlag em u) = true.
Proof.
  destruct em as [cc rl rc r]; destruct u as [v|v];
    unfold applyFlag, set_readyLoad, set_readyCanvas, _checkReady;
    simpl; intros ->; destruct rl, rc, v; reflexivity.
Qed.

Lemma settled_applyFlags (us : list FlagUpdate) (em : EditorModel) :
  (bothReady em = true -> ready em = true) ->
  bothReady (applyFlags us em) = true -> ready (applyFlags us em) = true.
Proof.
  revert em. induction us as [|u us IH]; intros em H; [exact H|].
  apply IH. apply settled_applyFlag, H.
Qed.

Lemma applyFlags_snoc (us : list FlagUpdate) (u : FlagUpdate) (em : EditorModel) :
  applyFlags (us ++ [u]) em = applyFlag (applyFlags us em) u.
Proof. unfold applyFlags. now rewrite fold_left_app. Qed.

Lemma no_flip_once_ready (us : list FlagUpdate) (em : EditorModel) :
  ready em = true ->
  transitions false true (flagStates us em) = O /\
  transitions true false (flagStates us em) = O.
Proof.
  revert em. induction us as [|u us IH]; intros em R; [split; reflexivity|].
  pose proof (ready_stays em u R) as R'.
  destruct (IH _ R') as [I1 I2].
  simpl. destruct us; simpl in *; rewrite R, ?R' in *; simpl; auto.
Qed.

Lemma flips_at_most_once (us : list FlagUpdate) (em : EditorModel) :
  (transitions false true (flagStates us em) <= 1)%nat /\
  transitions true false (flagStates us em) = O.
Proof.
  revert em. induction us as [|u us IH]; intros em; [simpl; split; lia|].
  destruct (ready em) eqn:R.
  - destruct (no_flip_once_ready (u :: us) em R) as [-> ->]. split; lia.
  - destruct (ready (applyFlag em u)) eqn:R'.
    + destruct (no_flip_once_ready us _ R') as [I1 I2].
      simpl. destruct us; simpl in *; rewrite R, ?R' in *; simpl in *; split; lia.
    + destruct (IH (applyFlag em u)) as [I1 I2].
      simpl. destruct us; simpl in *; rewrite R, ?R' in *; simpl in *; split; lia.
Qed.

(** C8. Starting from a new instance and through any sequence of updates
    of [readyLoad] and [readyCanvas], [ready] holds after [n] updates
    exactly when both sub-flags were true together after some [k <= n] of
    them; along the run [ready] goes from false to true at most once and
    never from true to false. *)
Theorem ready_exactly_once (us : list FlagUpdate)
    (stm : option StorageManager) (notice mlt : bool) (n : nat) :
  let em0 := freshEditor stm notice mlt in
  ready (applyFlags (firstn n us) em0)
    = existsb (fun k => bothReady (applyFlags (firstn k us) em0)) (seq 0 (S n))
  /\ (transitions false true (flagStates us em0) <= 1)%nat
  /\ transitions true false (flagStates us em0) = O.
Proof.
  intros em0. split; [|apply flips_at_most_once].
  assert (P0 : bothReady em0 = true -> ready em0 = true) by (simpl; discriminate).
  induction n as [|n IH].
  - reflexivity.
  - rewrite seq_S, existsb_app, <- IH. simpl. rewrite orb_false_r.
    destruct (le_lt_dec (length us) n) as [Hge|Hlt].
    + rewrite !firstn_all2 by lia.
      destruct (bothReady (applyFlags us em0)) eqn:B.
      * rewrite (settled_applyFlags us em0 P0 B). reflexivity.
      * now rewrite orb_false_r.
    + destruct (nth_error us n) as [u|] eqn:U.
      2:{ apply nth_error_None in U. lia. }
      assert (F : firstn (S n) us = firstn n us ++ [u]).
      { clear -U. revert us U. induction n as [|n IHn]; intros [|x us] U;
          simpl in *; try discriminate.
        - now inversion U.
        - f_equal. now apply IHn. }
      rewrite F, applyFlags_snoc. apply ready_applyFlag.
      apply settled_applyFlags, P0.
Qed.

(** ** Worlds *)

Lemma lookup_update_editor_eq (e : nat) (f : EditorModel -> EditorModel) (w : World) :
  editors (update_editor e f w) !! e = f <$> editors w !! e.
Proof.
  unfold update_editor. destruct (editors w !! e) as [em|] eqn:E; simpl.
  - apply list_lookup_insert_eq. eapply lookup_lt_Some, E.
  - now rewrite E.
Qed.

Lemma lookup_update_editor_ne (e e' : nat) (f : EditorModel -> EditorModel) (w : World) :
  e <> e' -> editors (update_editor e f w) !! e' = editors w !! e'.
Proof.
  intros Hne. unfold update_editor. destruct (editors w !! e) as [em|]; simpl.
  - now apply list_lookup_insert_ne.
  - reflexivity.
Qed.

Lemma timers_update_editor (e : nat) (f : EditorModel -> EditorModel) (w : World) :
  timers (update_editor e f w) = timers w
  /\ next_timer (update_editor e f w) = next_timer w
  /\ timedInterval (update_editor e f w) = timedInterval w
  /\ requests (update_editor e f w) = requests w.
Proof. unfold update_editor. destruct (editors w !! e); repeat split. Qed.

Lemma counter_update_editor (e e' : nat) (f : EditorModel -> EditorModel) (w : World) :
  (forall em, changesCount (f em) = changesCount em) ->
  counter e' (update_editor e f w) = counter e' w.
Proof.
  intros Hf. unfold counter. destruct (Nat.eq_dec e e') as [ <- | Hne].
  - rewrite lookup_update_editor_eq. destruct (editors w !! e); simpl; [|reflexivity].
    now rewrite Hf.
  - now rewrite lookup_update_editor_ne.
Qed.

(** [updateChanges] leaves every instance as it was, apart from the error
    it records on its own instance when there is no storage manager. *)
Lemma editors_store (e : nat) (rs rj : option nat) (w : World) :
  editors (store e rs rj w) = editors w /\ timers (store e rs rj w) = timers w.
Proof.
  unfold store. destruct (editors w !! e) as [em|]; [|split; reflexivity].
  destruct (sm em); split; reflexivity.
Qed.

Lemma editors_updateChanges (e e' : nat) (w : World) :
  editors (updateChanges e w) !! e' = editors w !! e'
  \/ (e' = e /\ editors (updateChanges e w) !! e'
                = trigger UncaughtTypeError <$> editors w !! e').
Proof.
  unfold updateChanges. destruct (editors w !! e) as [em|] eqn:E; [|now left].
  simpl. destruct (sm em) as [stm|].
  - left. destruct (isAutosave stm && (getStepsBeforeSave stm <=? changesCount em)).
    + rewrite (proj1 (editors_store _ _ _ _)). destruct (noticeOnUnload em), (updateItr w); reflexivity.
    + destruct (noticeOnUnload em), (updateItr w); reflexivity.
  - destruct (Nat.eq_dec e e') as [ <- | Hne].
    + right. split; [reflexivity|]. rewrite lookup_update_editor_eq.
      destruct (noticeOnUnload em), (updateItr w); reflexivity.
    + left. rewrite lookup_update_editor_ne by exact Hne.
      destruct (noticeOnUnload em), (updateItr w); reflexivity.
Qed.

Lemma counter_updateChanges (e e' : nat) (w : World) :
  counter e' (updateChanges e w) = counter e' w.
Proof.
  unfold counter. destruct (editors_updateChanges e e' w) as [ -> | [_ ->]]; [reflexivity|].
  now destruct (editors w !! e').
Qed.

(** Setting the counter of an instance sets it, whatever the listener of
    the change does afterwards. *)
Lemma counter_set_changesCount (e : nat) (v : Z) (q : bool) (w : World) (em : EditorModel) :
  editors w !! e = Some em ->
  counter e (set_changesCount e v q w) = Some v.
Proof.
  intros E. unfold set_changesCount. rewrite E.
  destruct (changesCount em =? v) eqn:C.
  - apply Z.eqb_eq in C. unfold counter. now rewrite E, <- C.
  - assert (U : counter e (update_editor e (with_changesCount v) w) = Some v).
    { unfold counter. now rewrite lookup_update_editor_eq, E. }
    destruct q; [exact U|]. now rewrite counter_updateChanges.
Qed.

Lemma counter_set_changesCount_ne (e e' : nat) (v : Z) (q : bool) (w : World) :
  e <> e' -> counter e' (set_changesCount e v q w) = counter e' w.
Proof.
  intros Hne. unfold set_changesCount. destruct (editors w !! e) as [em|]; [|reflexivity].
  destruct (changesCount em =? v); [reflexivity|].
  assert (U : counter e' (update_editor e (with_changesCount v) w) = counter e' w).
  { unfold counter. now rewrite lookup_update_editor_ne. }
  destruct q; [exact U|]. now rewrite counter_updateChanges.
Qed.

(** ** Mutation notifications *)

Lemma handleUpdates_guard (w : World) (e : nat) (em : EditorModel) (opt : Opts) :
  editors w !! e = Some em -> ignored em opt = true -> handleUpdates e opt w = w.
Proof. intros E I. unfold handleUpdates. now rewrite E, I. Qed.

(** C7. A mutation notification is ignored when the skip flag is up, when
    it carries [temporary], [noCount] or [avoidStore], or when the instance
    is not ready: the call returns at once and the world is what it was, so
    the counter is not incremented and nothing is scheduled. *)
Theorem handleUpdates_ignored (w : World) (e : nat) (em : EditorModel) (opt : Opts) :
  editors w !! e = Some em ->
  skip_flag em = true \/ temporary opt = true \/ noCount opt = true
    \/ avoidStore opt = true \/ ready em = false ->
  handleUpdates e opt w = w
  /\ changesUp e opt w = w
  /\ timers (handleUpdates e opt w) = timers w
  /\ counter e (turn (handleUpdates e opt w)) = counter e (turn w).
Proof.
  intros E H.
  assert (I : ignored em opt = true).
  { unfold ignored. destruct H as [ -> | [ -> | [ -> | [ -> | -> ]]]];
      rewrite ?orb_true_r; reflexivity. }
  pose proof (handleUpdates_guard w e em opt E I) as U.
  unfold changesUp. rewrite U. repeat split.
Qed.

Lemma burst_ignored (e : nat) (opts : list Opts) (w : World) (em : EditorModel) :
  editors w !! e = Some em -> skip_flag em = true -> burst e opts w = w.
Proof.
  intros E S. induction opts as [|o opts IH]; [reflexivity|].
  unfold burst in *. simpl.
  rewrite (handleUpdates_guard w e em o E); [exact IH|].
  unfold ignored. now rewrite S.
Qed.

(** X8. While [skip] runs its callback no notification of the instance is
    counted or scheduled: the timer queue, the shared handle and the
    counter are afterwards what they were. *)
Lemma skip_suppresses (e : nat) (opts : list Opts) (w : World) (em : EditorModel) :
  editors w !! e = Some em ->
  timers (skip e (burst e opts) w) = timers w
  /\ timedInterval (skip e (burst e opts) w) = timedInterval w
  /\ counter e (skip e (burst e opts) w) = counter e w.
Proof.
  intros E. unfold skip.
  rewrite (burst_ignored e opts _ (with_skip true em)).
  - destruct (timers_update_editor e (with_skip false)
                (update_editor e (with_skip true) w)) as (-> & _ & -> & _).
    destruct (timers_update_editor e (with_skip true) w) as (-> & _ & -> & _).
    rewrite !counter_update_editor by reflexivity. repeat split.
  - now rewrite lookup_update_editor_eq, E.
  - reflexivity.
Qed.

(** ** Persistence *)

Lemma events_set_changesCount (e : nat) (v : Z) (q : bool) (w : World) (em : EditorModel) :
  editors w !! e = Some em ->
  exists em2 tl,
    editors (set_changesCount e v q w) !! e = Some em2
    /\ changesCount em2 = v
    /\ events em2 = events em ++ tl.
Proof.
  intros E. unfold set_changesCount. rewrite E.
  destruct (changesCount em =? v) eqn:C.
  - apply Z.eqb_eq in C. exists em, []. now rewrite app_nil_r.
  - assert (U : editors (update_editor e (with_changesCount v) w) !! e
                = Some (with_changesCount v em)).
    { now rewrite lookup_update_editor_eq, E. }
    destruct q.
    + exists (with_changesCount v em), []. simpl. now rewrite app_nil_r.
    + destruct (editors_updateChanges e e (update_editor e (with_changesCount v) w))
        as [ -> | [_ ->]]; rewrite U.
      * exists (with_changesCount v em), []. simpl. now rewrite app_nil_r.
      * exists (trigger UncaughtTypeError (with_changesCount v em)), [UncaughtTypeError].
        repeat split.
Qed.

Lemma lookup_call (cb : option nat) (arg : string) (e : nat) (w : World) (em : EditorModel) :
  editors w !! e = Some em ->
  editors (call cb arg e w) !! e
    = Some (match cb with Some f => trigger (Called f arg) em | None => em end).
Proof.
  intros E. destruct cb as [f|]; simpl; [|exact E].
  now rewrite lookup_update_editor_eq, E.
Qed.

(** C2. With a storage manager in place, [store] hands the data and both
    callbacks to the backend.  When the backend reports success, [resolve]
    is invoked with the result and the counter is 0 afterwards; when it
    reports failure, [reject] is invoked with the error and the instance,
    its counter included, is otherwise what it was. *)
Theorem store_success_resets_failure_keeps (w : World) (e : nat) (em : EditorModel)
    (stm : StorageManager) (resolve reject : option nat) :
  editors w !! e = Some em ->
  sm em = Some stm ->
  let req := mkRequest e (StoreRequest (storeData em)) resolve reject in
  store e resolve reject w = with_requests (requests w ++ [req]) w
  /\ forall (w' : World) (k : nat) (em' : EditorModel),
       requests w' !! k = Some req ->
       editors w' !! e = Some em' ->
       (forall res,
          counter e (answer k (Success res) w') = Some 0
          /\ exists em2 tl,
               editors (answer k (Success res) w') !! e = Some em2
               /\ events em2
                  = events em'
                    ++ match resolve with Some cb => [Called cb res] | None => [] end
                    ++ tl)
       /\ (forall err,
             editors (answer k (Failure err) w') !! e
               = Some (match reject with
                       | Some cb => trigger (Called cb err) em'
                       | None => em'
                       end)
             /\ counter e (answer k (Failure err) w') = Some (changesCount em')
             /\ timers (answer k (Failure err) w') = timers w').
Proof.
  intros E S req. split.
  { unfold store. now rewrite E, S. }
  intros w' k em' R E'. split.
  - intros res. unfold answer. rewrite R. simpl.
    set (w1 := with_requests (delete k (requests w')) w').
    assert (E1 : editors w1 !! e = Some em') by exact E'.
    pose proof (lookup_call resolve res e w1 em' E1) as E2.
    split.
    + eapply counter_set_changesCount, E2.
    + destruct (events_set_changesCount e 0 false _ _ E2) as (em2 & tl & L & _ & Ev).
      exists em2, tl. split; [exact L|]. rewrite Ev.
      destruct resolve; simpl; [now rewrite <- app_assoc | reflexivity].
  - intros err. unfold answer. rewrite R. simpl.
    set (w1 := with_requests (delete k (requests w')) w').
    assert (E1 : editors w1 !! e = Some em') by exact E'.
    pose proof (lookup_call reject err e w1 em' E1) as E2.
    split; [exact E2|]. split.
    + unfold counter. rewrite E2. now destruct reject.
    + destruct reject; simpl; [|reflexivity].
      now destruct (timers_update_editor e (trigger (Called n err)) w1) as (-> & _).
Qed.

(** ** Coalescing of notifications *)

Lemma single_pending_coalesced (e : nat) (o : Opts) (w : World) :
  single_pending e o w -> coalesced w.
Proof.
  intros (id & rest & T & F & N & I). unfold coalesced. rewrite T, N, I.
  split; apply List.Forall_app; split.
  - eapply List.Forall_impl; [|exact F]. simpl. intros p [_ H]. lia.
  - repeat constructor.
  - eapply List.Forall_impl; [|exact F]. simpl. intros p [H _] H'. congruence.
  - repeat constructor.
Qed.

Lemma handleUpdates_accepted (e : nat) (o : Opts) (w : World) (em : EditorModel) :
  editors w !! e = Some em ->
  ignored em o = false ->
  coalesced w ->
  single_pending e o (handleUpdates e o w)
  /\ editors (handleUpdates e o w) = editors w.
Proof.
  intros E I [Hlt Hinc]. unfold handleUpdates. rewrite E, I.
  split; [|now destruct (timedInterval w)].
  exists (next_timer w),
    (match timedInterval w with
     | Some id => List.filter (fun p => negb (Nat.eqb (fst p) id)) (timers w)
     | None => timers w
     end).
  split; [|split; [|split]]; try (now destruct (timedInterval w)).
  assert (G : forall p, In p (timers w) ->
                (match timedInterval w with
                 | Some id => negb (Nat.eqb (fst p) id)
                 | None => true
                 end) = true ->
                isInc (snd p) = false /\ (fst p < next_timer w)%nat).
  { intros p Hp Hk. rewrite List.Forall_forall in Hlt, Hinc.
    split; [|now apply Hlt].
    destruct (isInc (snd p)) eqn:Is; [|reflexivity].
    rewrite (Hinc p Hp Is), Nat.eqb_refl in Hk. discriminate. }
  apply List.Forall_forall. intros p Hp.
  destruct (timedInterval w) as [id|].
  - apply filter_In in Hp. destruct Hp as [Hp Hk]. now apply G.
  - now apply G.
Qed.

Lemma last_cons_default {A : Type} (x d : A) (l : list A) :
  List.last (x :: l) d = List.last l x.
Proof.
  revert x d. induction l as [|y l IH]; intros x d; [reflexivity|].
  change (List.last (x :: y :: l) d) with (List.last (y :: l) d).
  rewrite IH. symmetry. apply IH.
Qed.

Lemma burst_single_pending (e : nat) (o : Opts) (os : list Opts) (w : World)
    (em : EditorModel) :
  editors w !! e = Some em ->
  Forall (fun o' => ignored em o' = false) (o :: os) ->
  coalesced w ->
  single_pending e (List.last os o) (burst e (o :: os) w)
  /\ editors (burst e (o :: os) w) = editors w.
Proof.
  revert o w. induction os as [|o' os IH]; intros o w E F C.
  - apply (handleUpdates_accepted e o w em); [exact E| |exact C]. now inversion F.
  - inversion F as [|? ? Fo F']; subst.
    destruct (handleUpdates_accepted e o w em E Fo C) as [SP Ed].
    change (burst e (o :: o' :: os) w) with (burst e (o' :: os) (handleUpdates e o w)).
    destruct (IH o' (handleUpdates e o w)) as [SP' Ed'].
    + now rewrite Ed.
    + exact F'.
    + eapply single_pending_coalesced. exact SP.
    + split; [|now rewrite Ed'].
      rewrite last_cons_default. exact SP'.
Qed.

(** Firing a timer that is not an increment leaves every counter alone and
    sets no timer. *)
Lemma run_task_other (t : Task) (w : World) (e : nat) :
  isInc t = false ->
  counter e (run_task t w) = counter e w /\ timers (run_task t w) = timers w.
Proof.
  destruct t as [e' o|e'|e']; [discriminate| |]; intros _; simpl.
  - split; [now apply counter_update_editor|].
    now destruct (timers_update_editor e' (trigger Update) w) as (-> & _).
  - assert (P : counter e (postLoad e' w) = counter e w
                /\ timers (postLoad e' w) = timers w).
    { unfold postLoad. split.
      - apply counter_update_editor. intros em. unfold set_readyLoad, _checkReady.
        destruct (Bool.eqb (readyLoad em) true); [reflexivity|]. simpl.
        now destruct (readyCanvas em && negb (ready em)).
      - now destruct (timers_update_editor e' (set_readyLoad true) w) as (-> & _). }
    destruct (editors w !! e') as [em|] eqn:E; [|split; reflexivity].
    destruct (sm em) as [stm|] eqn:S; [|exact P].
    destruct (canAutoload stm); [|exact P].
    unfold load. rewrite E, S. split; reflexivity.
Qed.

Lemma find_filter_other (id id' : nat) (l : list (nat * Task)) :
  id <> id' ->
  List.find (fun p => Nat.eqb (fst p) id)
    (List.filter (fun p => negb (Nat.eqb (fst p) id')) l)
  = List.find (fun p => Nat.eqb (fst p) id) l.
Proof.
  intros Hne. induction l as [|[i t] l IH]; [reflexivity|]. simpl.
  destruct (Nat.eqb_spec i id') as [->|Hi]; simpl.
  - destruct (Nat.eqb_spec id' id) as [Heq|_]; [congruence | exact IH].
  - destruct (Nat.eqb i id); [reflexivity | exact IH].
Qed.

Lemma fire_other (e : nat) (o : Opts) (id id' : nat) (c : Z) (w : World) :
  id' <> id -> awaiting e o id c w -> awaiting e o id c (fire id' w).
Proof.
  intros Hne (Hc & Hf & Ho). unfold fire.
  destruct (List.find (fun p => Nat.eqb (fst p) id') (timers w)) as [[i t]|] eqn:F;
    [|repeat split; assumption].
  apply find_some in F. destruct F as [Hin Hi]. simpl in Hi.
  apply Nat.eqb_eq in Hi. subst i.
  assert (Ht : isInc t = false).
  { rewrite List.Forall_forall in Ho. apply (Ho _ Hin). exact Hne. }
  destruct (run_task_other t (clearTimeout id' w) e Ht) as [Rc Rt].
  unfold awaiting. rewrite Rc, Rt. simpl. repeat split.
  - exact Hc.
  - rewrite find_filter_other by congruence. exact Hf.
  - apply List.Forall_forall. intros p Hp. apply filter_In in Hp.
    rewrite List.Forall_forall in Ho. apply Ho, Hp.
Qed.

Lemma fire_other_counter (e : nat) (o : Opts) (id id' : nat) (c : Z) (w : World) (p : nat) :
  id' <> id -> awaiting e o id c w -> counter p (fire id' w) = counter p w.
Proof.
  intros Hne (_ & _ & Ho). unfold fire.
  destruct (List.find (fun q => Nat.eqb (fst q) id') (timers w)) as [[i t]|] eqn:F;
    [|reflexivity].
  apply find_some in F. destruct F as [Hin Hi]. simpl in Hi.
  apply Nat.eqb_eq in Hi. subst i.
  assert (Ht : isInc t = false).
  { rewrite List.Forall_forall in Ho. apply (Ho _ Hin). exact Hne. }
  now destruct (run_task_other t (clearTimeout id' w) p Ht) as [-> _].
Qed.

Lemma fire_increment (e : nat) (o : Opts) (id : nat) (c : Z) (w : World) :
  awaiting e o id c w ->
  counter e (fire id w) = Some (c + 1)
  /\ forall p, p <> e -> counter p (fire id w) = counter p w.
Proof.
  intros (Hc & Hf & _). unfold fire. rewrite Hf.
  unfold counter in Hc.
  destruct (editors w !! e) as [em|] eqn:E; [|discriminate].
  simpl in Hc. injection Hc as Hc.
  assert (E' : editors (clearTimeout id w) !! e = Some em) by exact E.
  unfold run_task. rewrite E', Hc. split.
  - eapply counter_set_changesCount. exact E'.
  - intros p Hp. now rewrite counter_set_changesCount_ne by congruence.
Qed.

Lemma awaiting_of_single_pending (e id : nat) (o : Opts) (w : World) (em : EditorModel)
    (rest : list (nat * Task)) :
  timers w = rest ++ [(id, IncChanges e o)] ->
  Forall (fun p => isInc (snd p) = false /\ (fst p < id)%nat) rest ->
  editors w !! e = Some em ->
  awaiting e o id (changesCount em) w.
Proof.
  intros T Fr E. unfold awaiting, counter. rewrite E, T.
  split; [reflexivity|]. split.
  - clear -Fr. induction rest as [|[i t] rest IH]; simpl.
    + now rewrite Nat.eqb_refl.
    + inversion Fr as [|? ? [_ Hi] Fr']; subst. simpl in Hi.
      destruct (Nat.eqb_spec i id); [lia|]. now apply IH.
  - apply List.Forall_app. split.
    + eapply List.Forall_impl; [|exact Fr]. simpl. now intros q [H _] _.
    + constructor; [|constructor]. simpl. congruence.
Qed.

Lemma fire_earlier_timers (e id : nat) (o : Opts) (c : Z) (rest : list (nat * Task))
    (w : World) :
  Forall (fun p => isInc (snd p) = false /\ (fst p < id)%nat) rest ->
  awaiting e o id c w ->
  awaiting e o id c (fold_left (fun w' q => fire (fst q) w') rest w)
  /\ forall p, counter p (fold_left (fun w' q => fire (fst q) w') rest w) = counter p w.
Proof.
  revert w. induction rest as [|[i t] rest IH]; intros w Fr A; [now split|].
  inversion Fr as [|? ? [_ Hi] Fr']; subst. simpl in *.
  destruct (IH (fire i w) Fr') as [IA IC].
  - apply fire_other; [lia | exact A].
  - split; [exact IA|]. intros p. rewrite IC.
    eapply fire_other_counter; [|exact A]. lia.
Qed.

(** A turn that starts with one pending increment raises the counter of
    its instance by one and leaves the counters of the others alone. *)
Lemma turn_single_pending (e : nat) (o : Opts) (w : World) (em : EditorModel) :
  single_pending e o w ->
  editors w !! e = Some em ->
  counter e (turn w) = Some (changesCount em + 1)
  /\ forall p, p <> e -> counter p (turn w) = counter p w.
Proof.
  intros (id & rest & T & Fr & _ & _) E.
  pose proof (awaiting_of_single_pending e id o w em rest T Fr E) as A0.
  destruct (fire_earlier_timers e id o _ rest w Fr A0) as [A1 C1].
  destruct (fire_increment e o id _ _ A1) as [I1 I2].
  unfold turn. rewrite T, fold_left_app. simpl. split.
  - exact I1.
  - intros p Hp. rewrite (I2 p Hp). apply C1.
Qed.

(** *** The invariant of the timer queue *)

Lemma coalesced_same (w w' : World) :
  timers w' = timers w -> next_timer w' = next_timer w ->
  timedInterval w' = timedInterval w ->
  coalesced w -> coalesced w'.
Proof. unfold coalesced. now intros -> -> ->. Qed.

Lemma coalesced_update_editor (e : nat) (f : EditorModel -> EditorModel) (w : World) :
  coalesced w -> coalesced (update_editor e f w).
Proof.
  destruct (timers_update_editor e f w) as (T & N & I & _).
  now apply coalesced_same.
Qed.

Lemma coalesced_clearTimeout (id : nat) (w : World) :
  coalesced w -> coalesced (clearTimeout id w).
Proof.
  intros [H1 H2]. split; simpl; apply List.Forall_forall; intros p Hp;
    apply filter_In in Hp; destruct Hp as [Hp _];
    rewrite List.Forall_forall in H1, H2; auto.
Qed.

Lemma coalesced_setTimeout (t : Task) (w : World) :
  isInc t = false -> coalesced w -> coalesced (snd (setTimeout t w)).
Proof.
  intros Ht [H1 H2]. split; simpl; apply List.Forall_app; split.
  - eapply List.Forall_impl; [|exact H1]. simpl. intros. lia.
  - repeat constructor.
  - exact H2.
  - constructor; [|constructor]. simpl. congruence.
Qed.

Lemma coalesced_store (e : nat) (rs rj : option nat) (w : World) :
  coalesced w -> coalesced (store e rs rj w).
Proof.
  unfold store. destruct (editors w !! e) as [em|]; [|auto].
  destruct (sm em); auto.
Qed.

Lemma coalesced_updateChanges (e : nat) (w : World) :
  coalesced w -> coalesced (updateChanges e w).
Proof.
  intros C. unfold updateChanges. destruct (editors w !! e) as [em|]; [|exact C].
  assert (C1 : coalesced (clearHandle (updateItr w) w)).
  { destruct (updateItr w); [now apply coalesced_clearTimeout | exact C]. }
  pose proof (coalesced_setTimeout (TriggerUpdate e) _ eq_refl C1) as C2.
  destruct (setTimeout (TriggerUpdate e) (clearHandle (updateItr w) w)) as [id w2].
  simpl in C2.
  assert (C4 : coalesced
                 (if noticeOnUnload em
                  then with_onbeforeunload (negb (changesCount em =? 0))
                         (with_updateItr (Some id) w2)
                  else with_updateItr (Some id) w2)).
  { now destruct (noticeOnUnload em). }
  destruct (sm em) as [stm|].
  - destruct (isAutosave stm && (getStepsBeforeSave stm <=? changesCount em));
      [now apply coalesced_store | exact C4].
  - now apply coalesced_update_editor.
Qed.

Lemma coalesced_set_changesCount (e : nat) (v : Z) (q : bool) (w : World) :
  coalesced w -> coalesced (set_changesCount e v q w).
Proof.
  intros C. unfold set_changesCount. destruct (editors w !! e) as [em|]; [|exact C].
  destruct (changesCount em =? v); [exact C|].
  pose proof (coalesced_update_editor e (with_changesCount v) w C) as C1.
  destruct q; [exact C1 | now apply coalesced_updateChanges].
Qed.

Lemma coalesced_run_task (t : Task) (w : World) :
  coalesced w -> coalesced (run_task t w).
Proof.
  intros C. destruct t as [e o|e|e]; simpl.
  - destruct (editors w !! e); [now apply coalesced_set_changesCount | exact C].
  - now apply coalesced_update_editor.
  - destruct (editors w !! e) as [em|] eqn:E; [|exact C].
    assert (P : coalesced (postLoad e w)) by now apply coalesced_update_editor.
    destruct (sm em) as [stm|] eqn:S; [|exact P].
    destruct (canAutoload stm); [|exact P].
    unfold load. now rewrite E, S.
Qed.

Lemma coalesced_fire (id : nat) (w : World) : coalesced w -> coalesced (fire id w).
Proof.
  intros C. unfold fire.
  destruct (List.find _ (timers w)) as [[i t]|]; [|exact C].
  now apply coalesced_run_task, coalesced_clearTimeout.
Qed.

Lemma coalesced_turn (w : World) : coalesced w -> coalesced (turn w).
Proof.
  unfold turn. generalize (timers w) as l. intros l. revert w.
  induction l as [|p l IH]; intros w C; [exact C|].
  simpl. now apply IH, coalesced_fire.
Qed.

Lemma coalesced_handleUpdates (e : nat) (o : Opts) (w : World) :
  coalesced w -> coalesced (handleUpdates e o w).
Proof.
  intros C. destruct (editors w !! e) as [em|] eqn:E.
  - destruct (ignored em o) eqn:I.
    + unfold handleUpdates. now rewrite E, I.
    + eapply single_pending_coalesced.
      exact (proj1 (handleUpdates_accepted e o w em E I C)).
  - unfold handleUpdates. now rewrite E.
Qed.

Lemma coalesced_answer (k : nat) (r : Report) (w : World) :
  coalesced w -> coalesced (answer k r w).
Proof.
  intros C. unfold answer. destruct (requests w !! k) as [req|]; [|exact C].
  assert (C1 : coalesced (with_requests (delete k (requests w)) w)) by exact C.
  assert (K : forall cb arg, coalesced (call cb arg (req_em req)
                                          (with_requests (delete k (requests w)) w))).
  { intros [f|] arg; simpl; [now apply coalesced_update_editor | exact C1]. }
  destruct (req_kind req), r.
  - apply coalesced_set_changesCount, K.
  - apply K.
  - now apply coalesced_update_editor.
  - now apply coalesced_update_editor.
Qed.

Lemma coalesced_loadOnStart (deps : list Module) (e : nat) (w : World) :
  coalesced w -> coalesced (loadOnStart deps e w).
Proof.
  intros C. unfold loadOnStart.
  pose proof (coalesced_setTimeout (Startup e) w eq_refl C) as C1.
  destruct (setTimeout (Startup e) w) as [id w1]. simpl in C1.
  simpl. now apply coalesced_update_editor.
Qed.

(** Every world a history leads to keeps the timer queue in order: the
    hypothesis of the coalescing theorem holds wherever the code can get. *)
Lemma history_coalesced (acts : list Action) : coalesced (history acts).
Proof.
  unfold history.
  assert (C0 : coalesced emptyWorld) by (split; constructor).
  revert C0. generalize emptyWorld as w. induction acts as [|a acts IH]; intros w C.
  - exact C.
  - simpl. apply IH. destruct a; simpl.
    + exact C.
    + now apply coalesced_loadOnStart.
    + now apply coalesced_handleUpdates.
    + now apply coalesced_update_editor.
    + now apply coalesced_store.
    + now apply coalesced_answer.
    + now apply coalesced_fire.
    + now apply coalesced_turn.
Qed.

(** ** Handles are never shared *)

Lemma fresh_same (w w' : World) :
  timers w' = timers w -> next_timer w' = next_timer w ->
  fresh_handles w -> fresh_handles w'.
Proof. unfold fresh_handles. now intros -> ->. Qed.

Lemma fresh_update_editor (e : nat) (f : EditorModel -> EditorModel) (w : World) :
  fresh_handles w -> fresh_handles (update_editor e f w).
Proof.
  destruct (timers_update_editor e f w) as (T & N & _).
  now apply fresh_same.
Qed.

Lemma NoDup_map_filter (f : nat * Task -> bool) (l : list (nat * Task)) :
  NoDup (map fst l) -> NoDup (map fst (List.filter f l)).
Proof.
  induction l as [|p l IH]; intros H; [exact H|].
  simpl in H. apply NoDup_cons in H as [Hp H]. simpl.
  destruct (f p); [|now apply IH]. simpl. apply NoDup_cons. split; [|now apply IH].
  intros Hin. apply Hp. apply list_elem_of_In in Hin. apply list_elem_of_In.
  apply in_map_iff in Hin as (q & Eq & Hq). apply filter_In in Hq as [Hq _].
  apply in_map_iff. now exists q.
Qed.

Lemma fresh_clearTimeout (id : nat) (w : World) :
  fresh_handles w -> fresh_handles (clearTimeout id w).
Proof.
  intros [H1 H2]. split; simpl.
  - now apply NoDup_map_filter.
  - apply List.Forall_forall. intros p Hp. apply filter_In in Hp as [Hp _].
    rewrite List.Forall_forall in H2. auto.
Qed.

Lemma fresh_clearHandle (h : option nat) (w : World) :
  fresh_handles w -> fresh_handles (clearHandle h w).
Proof. destruct h; [apply fresh_clearTimeout | auto]. Qed.

Lemma fresh_setTimeout (t : Task) (w : World) :
  fresh_handles w -> fresh_handles (snd (setTimeout t w)).
Proof.
  intros [H1 H2]. split; simpl.
  - rewrite map_app. simpl. apply NoDup_app. split; [exact H1|].
    split; [|apply NoDup_singleton].
    intros x Hx Hn. apply list_elem_of_In in Hx.
    apply list_elem_of_singleton in Hn. subst x.
    apply in_map_iff in Hx as (q & Eq & Hq).
    rewrite List.Forall_forall in H2. specialize (H2 q Hq). lia.
  - apply List.Forall_app. split.
    + eapply List.Forall_impl; [|exact H2]. simpl. intros. lia.
    + repeat constructor.
Qed.

Lemma fresh_store (e : nat) (rs rj : option nat) (w : World) :
  fresh_handles w -> fresh_handles (store e rs rj w).
Proof.
  unfold store. destruct (editors w !! e) as [em|]; [|auto].
  destruct (sm em); auto.
Qed.

Lemma fresh_updateChanges (e : nat) (w : World) :
  fresh_handles w -> fresh_handles (updateChanges e w).
Proof.
  intros C. unfold updateChanges. destruct (editors w !! e) as [em|]; [|exact C].
  pose proof (fresh_setTimeout (TriggerUpdate e) _
                (fresh_clearHandle (updateItr w) w C)) as C2.
  destruct (setTimeout (TriggerUpdate e) (clearHandle (updateItr w) w)) as [id w2].
  simpl in C2.
  assert (C4 : fresh_handles
                 (if noticeOnUnload em
                  then with_onbeforeunload (negb (changesCount em =? 0))
                         (with_updateItr (Some id) w2)
                  else with_updateItr (Some id) w2)).
  { now destruct (noticeOnUnload em). }
  destruct (sm em) as [stm|].
  - destruct (isAutosave stm && (getStepsBeforeSave stm <=? changesCount em));
      [now apply fresh_store | exact C4].
  - now apply fresh_update_editor.
Qed.

Lemma fresh_set_changesCount (e : nat) (v : Z) (q : bool) (w : World) :
  fresh_handles w -> fresh_handles (set_changesCount e v q w).
Proof.
  intros C. unfold set_changesCount. destruct (editors w !! e) as [em|]; [|exact C].
  destruct (changesCount em =? v); [exact C|].
  pose proof (fresh_update_editor e (with_changesCount v) w C) as C1.
  destruct q; [exact C1 | now apply fresh_updateChanges].
Qed.

Lemma fresh_run_task (t : Task) (w : World) :
  fresh_handles w -> fresh_handles (run_task t w).
Proof.
  intros C. destruct t as [e o|e|e]; simpl.
  - destruct (editors w !! e); [now apply fresh_set_changesCount | exact C].
  - now apply fresh_update_editor.
  - destruct (editors w !! e) as [em|] eqn:E; [|exact C].
    assert (P : fresh_handles (postLoad e w)) by now apply fresh_update_editor.
    destruct (sm em) as [stm|] eqn:Hs; [|exact P].
    destruct (canAutoload stm); [|exact P].
    unfold load. now rewrite E, Hs.
Qed.

Lemma fresh_fire (id : nat) (w : World) : fresh_handles w -> fresh_handles (fire id w).
Proof.
  intros C. unfold fire.
  destruct (List.find _ (timers w)) as [[i t]|]; [|exact C].
  now apply fresh_run_task, fresh_clearTimeout.
Qed.

Lemma fresh_turn (w : World) : fresh_handles w -> fresh_handles (turn w).
Proof.
  unfold turn. generalize (timers w) as l. intros l. revert w.
  induction l as [|p l IH]; intros w C; [exact C|].
  simpl. now apply IH, fresh_fire.
Qed.

Lemma fresh_handleUpdates (e : nat) (o : Opts) (w : World) :
  fresh_handles w -> fresh_handles (handleUpdates e o w).
Proof.
  intros C. unfold handleUpdates. destruct (editors w !! e) as [em|]; [|exact C].
  destruct (ignored em o); [exact C|].
  pose proof (fresh_setTimeout (IncChanges e o) _
                (fresh_clearHandle (timedInterval w) w C)) as C2.
  destruct (setTimeout (IncChanges e o) (clearHandle (timedInterval w) w)) as [id w2].
  exact C2.
Qed.

Lemma fresh_answer (k : nat) (r : Report) (w : World) :
  fresh_handles w -> fresh_handles (answer k r w).
Proof.
  intros C. unfold answer. destruct (requests w !! k) as [req|]; [|exact C].
  assert (C1 : fresh_handles (with_requests (delete k (requests w)) w)) by exact C.
  assert (K : forall cb arg, fresh_handles (call cb arg (req_em req)
                                          (with_requests (delete k (requests w)) w))).
  { intros [f|] arg; simpl; [now apply fresh_update_editor | exact C1]. }
  destruct (req_kind req), r.
  - apply fresh_set_changesCount, K.
  - apply K.
  - now apply fresh_update_editor.
  - now apply fresh_update_editor.
Qed.

Lemma fresh_loadOnStart (deps : list Module) (e : nat) (w : World) :
  fresh_handles w -> fresh_handles (loadOnStart deps e w).
Proof.
  intros C. unfold loadOnStart.
  pose proof (fresh_setTimeout (Startup e) w C) as C1.
  destruct (setTimeout (Startup e) w) as [id w1]. simpl in C1.
  simpl. now apply fresh_update_editor.
Qed.

Lemma history_fresh_handles (acts : list Action) : fresh_handles (history acts).
Proof.
  unfold history.
  assert (C0 : fresh_handles emptyWorld) by (split; constructor).
  revert C0. generalize emptyWorld as w. induction acts as [|a acts IH]; intros w C.
  - exact C.
  - simpl. apply IH. destruct a; simpl.
    + exact C.
    + now apply fresh_loadOnStart.
    + now apply fresh_handleUpdates.
    + now apply fresh_update_editor.
    + now apply fresh_store.
    + now apply fresh_answer.
    + now apply fresh_fire.
    + now apply fresh_turn.
Qed.

(** Among timers with distinct handles at most one carries a given handle. *)
Lemma one_per_handle (P : nat * Task -> bool) (h : nat) (l : list (nat * Task)) :
  NoDup (map fst l) ->
  Forall (fun p => P p = true -> fst p = h) l ->
  (length (List.filter P l) <= 1)%nat.
Proof.
  induction l as [|p l IH]; intros N F; [simpl; lia|].
  simpl in N. apply NoDup_cons in N as [Hp N].
  inversion F as [|? ? Fp Fl]; subst. simpl.
  destruct (P p) eqn:Pp; [|now apply IH].
  specialize (Fp eq_refl).
  assert (E : List.filter P l = []).
  { apply filter_none. intros q Hq. destruct (P q) eqn:Pq; [|reflexivity].
    exfalso. apply Hp. apply list_elem_of_In, in_map_iff. exists q.
    rewrite List.Forall_forall in Fl. rewrite (Fl q Hq Pq), Fp. now split. }
  rewrite E. simpl. lia.
Qed.

(** X10. At most one increment is ever pending.  On every page a history
    leads to, no two pending timers share a handle, every handle in use is
    below the next one to be handed out, every pending increment is the
    timer [timedInterval] holds, and so the queue holds at most one
    increment. *)
Theorem history_one_pending_increment (acts : list Action) :
  let w := history acts in
  NoDup (map fst (timers w))
  /\ Forall (fun p => (fst p < next_timer w)%nat) (timers w)
  /\ Forall (fun p => isInc (snd p) = true -> timedInterval w = Some (fst p)) (timers w)
  /\ (length (pendingIncrements w) <= 1)%nat.
Proof.
  intros w.
  destruct (history_fresh_handles acts) as [N B].
  destruct (history_coalesced acts) as [_ C]. fold w in N, B, C.
  split; [exact N|]. split; [exact B|]. split; [exact C|].
  unfold pendingIncrements. destruct (timedInterval w) as [h|] eqn:T.
  - apply (one_per_handle _ h); [exact N|].
    eapply List.Forall_impl; [|exact C]. simpl. intros p Hp Hi.
    specialize (Hp Hi). congruence.
  - rewrite filter_none; [simpl; lia|].
    intros p Hp. rewrite List.Forall_forall in C. specialize (C p Hp).
    destruct (isInc (snd p)); [|reflexivity]. now specialize (C eq_refl).
Qed.

(** C1. On a ready instance with the skip flag down, a burst of
    notifications delivered within one turn, none of them carrying
    [temporary], [noCount] or [avoidStore], leaves exactly one increment
    pending, and when the timers of the turn have fired the counter is
    larger by exactly 1, however many notifications there were. *)
Theorem burst_increments_once (w : World) (e : nat) (em : EditorModel)
    (o : Opts) (os : list Opts) :
  editors w !! e = Some em ->
  coalesced w ->
  ready em = true ->
  skip_flag em = false ->
  Forall (fun o' => temporary o' = false /\ noCount o' = false /\ avoidStore o' = false)
         (o :: os) ->
  single_pending e (List.last os o) (burst e (o :: os) w)
  /\ counter e (turn (burst e (o :: os) w)) = Some (changesCount em + 1).
Proof.
  intros E C R S F.
  assert (F' : Forall (fun o' => ignored em o' = false) (o :: os)).
  { eapply List.Forall_impl; [|exact F]. simpl. intros o' (T & N & A).
    unfold ignored. now rewrite S, T, N, A, R. }
  destruct (burst_single_pending e o os w em E F' C) as [SP Ed].
  split; [exact SP|].
  apply (turn_single_pending e (List.last os o)); [exact SP|]. now rewrite Ed.
Qed.

(** ** Two instances, one debounce handle *)

(** X11. A notification accepted by one instance takes the pending
    increment of another instance out of the queue: only its own increment
    is left, and the turn does not touch the counter of the first
    instance. *)
Lemma notification_cancels_other_instance (w : World) (p s : nat)
    (emp ems : EditorModel) (o1 o2 : Opts) :
  p <> s ->
  coalesced w ->
  editors w !! p = Some emp -> ignored emp o1 = false ->
  editors w !! s = Some ems -> ignored ems o2 = false ->
  let w' := handleUpdates s o2 (handleUpdates p o1 w) in
  single_pending s o2 w'
  /\ counter p (turn w') = Some (changesCount emp)
  /\ counter s (turn w') = Some (changesCount ems + 1).
Proof.
  intros Hne C Ep Ip Es Is w'.
  destruct (handleUpdates_accepted p o1 w emp Ep Ip C) as [SP1 Ed1].
  assert (Es1 : editors (handleUpdates p o1 w) !! s = Some ems) by now rewrite Ed1.
  destruct (handleUpdates_accepted s o2 _ ems Es1 Is
              (single_pending_coalesced _ _ _ SP1)) as [SP2 Ed2].
  fold w' in SP2, Ed2.
  assert (Es2 : editors w' !! s = Some ems) by now rewrite Ed2.
  destruct (turn_single_pending s o2 w' ems SP2 Es2) as [T1 T2].
  split; [exact SP2|]. split; [|exact T1].
  rewrite (T2 p Hne). unfold counter. now rewrite Ed2, Ed1, Ep.
Qed.

(** Were the shallow instance ready.  On the page of [bothReadyWorld]
    instance 1 is the shallow instance of instance 0 and both are ready,
    the readiness of the shallow instance having been set from outside.  A notification on the primary instance alone raises
    its counter to 1 at the end of the turn; when the shallow instance is
    notified in the same turn, the primary's pending increment is cancelled
    through the shared [timedInterval]: the primary's counter stays 0 and
    only the shallow counter goes up. *)
Example shallow_notification_cancels_primary :
  (shallow <$> editors bothReadyWorld !! 0%nat) = Some (Some 1%nat)
  /\ (ready <$> editors bothReadyWorld !! 0%nat) = Some true
  /\ (ready <$> editors bothReadyWorld !! 1%nat) = Some true
  /\ counter 0 (turn (handleUpdates 0 plainOpts bothReadyWorld)) = Some 1
  /\ counter 0 (turn (handleUpdates 1 plainOpts
                        (handleUpdates 0 plainOpts bothReadyWorld))) = Some 0
  /\ counter 1 (turn (handleUpdates 1 plainOpts
                        (handleUpdates 0 plainOpts bothReadyWorld))) = Some 1.
Proof. vm_compute. repeat split. Qed.

Example startedWorld_ready :
  (ready <$> editors startedWorld !! 0%nat) = Some true
  /\ (shallow <$> editors startedWorld !! 0%nat) = Some (Some 1%nat)
  /\ (ready <$> editors startedWorld !! 1%nat) = Some false
  /\ (map name <$> (storables <$> editors startedWorld !! 0%nat))
     = Some ["DomComponents"; "CssComposer"]%string.
Proof. vm_compute. repeat split. Qed.

Lemma coalesced_startedWorld : coalesced startedWorld.
Proof. split; vm_compute; constructor. Defined.

Lemma burst_increments_once_witness :
  ready (instance 0 startedWorld) = true
  /\ skip_flag (instance 0 startedWorld) = false
  /\ changesCount (instance 0 startedWorld) = 0
  /\ counter 0 (turn (burst 0 [plainOpts; plainOpts; plainOpts] startedWorld))
     = Some (changesCount (instance 0 startedWorld) + 1).
Proof.
  split; [vm_compute; reflexivity|]. split; [vm_compute; reflexivity|].
  split; [vm_compute; reflexivity|].
  apply (burst_increments_once startedWorld 0 (instance 0 startedWorld)
           plainOpts [plainOpts; plainOpts]).
  - vm_compute; reflexivity.
  - exact coalesced_startedWorld.
  - vm_compute; reflexivity.
  - vm_compute; reflexivity.
  - repeat constructor.
Defined.

Lemma handleUpdates_ignored_witness :
  ready (instance 1 startedWorld) = false
  /\ handleUpdates 1 plainOpts startedWorld = startedWorld.
Proof.
  split; [vm_compute; reflexivity|].
  refine (proj1 (handleUpdates_ignored startedWorld 1 (instance 1 startedWorld)
                   plainOpts _ _)).
  - vm_compute; reflexivity.
  - right. right. right. right. vm_compute; reflexivity.
Defined.


Lemma store_success_resets_failure_keeps_witness :
  let w := turn (handleUpdates 0 plainOpts startedWorld) in
  let w' := store 0 (Some 7%nat) (Some 8%nat) w in
  changesCount (instance 0 w') = 1
  /\ length (requests w) = 1%nat
  /\ counter 0 (answer 1 (Success "ok") w') = Some 0
  /\ counter 0 (answer 1 (Failure "ko") w') = Some (changesCount (instance 0 w')).
Proof.
  intros w w'.
  split; [vm_compute; reflexivity|]. split; [vm_compute; reflexivity|].
  assert (E : editors w !! 0%nat = Some (instance 0 w)) by (vm_compute; reflexivity).
  assert (S : sm (instance 0 w) = Some (mkStorageManager true 1 false))
    by (vm_compute; reflexivity).
  pose proof (store_success_resets_failure_keeps w 0 (instance 0 w)
                (mkStorageManager true 1 false) (Some 7%nat) (Some 8%nat) E S) as [St An].
  assert (R : requests w' !! 1%nat
              = Some (mkRequest 0 (StoreRequest (storeData (instance 0 w)))
                        (Some 7%nat) (Some 8%nat))) by (vm_compute; reflexivity).
  assert (E' : editors w' !! 0%nat = Some (instance 0 w')) by (vm_compute; reflexivity).
  pose proof (An w' 1%nat (instance 0 w') R E') as [Sc Fl].
  split.
  - exact (proj1 (Sc "ok"%string)).
  - exact (proj1 (proj2 (Fl "ko"%string))).
Defined.


(** ** Selection *)

Lemma with_selected_same (em : EditorModel) : with_selected (selected em) em = em.
Proof. now destruct em. Qed.

Lemma removeComponent_nil (sel : list Component) : removeComponent [] sel = sel.
Proof. unfold removeComponent. apply filter_all. reflexivity. Qed.

Lemma removeSelected_nil (em : EditorModel) : removeSelected [] em = em.
Proof. unfold removeSelected. rewrite removeComponent_nil. apply with_selected_same. Qed.

Lemma In_removeComponent (ms sel : list Component) (x : Component) :
  In x (removeComponent ms sel) <-> In x sel /\ contains ms x = false.
Proof.
  unfold removeComponent. rewrite filter_In.
  destruct (contains ms x); simpl; intuition congruence.
Qed.

(** The walk up the parents finds the first ancestor that carries the flag. *)
Lemma validParent_nearest (flag : Component -> bool) (c : Component) :
  validParent flag c = List.find flag (ancestors c).
Proof.
  revert c. fix IH 1. intros [i s h k [p|]]; simpl.
  - destruct (flag p); [reflexivity | apply IH].
  - reflexivity.
Qed.

Lemma validParent_flag (flag : Component -> bool) (c p : Component) :
  validParent flag c = Some p -> flag p = true /\ In p (ancestors c).
Proof.
  rewrite validParent_nearest. intros H. apply find_some in H. tauto.
Qed.

(** [addSelected] skips what it cannot select. *)
Lemma addSelected_skips (m : option Component) (opts : SelectOpts) (em : EditorModel) :
  match m with Some c => selectable c = false | None => True end ->
  addSelected [m] opts em = em.
Proof.
  destruct m as [c|]; simpl; intros H.
  - now rewrite H.
  - destruct (forceChange opts); rewrite ?removeSelected_nil; apply with_selected_same.
Qed.

Lemma toggleSelected_skips (m : option Component) (opts : SelectOpts) (em : EditorModel) :
  match m with
  | Some c => selectable c = false /\ contains (selected em) c = false
  | None => True
  end ->
  toggleSelected [m] opts em = em.
Proof.
  unfold toggleSelected. simpl. unfold toggleSelected1.
  destruct m as [c|]; simpl.
  - intros [S C]. now rewrite C, S.
  - intros _. destruct (forceChange opts); rewrite ?removeSelected_nil;
      apply with_selected_same.
Qed.

(** The candidate of a single-target call that the validity check sends
    back: the call returns right after the before-notification. *)
Lemma setSelected_returns (doc : nat -> list Component) (c : Component)
    (opts : SelectOpts) (em : EditorModel) :
  checkSelectable c (onSelectBefore em c opts) = Return ->
  setSelected doc (One (Entity c)) opts em
    = Returned (onSelectBefore em c opts, trigger (SelectBefore c) em).
Proof. intros H. unfold setSelected. simpl. now rewrite H. Qed.

Lemma setSelected_goes_on (doc : nat -> list Component) (c : Component)
    (opts : SelectOpts) (em : EditorModel) (model : option Component) :
  checkSelectable c (onSelectBefore em c opts) = GoOn model ->
  setSelected doc (One (Entity c)) opts em
    = commitSelected doc
        (match event opts with Some ev => ctrlKey ev || metaKey ev | None => false end)
        (match event opts with Some ev => shiftKey ev | None => false end)
        (multipleSelection em) false (selected em)
        (onSelectBefore em c opts) (trigger (SelectBefore c) em) model.
Proof.
  intros H. unfold setSelected. simpl. rewrite H.
  destruct (commitSelected _ _ _ _ _ _ _ _ _); reflexivity.
Qed.

Lemma contains_addComponent (p : Component) (sel : list Component) :
  contains (addComponent (Some p) sel) p = true.
Proof.
  unfold addComponent. destruct (contains sel p) eqn:C; [exact C|].
  unfold contains. rewrite existsb_app. simpl. unfold same.
  now rewrite Nat.eqb_refl, orb_true_r.
Qed.

Lemma In_addComponent (x p : Component) (sel : list Component) :
  In x (addComponent (Some p) sel) <-> In x sel \/ (contains sel p = false /\ x = p).
Proof.
  unfold addComponent. destruct (contains sel p).
  - intuition congruence.
  - rewrite in_app_iff. simpl. intuition congruence.
Qed.

Lemma addSelected_selectable (p : Component) (opts : SelectOpts) (em : EditorModel) :
  selectable p = true ->
  selected (addSelected [Some p] opts em)
    = addComponent (Some p)
        (if forceChange opts then removeComponent [p] (selected em) else selected em)
  /\ componentHovered (addSelected [Some p] opts em) = componentHovered em
  /\ events (addSelected [Some p] opts em) = events em ++ [Select p].
Proof.
  intros P. simpl. rewrite P. simpl. now destruct (forceChange opts).
Qed.

(** Selecting one entity alone: it is selected and nothing else is. *)
Lemma commit_plain_selects (doc : nat -> list Component) (ctrl shift mltSel : bool)
    (opts : SelectOpts) (em : EditorModel) (p : Component) :
  ctrl && mltSel = false -> shift && mltSel = false ->
  selectable p = true ->
  exists em',
    commitSelected doc ctrl shift mltSel false (selected em) opts em (Some p)
      = Returned (opts, em')
    /\ contains (selected em') p = true
    /\ (forall x, In x (selected em') -> same x p = true)
    /\ componentHovered em' = componentHovered em.
Proof.
  intros C S P. unfold commitSelected. rewrite C, S. eexists. split; [reflexivity|].
  destruct (addSelected_selectable p opts
              (removeSelected
                 (List.filter (fun s => negb (isModel (Some p) s)) (selected em)) em) P)
    as (-> & -> & _).
  split; [apply contains_addComponent|]. split; [|reflexivity].
  intros x Hx. apply In_addComponent in Hx.
  destruct Hx as [Hx|[_ ->]]; [|apply Nat.eqb_refl].
  assert (Hx' : In x (removeComponent
                        (List.filter (fun s => negb (same s p)) (selected em))
                        (selected em))).
  { destruct (forceChange opts); [|exact Hx].
    apply In_removeComponent in Hx. tauto. }
  apply In_removeComponent in Hx'. destruct Hx' as [Hin Hc].
  destruct (same x p) eqn:Sx; [reflexivity|]. exfalso.
  assert (Ht : contains (List.filter (fun s => negb (same s p)) (selected em)) x = true).
  { apply existsb_exists. exists x. split; [|apply Nat.eqb_refl].
    apply filter_In. split; [exact Hin|]. now rewrite Sx. }
  congruence.
Qed.

(** With no entity to go on with, nothing is added to the Selection Set. *)
Lemma commit_none_adds_nothing (doc : nat -> list Component)
    (ctrl shift mltSel multiple : bool) (sel0 : list Component)
    (opts : SelectOpts) (em : EditorModel) (x : Component) :
  In x (selected (snd (state_of
         (commitSelected doc ctrl shift mltSel multiple sel0 opts em None)))) ->
  In x (selected em).
Proof.
  unfold commitSelected.
  destruct (ctrl && mltSel).
  - rewrite (toggleSelected_skips None noOpts em I). simpl. tauto.
  - destruct (shift && mltSel); [simpl; tauto|].
    rewrite (addSelected_skips None opts _ I).
    destruct multiple; [simpl; tauto|]. simpl. intros H.
    apply In_removeComponent in H. tauto.
Qed.

(** C5 (the code selects an ancestor where the candidate is to be
    dropped).  With [abort] and
    [useValid] both set, selecting an entity selects its nearest selectable
    ancestor, so the Selection Set does change; [setHovered] tests
    [useValid && !abort] and commits nothing on the same options. *)
Lemma abort_with_useValid_selects_ancestor :
  abort abortValidOpts = true
  /\ selected someEditor = []
  /\ selected (snd (state_of
       (setSelected someDoc (One (Entity text)) abortValidOpts someEditor))) = [row].
Proof. vm_compute. repeat split. Qed.

(** What [abort] does.  When [abort] is set once the listeners of
    [component:select:before] have run, the candidate is dropped right
    after that notification if [useValid] is unset: nothing but the
    notification happened.  If [useValid] is set, the nearest selectable
    ancestor, if there is one, goes on in the candidate's place, as for a
    candidate that is not selectable. *)
Lemma abort_drops_unless_useValid (doc : nat -> list Component)
    (ctrl shift mltSel multiple : bool) (sel0 : list Component)
    (opts : SelectOpts) (em : EditorModel) (c : Component) :
  abort (onSelectBefore em c opts) = true ->
  setSelected1 doc ctrl shift mltSel multiple sel0 (opts, em) (Some c)
    = (if useValid (onSelectBefore em c opts)
       then commitSelected doc ctrl shift mltSel multiple sel0
              (onSelectBefore em c opts) (trigger (SelectBefore c) em)
              (List.find selectable (ancestors c))
       else Returned (onSelectBefore em c opts, trigger (SelectBefore c) em))
  /\ (useValid (onSelectBefore em c opts) = false ->
      exists em',
        setSelected doc (One (Entity c)) opts em
          = Returned (onSelectBefore em c opts, em')
        /\ selected em' = selected em
        /\ componentHovered em' = componentHovered em
        /\ events em' = events em ++ [SelectBefore c]).
Proof.
  intros A. split.
  - unfold setSelected1, checkSelectable. rewrite A, orb_true_r.
    rewrite validParent_nearest. now destruct (useValid _).
  - intros U. exists (trigger (SelectBefore c) em). split; [|repeat split].
    apply setSelected_returns. unfold checkSelectable. now rewrite A, orb_true_r, U.
Qed.

Lemma abort_drops_unless_useValid_witness :
  abort (mkSelectOpts None true false false) = true
  /\ exists em',
       setSelected someDoc (One (Entity text)) (mkSelectOpts None true false false)
         someEditor
         = Returned (mkSelectOpts None true false false, em')
       /\ selected em' = selected someEditor.
Proof.
  split; [reflexivity|].
  destruct (proj2 (abort_drops_unless_useValid someDoc false false true false []
                     (mkSelectOpts None true false false) someEditor text eq_refl)
              eq_refl) as (em' & R & Sel & _).
  exists em'. split; [exact R | exact Sel].
Defined.

Lemma removeComponent_all (sel : list Component) : removeComponent sel sel = [].
Proof.
  unfold removeComponent. apply filter_none. intros x Hx.
  assert (C : contains sel x = true).
  { apply existsb_exists. exists x. split; [exact Hx | apply Nat.eqb_refl]. }
  now rewrite C.
Qed.

(** ** Range selection *)

Lemma same_refl (x : Component) : same x x = true.
Proof. apply Nat.eqb_refl. Qed.

Lemma same_false (x y : Component) : cid x <> cid y -> same x y = false.
Proof. intros H. now apply Nat.eqb_neq. Qed.

Lemma selected_addSelected_noOpts (x : Component) (em : EditorModel) :
  selectable x = true ->
  selected (addSelected [Some x] noOpts em) = addComponent (Some x) (selected em).
Proof. intros S. now destruct (addSelected_selectable x noOpts em S) as [-> _]. Qed.

(** The instance of the spec.  Five siblings [a; b; c; d; e] of one
    collection, all selectable, with only [b] selected: selecting [d] with the range modifier, multiple
    selection being enabled, returns with exactly [b], [c] and [d]
    selected: the block from the nearest selected sibling up to the
    candidate, and nothing beyond it. *)
Lemma shift_range_selects_block (doc : nat -> list Component) (k : nat)
    (a b c d e : Component) (opts : SelectOpts) (em : EditorModel) (ev : KeyEvent) :
  doc k = [a; b; c; d; e] ->
  NoDup (map cid [a; b; c; d; e]) ->
  Forall (fun x => selectable x = true /\ collection x = Some k) [a; b; c; d; e] ->
  selected em = [b] ->
  multipleSelection em = true ->
  event opts = Some ev ->
  shiftKey ev = true -> ctrlKey ev = false -> metaKey ev = false ->
  abort (onSelectBefore em d opts) = false ->
  exists em',
    setSelected doc (One (Entity d)) opts em = Returned (onSelectBefore em d opts, em')
    /\ selected em' = [b; c; d].
Proof.
  intros D ND F Sel M Ev Sh Ct Mt Ab.
  simpl in ND.
  apply NoDup_cons in ND as [N1 ND]. apply NoDup_cons in ND as [N2 ND].
  apply NoDup_cons in ND as [N3 ND]. apply NoDup_cons in ND as [N4 _].
  repeat setoid_rewrite not_elem_of_cons in N1.
  repeat setoid_rewrite not_elem_of_cons in N2.
  repeat setoid_rewrite not_elem_of_cons in N3.
  repeat setoid_rewrite not_elem_of_cons in N4.
  destruct N1 as (ab & ac & ad & ae & _), N2 as (bc & bd & be & _),
    N3 as (cd & ce & _), N4 as (de & _).
  repeat match goal with
  | H : Forall _ (_ :: _) |- _ => apply Forall_cons in H as [[? ?] H]
  end.
  assert (Ib : index doc b = 1).
  { unfold index. rewrite H2, D. cbn [indexOf].
    now rewrite (same_false a b ab), same_refl. }
  assert (Id : index doc d = 3).
  { unfold index. rewrite H6, D. cbn [indexOf].
    now rewrite (same_false a d ad), (same_false b d bd), (same_false c d cd), same_refl. }
  unfold setSelected. rewrite Ev, Sh, Ct, Mt, M.
  cbn [isArray toList map forEach setSelected1 getModel orb].
  unfold checkSelectable. rewrite Ab, H5. cbn [negb orb andb].
  unfold commitSelected. cbn [andb].
  unfold selectRange.
  cbn [getSelectedAll allComponents selected trigger]. rewrite Sel.
  unfold nearestSelected. cbn [fold_left nearest]. rewrite Ib, Id, H2, H6.
  cbn [sameColl]. rewrite Nat.eqb_refl.
  change (1 <? 3) with true. cbn iota. cbn [bind].
  change (Z.to_nat (3 - 1)) with 2%nat. cbn [addUpwards].
  change (1 + 1) with 2.
  assert (A1 : at_ doc k 1 = Some b) by (unfold at_; rewrite D; reflexivity).
  assert (A2 : at_ doc k 2 = Some c) by (unfold at_; rewrite D; reflexivity).
  rewrite A1, A2.
  eexists. split; [reflexivity|].
  rewrite !selected_addSelected_noOpts by assumption.
  cbn [selected trigger]. rewrite Sel.
  unfold addComponent, contains. cbn [existsb app].
  rewrite same_refl. cbn [orb existsb app].
  rewrite (same_false c b (not_eq_sym bc)). cbn [orb app existsb].
  rewrite (same_false d b (not_eq_sym bd)), (same_false d c (not_eq_sym cd)).
  reflexivity.
Qed.

Lemma shift_range_selects_block_witness :
  selected (with_selected [block 1] someEditor) = [block 1]
  /\ exists em',
       setSelected someDoc (One (Entity (block 3))) shiftOpts
         (with_selected [block 1] someEditor) = Returned (shiftOpts, em')
       /\ selected em' = [block 1; block 2; block 3].
Proof.
  split; [reflexivity|].
  apply (shift_range_selects_block someDoc 12 (block 0) (block 1) (block 2) (block 3)
           (block 4) shiftOpts (with_selected [block 1] someEditor)
           (mkKeyEvent false false true)); try reflexivity.
  - apply (bool_decide_unpack _). vm_compute. exact I.
  - repeat constructor.
Defined.

(** *** Sibling ranges in general *)

Lemma lookup_In {A : Type} (l : list A) (i : nat) (x : A) : l !! i = Some x -> In x l.
Proof.
  revert i. induction l as [|y l IH]; intros [|i] H; simpl in *; try discriminate.
  - left. congruence.
  - right. eapply IH, H.
Qed.

Lemma In_lookup {A : Type} (l : list A) (x : A) : In x l -> exists i, l !! i = Some x.
Proof.
  induction l as [|y l IH]; intros H; [destruct H|].
  destruct H as [ -> | H].
  - now exists O.
  - destruct (IH H) as [i Hi]. now exists (S i).
Qed.

Lemma contains_same (sel : list Component) (x y : Component) :
  same x y = true -> contains sel x = contains sel y.
Proof.
  intros H. apply Nat.eqb_eq in H. unfold contains, same. now rewrite H.
Qed.

Lemma same_sym (x y : Component) : same x y = same y x.
Proof. apply Nat.eqb_sym. Qed.

Lemma contains_cons (y : Component) (l : list Component) (x : Component) :
  contains (y :: l) x = same x y || contains l x.
Proof. reflexivity. Qed.

Lemma contains_app (l1 l2 : list Component) (x : Component) :
  contains (l1 ++ l2) x = contains l1 x || contains l2 x.
Proof. apply existsb_app. Qed.

(** Membership after an insertion, whatever was there before. *)
Lemma contains_addComponent_eq (m : option Component) (sel : list Component)
    (x : Component) :
  contains (addComponent m sel) x = contains sel x || contains (entities m) x.
Proof.
  destruct m as [y|]; simpl; [|now rewrite orb_false_r].
  rewrite orb_false_r. destruct (contains sel y) eqn:C.
  - destruct (same x y) eqn:S; [|now rewrite orb_false_r].
    rewrite (contains_same sel x y S), C. reflexivity.
  - rewrite contains_app. simpl. now rewrite orb_false_r.
Qed.

Lemma slice_split (l : list Component) (lo a b : nat) (y : Component) :
  l !! (lo + a)%nat = Some y ->
  slice lo (a + S b) l = slice lo a l ++ y :: slice (S (lo + a)) b l.
Proof.
  revert lo. induction a as [|a IH]; intros lo H; unfold slice in *.
  - rewrite Nat.add_0_r in *. simpl. now rewrite (drop_S _ _ _ H).
  - destruct (lookup_lt_is_Some_2 l lo) as [z Z].
    { apply lookup_lt_Some in H. lia. }
    rewrite (drop_S _ _ _ Z). simpl. f_equal.
    replace (lo + S a)%nat with (S lo + a)%nat in * by lia.
    now apply IH.
Qed.

Section Siblings.

Variable doc : nat -> list Component.
Variable k : nat.
Hypothesis distinct : NoDup (map cid (doc k)).
Hypothesis siblings :
  forall x, In x (doc k) -> selectable x = true /\ collection x = Some k.

Lemma indexOf_lookup (l : list Component) (base : Z) (i : nat) (x : Component) :
  NoDup (map cid l) -> l !! i = Some x -> indexOf l x base = base + Z.of_nat i.
Proof.
  revert base i. induction l as [|y l IH]; intros base i ND H; [discriminate|].
  simpl in ND. apply NoDup_cons in ND as [Hy ND].
  destruct i as [|i]; simpl in H.
  - injection H as ->. simpl. rewrite same_refl. lia.
  - simpl. rewrite same_false.
    + rewrite (IH (base + 1) i ND H). lia.
    + intros E. apply Hy. rewrite E. apply list_elem_of_In, in_map.
      eapply lookup_In, H.
Qed.

Lemma index_lookup (i : nat) (x : Component) :
  doc k !! i = Some x -> index doc x = Z.of_nat i.
Proof.
  intros H. unfold index.
  rewrite (proj2 (siblings x (lookup_In _ _ _ H))).
  now rewrite (indexOf_lookup (doc k) 0 i x distinct H).
Qed.

Lemma at_lookup (j : nat) : at_ doc k (Z.of_nat j) = doc k !! j.
Proof.
  unfold at_. destruct (Z.of_nat j <? 0) eqn:N; [apply Z.ltb_lt in N; lia|].
  rewrite N. now rewrite Nat2Z.id.
Qed.

Lemma selected_addSelected_at (j : nat) (em : EditorModel) :
  selected (addSelected [at_ doc k (Z.of_nat j)] noOpts em)
    = addComponent (doc k !! j) (selected em).
Proof.
  rewrite at_lookup. destruct (doc k !! j) as [y|] eqn:Y.
  - apply selected_addSelected_noOpts. apply (siblings y). eapply lookup_In, Y.
  - now rewrite (addSelected_skips None noOpts em I).
Qed.

Lemma contains_addUpwards (n j : nat) (em : EditorModel) (x : Component) :
  contains (selected (addUpwards doc k n (Z.of_nat j) em)) x
    = contains (selected em) x || contains (slice j n (doc k)) x.
Proof.
  revert j em. induction n as [|n IH]; intros j em.
  - unfold slice. simpl. now rewrite orb_false_r.
  - cbn [addUpwards]. replace (Z.of_nat j + 1) with (Z.of_nat (S j)) by lia.
    rewrite IH, selected_addSelected_at, contains_addComponent_eq.
    rewrite <- orb_assoc. f_equal. unfold slice.
    destruct (doc k !! j) as [y|] eqn:Y.
    + rewrite (drop_S _ _ _ Y). unfold contains. simpl. now rewrite orb_false_r.
    + rewrite (drop_ge (doc k) j), (drop_ge (doc k) (S j)).
      * now rewrite take_nil.
      * apply lookup_ge_None in Y. lia.
      * now apply lookup_ge_None.
Qed.

Lemma contains_addDownwards (n j : nat) (em : EditorModel) (x : Component) :
  (n <= S j)%nat -> (n = O \/ j < length (doc k))%nat ->
  contains (selected (addDownwards doc k n (Z.of_nat j) em)) x
    = contains (selected em) x || contains (slice (S j - n) n (doc k)) x.
Proof.
  revert j em. induction n as [|n IH]; intros j em Hn Hj.
  - unfold slice. simpl. now rewrite orb_false_r.
  - cbn [addDownwards].
    destruct Hj as [Hj|Hj]; [discriminate|].
    destruct (lookup_lt_is_Some_2 (doc k) j Hj) as [y Y].
    destruct n as [|n].
    + cbn [addDownwards]. rewrite selected_addSelected_at, Y, contains_addComponent_eq.
      f_equal. unfold slice. replace (S j - 1)%nat with j by lia.
      rewrite (drop_S _ _ _ Y). unfold contains. simpl. reflexivity.
    + replace (Z.of_nat j - 1) with (Z.of_nat (j - 1)) by lia.
      rewrite IH by lia.
      rewrite selected_addSelected_at, Y, contains_addComponent_eq.
      rewrite <- orb_assoc. f_equal.
      replace (S (j - 1) - S n)%nat with (S j - S (S n))%nat by lia.
      unfold slice.
      assert (T : take (S (S n)) (drop (S j - S (S n)) (doc k))
                  = take (S n) (drop (S j - S (S n)) (doc k)) ++ [y]).
      { apply take_S_r. rewrite lookup_drop. rewrite <- Y. f_equal. lia. }
      rewrite T, contains_app. simpl. rewrite orb_false_r. apply orb_comm.
Qed.


Lemma sameColl_Some (a : option nat) :
  sameColl a (Some k) = true <-> a = Some k.
Proof.
  destruct a as [x|]; simpl; [|split; discriminate].
  rewrite Nat.eqb_eq. split; congruence.
Qed.

(** What the search returns: on each side the index of a selected sibling
    of the collection, and the nearest one. *)
Lemma nearestSelected_spec (idx : Z) (sel : list Component) :
  let '(mn, mx) := nearestSelected doc (Some k) idx sel in
  (forall m, mn = Some m ->
     m < idx /\ exists s, In s sel /\ collection s = Some k /\ index doc s = m)
  /\ (forall s, In s sel -> collection s = Some k -> index doc s < idx ->
      exists m, mn = Some m /\ index doc s <= m)
  /\ (forall m, mx = Some m ->
      idx < m /\ exists s, In s sel /\ collection s = Some k /\ index doc s = m)
  /\ (forall s, In s sel -> collection s = Some k -> idx < index doc s ->
      exists m, mx = Some m /\ m <= index doc s).
Proof.
  induction sel as [|s sel IH] using rev_ind.
  - simpl. repeat split; try discriminate; intros ? [].
  - unfold nearestSelected in *. rewrite fold_left_app. simpl.
    destruct (fold_left (nearest doc (Some k) idx) sel (None, None)) as [mn mx].
    destruct IH as (I1 & I2 & I3 & I4).
    assert (In_snoc : forall t, In t (sel ++ [s]) <-> In t sel \/ t = s).
    { intros t. rewrite in_app_iff. simpl. intuition. }
    assert (K1 : forall m, mn = Some m ->
              m < idx /\ exists t, In t (sel ++ [s]) /\ collection t = Some k
                                  /\ index doc t = m).
    { intros m Hm. destruct (I1 m Hm) as (Hlt & t & Ht & Hc & Hi).
      split; [exact Hlt|]. exists t. rewrite In_snoc. auto. }
    assert (K3 : forall m, mx = Some m ->
              idx < m /\ exists t, In t (sel ++ [s]) /\ collection t = Some k
                                  /\ index doc t = m).
    { intros m Hm. destruct (I3 m Hm) as (Hlt & t & Ht & Hc & Hi).
      split; [exact Hlt|]. exists t. rewrite In_snoc. auto. }
    assert (Here : In s (sel ++ [s])) by (rewrite In_snoc; auto).
    unfold nearest.
    destruct (sameColl (collection s) (Some k)) eqn:SC.
    2:{ assert (NC : collection s <> Some k).
        { intros E. apply sameColl_Some in E. congruence. }
        split; [exact K1|]. split; [|split; [exact K3|]].
        - intros t Ht Hc Hlt. apply In_snoc in Ht as [Ht| ->]; [now apply I2 | contradiction].
        - intros t Ht Hc Hgt. apply In_snoc in Ht as [Ht| ->]; [now apply I4 | contradiction]. }
    apply sameColl_Some in SC.
    destruct (Z.ltb_spec (index doc s) idx) as [Lt|Ge].
    + split; [|split; [|split; [exact K3|]]].
      * intros m Hm. injection Hm as <-. destruct mn as [m0|].
        -- destruct (K1 m0 eq_refl) as (Hlt & t & Ht & Hc & Hi).
           split; [lia|].
           destruct (Z.max_spec m0 (index doc s)) as [[_ ->]|[_ ->]]; eauto.
        -- eauto.
      * intros t Ht Hc Hlt. apply In_snoc in Ht as [Ht| ->].
        -- destruct (I2 t Ht Hc Hlt) as (m0 & -> & Hm).
           eexists. split; [reflexivity|]. lia.
        -- destruct mn as [m0|]; eexists; (split; [reflexivity|]); lia.
      * intros t Ht Hc Hgt. apply In_snoc in Ht as [Ht| ->]; [now apply I4 | lia].
    + rewrite Z.gtb_ltb. destruct (Z.ltb_spec idx (index doc s)) as [Gt|Le].
      * split; [exact K1|]. split; [|split].
        -- intros t Ht Hc Hlt. apply In_snoc in Ht as [Ht| ->]; [now apply I2 | lia].
        -- intros m Hm. injection Hm as <-. destruct mx as [m0|].
           ++ destruct (K3 m0 eq_refl) as (Hlt & t & Ht & Hc & Hi).
              split; [lia|].
              destruct (Z.min_spec m0 (index doc s)) as [[_ ->]|[_ ->]]; eauto.
           ++ eauto.
        -- intros t Ht Hc Hgt. apply In_snoc in Ht as [Ht| ->].
           ++ destruct (I4 t Ht Hc Hgt) as (m0 & -> & Hm).
              eexists. split; [reflexivity|]. lia.
           ++ destruct mx as [m0|]; eexists; (split; [reflexivity|]); lia.
      * split; [exact K1|]. split; [|split; [exact K3|]].
        -- intros t Ht Hc Hlt. apply In_snoc in Ht as [Ht| ->]; [now apply I2 | lia].
        -- intros t Ht Hc Hgt. apply In_snoc in Ht as [Ht| ->]; [now apply I4 | lia].
Qed.


(** The range branch on a well-formed collection: it returns, and the
    Selection Set grows by exactly the block of siblings from [lo] to [hi],
    where [lo] is the position of the nearest selected sibling before the
    candidate (the candidate's own position [i] if there is none) and [hi]
    that of the nearest selected sibling after it. *)
Lemma selectRange_block (i : nat) (model : Component) (em : EditorModel) :
  doc k !! i = Some model ->
  (forall s, In s (selected em) -> collection s = Some k -> In s (doc k)) ->
  exists em' lo hi,
    selectRange doc model em = Returned em'
    /\ (lo <= i <= hi)%nat /\ (hi < length (doc k))%nat
    /\ (forall x, contains (selected em') x
                  = contains (selected em) x
                    || contains (slice lo (S (hi - lo)) (doc k)) x)
    /\ (lo < i -> exists s, In s (selected em) /\ doc k !! lo = Some s)%nat
    /\ (i < hi -> exists s, In s (selected em) /\ doc k !! hi = Some s)%nat
    /\ (forall j s, doc k !! j = Some s -> In s (selected em) ->
          (j < i -> j <= lo < i)%nat /\ (i < j -> i < hi <= j)%nat).
Proof.
  intros Hi Hsel.
  pose proof (lookup_lt_Some _ _ _ Hi) as Hlen.
  pose proof (siblings model (lookup_In _ _ _ Hi)) as [Sm Cm].
  pose proof (index_lookup i model Hi) as Im.
  pose proof (nearestSelected_spec (Z.of_nat i) (selected em)) as Spec.
  unfold selectRange. rewrite Cm, Im.
  change (getSelectedAll (trigger ClearTextSelection em)) with (selected em).
  destruct (nearestSelected doc (Some k) (Z.of_nat i) (selected em)) as [mn mx].
  destruct Spec as (I1 & I2 & I3 & I4).
  assert (Pos : forall s, In s (selected em) -> collection s = Some k ->
                  exists j, doc k !! j = Some s /\ index doc s = Z.of_nat j).
  { intros s Hs Hc. destruct (In_lookup _ _ (Hsel s Hs Hc)) as [j Hj].
    exists j. split; [exact Hj | now apply index_lookup]. }
  (* the lower end *)
  assert (Lo : exists lo,
            (lo <= i)%nat
            /\ mn = (if (lo <? i)%nat then Some (Z.of_nat lo) else None)
            /\ (lo < i -> exists s, In s (selected em) /\ doc k !! lo = Some s)%nat).
  { destruct mn as [m|].
    - destruct (I1 m eq_refl) as (Hlt & s & Hs & Hc & Hm).
      destruct (Pos s Hs Hc) as (j & Hj & Hij).
      exists j. assert (j < i)%nat by lia.
      split; [lia|]. split; [|eauto].
      destruct (Nat.ltb_spec j i); [|lia]. f_equal. lia.
    - exists i. split; [lia|]. rewrite Nat.ltb_irrefl. split; [reflexivity|lia]. }
  assert (Hi' : exists hi,
            (i <= hi)%nat /\ (hi < length (doc k))%nat
            /\ mx = (if (i <? hi)%nat then Some (Z.of_nat hi) else None)
            /\ (i < hi -> exists s, In s (selected em) /\ doc k !! hi = Some s)%nat).
  { destruct mx as [m|].
    - destruct (I3 m eq_refl) as (Hlt & s & Hs & Hc & Hm).
      destruct (Pos s Hs Hc) as (j & Hj & Hij).
      exists j. assert (i < j)%nat by lia.
      split; [lia|]. split; [eapply lookup_lt_Some, Hj|]. split; [|eauto].
      destruct (Nat.ltb_spec i j); [|lia]. f_equal. lia.
    - exists i. split; [lia|]. split; [exact Hlen|].
      rewrite Nat.ltb_irrefl. split; [reflexivity|lia]. }
  destruct Lo as (lo & Hlo & Emn & Wlo). destruct Hi' as (hi & Hhi & Hhl & Emx & Whi).
  set (em0 := trigger ClearTextSelection em).
  set (em1 := addUpwards doc k (i - lo) (Z.of_nat lo) em0).
  set (em2 := addDownwards doc k (hi - i) (Z.of_nat hi) em1).
  exists (addSelected [Some model] noOpts em2), lo, hi.
  split; [|split; [lia|split; [exact Hhl|split; [|split; [exact Wlo|split; [exact Whi|]]]]]].
  - assert (Up : match mn with
                 | Some mn0 =>
                     Returned (addUpwards doc k (Z.to_nat (Z.of_nat i - mn0)) mn0 em0)
                 | None => Returned em0
                 end = Returned em1).
    { rewrite Emn. unfold em1. destruct (Nat.ltb_spec lo i).
      - do 2 f_equal. lia.
      - replace (i - lo)%nat with O by lia. reflexivity. }
    rewrite Up. cbn [bind].
    assert (Down : match mx with
                   | Some mx0 =>
                       Returned (addDownwards doc k (Z.to_nat (mx0 - Z.of_nat i)) mx0 em1)
                   | None => Returned em1
                   end = Returned em2).
    { rewrite Emx. unfold em2. destruct (Nat.ltb_spec i hi).
      - do 2 f_equal. lia.
      - replace (hi - i)%nat with O by lia. reflexivity. }
    rewrite Down. reflexivity.
  - intros x. rewrite (selected_addSelected_noOpts model em2 Sm).
    rewrite contains_addComponent_eq. unfold em2.
    rewrite contains_addDownwards by lia. unfold em1.
    rewrite contains_addUpwards.
    change (selected em0) with (selected em).
    replace (S (hi - lo)) with ((i - lo) + S (hi - i))%nat by lia.
    rewrite (slice_split (doc k) lo (i - lo) (hi - i) model)
      by (replace (lo + (i - lo))%nat with i by lia; exact Hi).
    replace (S (lo + (i - lo))) with (S i) by lia.
    replace (S hi - (hi - i))%nat with (S i) by lia.
    rewrite contains_app, contains_cons. cbn [entities].
    rewrite (contains_cons model [] x).
    destruct (contains (selected em) x), (contains (slice lo (i - lo) (doc k)) x),
      (contains (slice (S i) (hi - i) (doc k)) x), (same x model); reflexivity.
  - intros j s Hj Hs.
    pose proof (siblings s (lookup_In _ _ _ Hj)) as [_ Cs].
    pose proof (index_lookup j s Hj) as Is.
    split; intros Hlt.
    + destruct (I2 s Hs Cs) as (m & Hm & Hle); [lia|].
      rewrite Emn in Hm. destruct (Nat.ltb_spec lo i); [|discriminate].
      injection Hm as <-. lia.
    + destruct (I4 s Hs Cs) as (m & Hm & Hle); [lia|].
      rewrite Emx in Hm. destruct (Nat.ltb_spec i hi); [|discriminate].
      injection Hm as <-. lia.
Qed.

(** X20. Range selection in general.  In a collection of distinct
    selectable siblings, [setSelected] with the range modifier on a
    candidate that no listener aborts adds one block of consecutive
    siblings around the candidate, from position [lo] to position [hi]:
    when a sibling before the candidate is selected, [lo] is the position
    of the nearest such sibling, and the candidate's own position when
    none is; the same holds of [hi] for the siblings after the candidate.
    What was selected stays selected. *)
Lemma setSelected_range_block (i : nat) (d : Component) (opts : SelectOpts)
    (em : EditorModel) (ev : KeyEvent) :
  doc k !! i = Some d ->
  (forall s, In s (selected em) -> collection s = Some k -> In s (doc k)) ->
  multipleSelection em = true ->
  event opts = Some ev ->
  shiftKey ev = true -> ctrlKey ev = false -> metaKey ev = false ->
  abort (onSelectBefore em d opts) = false ->
  exists em' lo hi,
    setSelected doc (One (Entity d)) opts em = Returned (onSelectBefore em d opts, em')
    /\ (lo <= i <= hi)%nat /\ (hi < length (doc k))%nat
    /\ (forall x, contains (selected em') x
                  = contains (selected em) x
                    || contains (slice lo (S (hi - lo)) (doc k)) x)
    /\ (lo < i -> exists s, In s (selected em) /\ doc k !! lo = Some s)%nat
    /\ (i < hi -> exists s, In s (selected em) /\ doc k !! hi = Some s)%nat
    /\ (forall j s, doc k !! j = Some s -> In s (selected em) ->
          (j < i -> j <= lo < i)%nat /\ (i < j -> i < hi <= j)%nat).
Proof.
  intros Hi Hsel M Ev Sh Ct Mt Ab.
  pose proof (siblings d (lookup_In _ _ _ Hi)) as [Sd _].
  destruct (selectRange_block i d (trigger (SelectBefore d) em) Hi Hsel)
    as (em' & lo & hi & R & H).
  exists em', lo, hi. split; [|exact H].
  rewrite (setSelected_goes_on doc d opts em (Some d)).
  - rewrite Ev, Sh, Ct, Mt, M. unfold commitSelected. cbn [orb andb]. now rewrite R.
  - unfold checkSelectable. now rewrite Sd, Ab.
Qed.

End Siblings.

(** ** Range selection, in general *)

Lemma find_seq_first (f : nat -> bool) (a len : nat) :
  match List.find f (seq a len) with
  | Some j => (a <= j < a + len)%nat /\ f j = true
              /\ forall j', (a <= j' < j)%nat -> f j' = false
  | None => forall j', (a <= j' < a + len)%nat -> f j' = false
  end.
Proof.
  revert a. induction len as [|len IH]; intros a; simpl; [intros; lia|].
  destruct (f a) eqn:Fa.
  - split; [lia|]. split; [exact Fa|]. intros; lia.
  - specialize (IH (S a)). destruct (List.find f (seq (S a) len)) as [j|].
    + destruct IH as (B & Fj & N). split; [lia|]. split; [exact Fj|].
      intros j' Hj'. destruct (Nat.eq_dec j' a) as [ -> | Hne]; [exact Fa|].
      apply N. lia.
    + intros j' Hj'. destruct (Nat.eq_dec j' a) as [ -> | Hne]; [exact Fa|].
      apply IH. lia.
Qed.

Lemma find_seq_last (f : nat -> bool) (n : nat) :
  match List.find f (rev (seq 0 n)) with
  | Some j => (j < n)%nat /\ f j = true
              /\ forall j', (j < j' < n)%nat -> f j' = false
  | None => forall j', (j' < n)%nat -> f j' = false
  end.
Proof.
  induction n as [|n IH]; [simpl; intros; lia|].
  rewrite seq_S, rev_app_distr. simpl.
  destruct (f n) eqn:Fn.
  - split; [lia|]. split; [exact Fn|]. intros; lia.
  - destruct (List.find f (rev (seq 0 n))) as [j|].
    + destruct IH as (B & Fj & N). split; [lia|]. split; [exact Fj|].
      intros j' Hj'. destruct (Nat.eq_dec j' n) as [ -> | Hne]; [exact Fn|].
      apply N. lia.
    + intros j' Hj'. destruct (Nat.eq_dec j' n) as [ -> | Hne]; [exact Fn|].
      apply IH. lia.
Qed.

Lemma lookup_cid_inj (l : list Component) (i j : nat) (x y : Component) :
  NoDup (map cid l) -> l !! i = Some x -> l !! j = Some y -> cid x = cid y -> i = j.
Proof.
  intros N Hi Hj E.
  pose proof (indexOf_lookup l 0 i x N Hi) as Ix.
  pose proof (indexOf_lookup l 0 j y N Hj) as Iy.
  assert (S : forall l' b, indexOf l' x b = indexOf l' y b).
  { induction l' as [|z l' IH]; intros b; [reflexivity|].
    simpl. unfold same. rewrite E. destruct (cid z =? cid y)%nat; [reflexivity|apply IH]. }
  rewrite S in Ix. lia.
Qed.

Section Block.

Variable doc : nat -> list Component.
Variable k : nat.
Hypothesis distinct : NoDup (map cid (doc k)).
Hypothesis inColl : forall x, In x (doc k) -> collection x = Some k.

Lemma index_at (i : nat) (x : Component) :
  doc k !! i = Some x -> index doc x = Z.of_nat i.
Proof.
  intros H. unfold index. rewrite (inColl x (lookup_In _ _ _ H)).
  now rewrite (indexOf_lookup (doc k) 0 i x distinct H).
Qed.

Lemma selected_addSelected_sibling (j : nat) (em : EditorModel) :
  selected (addSelected [at_ doc k (Z.of_nat j)] noOpts em)
    = match doc k !! j with
      | Some y => if selectable y then addComponent (Some y) (selected em)
                  else selected em
      | None => selected em
      end.
Proof.
  rewrite at_lookup. destruct (doc k !! j) as [y|] eqn:Y.
  - destruct (selectable y) eqn:Sy.
    + now apply selected_addSelected_noOpts.
    + now rewrite (addSelected_skips (Some y) noOpts em Sy).
  - now rewrite (addSelected_skips None noOpts em I).
Qed.

Lemma contains_added_sibling (j : nat) (em : EditorModel) (x : Component) :
  contains (selected (addSelected [at_ doc k (Z.of_nat j)] noOpts em)) x
    = contains (selected em) x
      || contains (List.filter selectable (slice j 1 (doc k))) x.
Proof.
  rewrite selected_addSelected_sibling. unfold slice.
  destruct (doc k !! j) as [y|] eqn:Y.
  - rewrite (drop_S _ _ _ Y). cbn [take List.filter].
    destruct (selectable y).
    + rewrite contains_addComponent_eq. reflexivity.
    + now rewrite orb_false_r.
  - rewrite (drop_ge (doc k) j) by now apply lookup_ge_None.
    now rewrite orb_false_r.
Qed.

Lemma slice_cons (j n : nat) :
  slice j (S n) (doc k) = slice j 1 (doc k) ++ slice (S j) n (doc k).
Proof.
  unfold slice. destruct (doc k !! j) as [y|] eqn:Y.
  - now rewrite (drop_S _ _ _ Y).
  - apply lookup_ge_None in Y.
    rewrite (drop_ge (doc k) j), (drop_ge (doc k) (S j)) by lia.
    now rewrite !take_nil.
Qed.

Lemma slice_snoc (j n : nat) :
  slice j (S n) (doc k) = slice j n (doc k) ++ slice (j + n) 1 (doc k).
Proof.
  unfold slice. rewrite <- drop_drop.
  generalize (drop j (doc k)) as l. clear. intros l. revert l.
  induction n as [|n IH]; intros l; [reflexivity|].
  destruct l as [|y l]; [reflexivity|].
  cbn [take drop app]. f_equal. apply IH.
Qed.

Lemma contains_addUpwards_selectable (n j : nat) (em : EditorModel) (x : Component) :
  contains (selected (addUpwards doc k n (Z.of_nat j) em)) x
    = contains (selected em) x
      || contains (List.filter selectable (slice j n (doc k))) x.
Proof.
  revert j em. induction n as [|n IH]; intros j em.
  - unfold slice. simpl. now rewrite orb_false_r.
  - cbn [addUpwards]. replace (Z.of_nat j + 1) with (Z.of_nat (S j)) by lia.
    rewrite IH, contains_added_sibling.
    rewrite (slice_cons j n), List.filter_app, contains_app.
    now rewrite orb_assoc.
Qed.

Lemma contains_addDownwards_selectable (n j : nat) (em : EditorModel) (x : Component) :
  (n <= S j)%nat ->
  contains (selected (addDownwards doc k n (Z.of_nat j) em)) x
    = contains (selected em) x
      || contains (List.filter selectable (slice (S j - n) n (doc k))) x.
Proof.
  revert j em. induction n as [|n IH]; intros j em Hn.
  - unfold slice. simpl. now rewrite orb_false_r.
  - cbn [addDownwards].
    destruct n as [|n].
    + cbn [addDownwards]. rewrite contains_added_sibling.
      now replace (S j - 1)%nat with j by lia.
    + replace (Z.of_nat j - 1) with (Z.of_nat (j - 1)) by lia.
      rewrite IH by lia. rewrite contains_added_sibling.
      replace (S (j - 1) - S n)%nat with (S j - S (S n))%nat by lia.
      rewrite (slice_snoc (S j - S (S n)) (S n)).
      replace (S j - S (S n) + S n)%nat with j by lia.
      rewrite List.filter_app, contains_app.
      destruct (contains (selected em) x),
        (contains (List.filter selectable (slice j 1 (doc k))) x),
        (contains (List.filter selectable (slice (S j - S (S n)) (S n) (doc k))) x);
        reflexivity.
Qed.

(** A selected sibling at a position, in the two ways of saying it. *)
Lemma selectedAt_iff (sel : list Component) (j : nat) :
  (forall s, In s sel -> collection s = Some k -> In s (doc k)) ->
  selectedAt k sel (doc k) j = true
  <-> exists s, In s sel /\ collection s = Some k /\ doc k !! j = Some s.
Proof.
  intros Hsel. unfold selectedAt, selectedSibling. split.
  - destruct (doc k !! j) as [x|] eqn:X; [|discriminate].
    intros H. apply existsb_exists in H as (s & Hs & H).
    apply andb_true_iff in H as [Sx Sc]. apply sameColl_Some in Sc.
    exists s. split; [exact Hs|]. split; [exact Sc|].
    destruct (In_lookup _ _ (Hsel s Hs Sc)) as [j' Hj'].
    apply Nat.eqb_eq in Sx.
    pose proof (lookup_cid_inj (doc k) j' j s x distinct Hj' X Sx) as ->.
    now rewrite <- X.
  - intros (s & Hs & Sc & Hj). rewrite Hj. apply existsb_exists.
    exists s. split; [exact Hs|]. rewrite same_refl. simpl. now apply sameColl_Some.
Qed.

(** The range branch on a collection of distinct siblings: it returns, and
    the Selection Set grows by the selectable siblings of the block. *)
Lemma selectRange_selectable_block (i : nat) (model : Component) (em : EditorModel) :
  doc k !! i = Some model ->
  selectable model = true ->
  (forall s, In s (selected em) -> collection s = Some k -> In s (doc k)) ->
  exists em',
    selectRange doc model em = Returned em'
    /\ forall x, contains (selected em') x
                 = contains (selected em) x
                   || contains (rangeBlock k (selected em) (doc k) i) x.
Proof.
  intros Hi Sm Hsel.
  pose proof (lookup_lt_Some _ _ _ Hi) as Hlen.
  pose proof (inColl model (lookup_In _ _ _ Hi)) as Cm.
  pose proof (index_at i model Hi) as Im.
  pose proof (nearestSelected_spec doc k (Z.of_nat i) (selected em)) as Spec.
  unfold selectRange. rewrite Cm, Im.
  change (getSelectedAll (trigger ClearTextSelection em)) with (selected em).
  destruct (nearestSelected doc (Some k) (Z.of_nat i) (selected em)) as [mn mx].
  destruct Spec as (I1 & I2 & I3 & I4).
  assert (Pos : forall s, In s (selected em) -> collection s = Some k ->
                  exists j, doc k !! j = Some s /\ index doc s = Z.of_nat j).
  { intros s Hs Hc. destruct (In_lookup _ _ (Hsel s Hs Hc)) as [j Hj].
    exists j. split; [exact Hj | now apply index_at]. }
  assert (At : forall j, selectedAt k (selected em) (doc k) j = true ->
                 exists s, In s (selected em) /\ collection s = Some k
                           /\ index doc s = Z.of_nat j).
  { intros j H. apply (selectedAt_iff _ _ Hsel) in H as (s & Hs & Sc & Hj).
    exists s. split; [exact Hs|]. split; [exact Sc|]. now apply index_at. }
  assert (Ta : forall s j, In s (selected em) -> collection s = Some k ->
                 doc k !! j = Some s -> selectedAt k (selected em) (doc k) j = true).
  { intros s j Hs Sc Hj. apply (selectedAt_iff _ _ Hsel). eauto. }
  (* the lower end *)
  set (lo := nearestBefore k (selected em) (doc k) i).
  assert (Lo : (lo <= i)%nat
               /\ mn = (if (lo <? i)%nat then Some (Z.of_nat lo) else None)).
  { unfold lo, nearestBefore.
    pose proof (find_seq_last (selectedAt k (selected em) (doc k)) i) as F.
    destruct (List.find _ (rev (seq 0 i))) as [j|]; simpl.
    - destruct F as (B & Fj & N). split; [lia|].
      destruct (Nat.ltb_spec j i); [|lia].
      destruct (At j Fj) as (s & Hs & Sc & Is).
      destruct (I2 s Hs Sc) as (m & -> & Hm); [lia|]. f_equal.
      destruct (I1 m eq_refl) as (Hlt & t & Ht & Tc & It).
      destruct (Pos t Ht Tc) as (j' & Hj' & Ij').
      destruct (Nat.le_gt_cases j' j) as [Le|Gt]; [lia|].
      assert (T : selectedAt k (selected em) (doc k) j' = true) by eauto.
      rewrite (N j') in T by lia. discriminate.
    - split; [lia|]. rewrite Nat.ltb_irrefl.
      destruct mn as [m|]; [|reflexivity]. exfalso.
      destruct (I1 m eq_refl) as (Hlt & t & Ht & Tc & It).
      destruct (Pos t Ht Tc) as (j' & Hj' & Ij').
      assert (T : selectedAt k (selected em) (doc k) j' = true) by eauto.
      rewrite (F j') in T by lia. discriminate. }
  set (hi := nearestAfter k (selected em) (doc k) i).
  assert (Hi' : (i <= hi)%nat /\ (hi < length (doc k))%nat
                /\ mx = (if (i <? hi)%nat then Some (Z.of_nat hi) else None)).
  { unfold hi, nearestAfter.
    pose proof (find_seq_first (selectedAt k (selected em) (doc k)) (S i)
                  (length (doc k) - S i)) as F.
    destruct (List.find _ (seq (S i) _)) as [j|]; simpl.
    - destruct F as (B & Fj & N). split; [lia|]. split; [lia|].
      destruct (Nat.ltb_spec i j); [|lia].
      destruct (At j Fj) as (s & Hs & Sc & Is).
      destruct (I4 s Hs Sc) as (m & -> & Hm); [lia|]. f_equal.
      destruct (I3 m eq_refl) as (Hlt & t & Ht & Tc & It).
      destruct (Pos t Ht Tc) as (j' & Hj' & Ij').
      destruct (Nat.le_gt_cases j j') as [Le|Gt]; [lia|].
      assert (T : selectedAt k (selected em) (doc k) j' = true) by eauto.
      rewrite (N j') in T by lia. discriminate.
    - split; [lia|]. split; [exact Hlen|]. rewrite Nat.ltb_irrefl.
      destruct mx as [m|]; [|reflexivity]. exfalso.
      destruct (I3 m eq_refl) as (Hlt & t & Ht & Tc & It).
      destruct (Pos t Ht Tc) as (j' & Hj' & Ij').
      pose proof (lookup_lt_Some _ _ _ Hj') as Lj.
      assert (T : selectedAt k (selected em) (doc k) j' = true) by eauto.
      rewrite (F j') in T by lia. discriminate. }
  destruct Lo as (Hlo & Emn). destruct Hi' as (Hhi & Hhl & Emx).
  set (em0 := trigger ClearTextSelection em).
  set (em1 := addUpwards doc k (i - lo) (Z.of_nat lo) em0).
  set (em2 := addDownwards doc k (hi - i) (Z.of_nat hi) em1).
  exists (addSelected [Some model] noOpts em2).
  split.
  - assert (Up : match mn with
                 | Some mn0 =>
                     Returned (addUpwards doc k (Z.to_nat (Z.of_nat i - mn0)) mn0 em0)
                 | None => Returned em0
                 end = Returned em1).
    { rewrite Emn. unfold em1. destruct (Nat.ltb_spec lo i).
      - do 2 f_equal. lia.
      - replace (i - lo)%nat with O by lia. reflexivity. }
    rewrite Up. cbn [bind].
    assert (Down : match mx with
                   | Some mx0 =>
                       Returned (addDownwards doc k (Z.to_nat (mx0 - Z.of_nat i)) mx0 em1)
                   | None => Returned em1
                   end = Returned em2).
    { rewrite Emx. unfold em2. destruct (Nat.ltb_spec i hi).
      - do 2 f_equal. lia.
      - replace (hi - i)%nat with O by lia. reflexivity. }
    rewrite Down. reflexivity.
  - intros x. rewrite (selected_addSelected_noOpts model em2 Sm).
    rewrite contains_addComponent_eq. unfold em2.
    rewrite contains_addDownwards_selectable by lia. unfold em1.
    rewrite contains_addUpwards_selectable.
    change (selected em0) with (selected em).
    unfold rangeBlock. fold lo hi. cbv zeta.
    replace (S (hi - lo)) with ((i - lo) + S (hi - i))%nat by lia.
    rewrite (slice_split (doc k) lo (i - lo) (hi - i) model)
      by (replace (lo + (i - lo))%nat with i by lia; exact Hi).
    replace (S (lo + (i - lo))) with (S i) by lia.
    replace (S hi - (hi - i))%nat with (S i) by lia.
    rewrite List.filter_app. cbn [List.filter]. rewrite Sm.
    rewrite contains_app, contains_cons. cbn [entities].
    rewrite (contains_cons model [] x).
    destruct (contains (selected em) x),
      (contains (List.filter selectable (slice lo (i - lo) (doc k))) x),
      (contains (List.filter selectable (slice (S i) (hi - i) (doc k))) x),
      (same x model); reflexivity.
Qed.

End Block.

(** C3, as stated, fails.  Five siblings of one collection with only the
    second selected, multiple selection enabled, the fourth selected with
    the range modifier: when the third sibling is locked the call returns
    with the second and the fourth selected and the third left out; when
    the control key is down as well the fourth is toggled in and the
    third, selectable though it is, is left out too; when [abort] is set
    nothing is added; and a locked candidate is not added either. *)
Lemma shift_range_leaves_sibling_out :
  multipleSelection someEditor = true
  /\ lockedDoc 13 = [brick 0; brick 1; brick 2; brick 3; brick 4]
  /\ selectable (brick 2) = false
  /\ raised (setSelected lockedDoc (One (Entity (brick 3))) shiftOpts
               (with_selected [brick 1] someEditor)) = false
  /\ selected (snd (state_of
       (setSelected lockedDoc (One (Entity (brick 3))) shiftOpts
          (with_selected [brick 1] someEditor)))) = [brick 1; brick 3]
  /\ selected (snd (state_of
       (setSelected lockedDoc (One (Entity (brick 2))) shiftOpts
          (with_selected [brick 1] someEditor)))) = [brick 1]
  /\ someDoc 12 = [block 0; block 1; block 2; block 3; block 4]
  /\ selected (snd (state_of
       (setSelected someDoc (One (Entity (block 3))) ctrlShiftOpts
          (with_selected [block 1] someEditor)))) = [block 1; block 3]
  /\ selected (snd (state_of
       (setSelected someDoc (One (Entity (block 3))) shiftAbortOpts
          (with_selected [block 1] someEditor)))) = [block 1].
Proof. vm_compute. repeat split. Qed.

(** C3, amended.  In a collection of distinct siblings, with multiple
    selection enabled, the range modifier active and the control and
    command keys up, on a selectable candidate that no listener aborts:
    [setSelected] returns, and the Selection Set grows by exactly the
    selectable siblings of one block, which reaches from the nearest
    selected sibling before the candidate to the nearest selected sibling
    after it, inclusive, and on a side where no sibling is selected ends
    with the candidate.  What was selected stays selected. *)
Theorem shift_range_selects_selectable_block (doc : nat -> list Component) (k i : nat)
    (d : Component) (opts : SelectOpts) (em : EditorModel) (ev : KeyEvent) :
  NoDup (map cid (doc k)) ->
  (forall x, In x (doc k) -> collection x = Some k) ->
  doc k !! i = Some d ->
  selectable d = true ->
  (forall s, In s (selected em) -> collection s = Some k -> In s (doc k)) ->
  multipleSelection em = true ->
  event opts = Some ev ->
  shiftKey ev = true -> ctrlKey ev = false -> metaKey ev = false ->
  abort (onSelectBefore em d opts) = false ->
  exists em',
    setSelected doc (One (Entity d)) opts em = Returned (onSelectBefore em d opts, em')
    /\ forall x, contains (selected em') x
                 = contains (selected em) x
                   || contains (rangeBlock k (selected em) (doc k) i) x.
Proof.
  intros ND IC Hi Sd Hsel M Ev Sh Ct Mt Ab.
  destruct (selectRange_selectable_block doc k ND IC i d (trigger (SelectBefore d) em)
              Hi Sd Hsel) as (em' & R & H).
  exists em'. split; [|exact H].
  rewrite (setSelected_goes_on doc d opts em (Some d)).
  - rewrite Ev, Sh, Ct, Mt, M. unfold commitSelected. cbn [orb andb]. now rewrite R.
  - unfold checkSelectable. now rewrite Sd, Ab.
Qed.

Lemma shift_range_selects_selectable_block_witness :
  someDoc 12 !! 3%nat = Some (block 3)
  /\ selected (with_selected [block 1] someEditor) = [block 1]
  /\ exists em',
       setSelected someDoc (One (Entity (block 3))) shiftOpts
           (with_selected [block 1] someEditor)
         = Returned (shiftOpts, em')
       /\ forall x, contains (selected em') x
                    = contains [block 1] x
                      || contains [block 1; block 2; block 3] x.
Proof.
  split; [reflexivity|]. split; [reflexivity|].
  refine (shift_range_selects_selectable_block someDoc 12 3 (block 3) shiftOpts
            (with_selected [block 1] someEditor) (mkKeyEvent false false true)
            _ _ _ _ _ _ _ _ _ _ _).
  - apply (bool_decide_unpack _); vm_compute; exact I.
  - intros x H. simpl in H.
    destruct H as [<- | [<- | [<- | [<- | [<- | []]]]]]; reflexivity.
  - reflexivity.
  - reflexivity.
  - intros s H C. simpl in H. destruct H as [<- | []]. simpl. tauto.
  - reflexivity.
  - reflexivity.
  - reflexivity.
  - reflexivity.
  - reflexivity.
  - reflexivity.
Defined.


(** * Further properties *)

(** ** A quiescent page *)

Lemma handleUpdates_quiescent (e : nat) (o : Opts) (w : World) (em : EditorModel) :
  timers w = [] ->
  editors w !! e = Some em ->
  ignored em o = false ->
  handleUpdates e o w = pendingIncrement w (next_timer w) e o.
Proof.
  intros T E I. unfold handleUpdates. rewrite E, I.
  destruct w as [eds tm nt ti ui ob rq]. simpl in *. subst tm.
  now destruct ti.
Qed.

Lemma handleUpdates_pending (e : nat) (o o' : Opts) (n : nat) (w : World)
    (em : EditorModel) :
  editors w !! e = Some em ->
  ignored em o = false ->
  handleUpdates e o (pendingIncrement w n e o') = pendingIncrement w (S n) e o.
Proof.
  intros E I. unfold handleUpdates. cbn [editors pendingIncrement]. rewrite E, I.
  unfold pendingIncrement, clearHandle, clearTimeout, setTimeout, with_timers,
    with_timedInterval. simpl. now rewrite Nat.eqb_refl.
Qed.

Lemma burst_quiescent (e : nat) (o : Opts) (os : list Opts) (w : World)
    (em : EditorModel) :
  timers w = [] ->
  editors w !! e = Some em ->
  Forall (fun o' => ignored em o' = false) (o :: os) ->
  burst e (o :: os) w
    = pendingIncrement w (next_timer w + length os) e (List.last os o).
Proof.
  intros T E F.
  assert (G : forall os' n o', Forall (fun o'' => ignored em o'' = false) os' ->
            burst e os' (pendingIncrement w n e o')
              = pendingIncrement w (n + length os') e (List.last os' o')).
  { induction os' as [|o1 os' IH]; intros n o' F'.
    - simpl. now rewrite Nat.add_0_r.
    - inversion F' as [|? ? F1 F2]; subst.
      change (burst e (o1 :: os') (pendingIncrement w n e o'))
        with (burst e os' (handleUpdates e o1 (pendingIncrement w n e o'))).
      rewrite (handleUpdates_pending e o1 o' n w em E F1), (IH (S n) o1 F2).
      rewrite last_cons_default. f_equal. simpl. lia. }
  inversion F as [|? ? F1 F2]; subst.
  change (burst e (o :: os) w) with (burst e os (handleUpdates e o w)).
  rewrite (handleUpdates_quiescent e o w em T E F1). apply G, F2.
Qed.

Lemma store_enqueues (e : nat) (rs rj : option nat) (w : World) (em : EditorModel)
    (stm : StorageManager) :
  editors w !! e = Some em ->
  sm em = Some stm ->
  store e rs rj w
    = with_requests (requests w ++ [mkRequest e (StoreRequest (storeData em)) rs rj]) w.
Proof. intros E Hs. unfold store. now rewrite E, Hs. Qed.

(** [updateChanges] in one piece. *)
Lemma updateChanges_closed (e : nat) (w : World) (em : EditorModel)
    (stm : StorageManager) :
  editors w !! e = Some em ->
  sm em = Some stm ->
  updateChanges e w
    = mkWorld (editors w)
        (timers (clearHandle (updateItr w) w) ++ [(next_timer w, TriggerUpdate e)])
        (S (next_timer w)) (timedInterval w) (Some (next_timer w))
        (if noticeOnUnload em then negb (changesCount em =? 0) else onbeforeunload w)
        (requests w ++
           if autosaves stm (changesCount em)
           then [mkRequest e (StoreRequest (storeData em)) None None]
           else []).
Proof.
  intros E Hs. unfold updateChanges. rewrite E, Hs.
  fold (autosaves stm (changesCount em)).
  destruct w as [eds tm nt ti ui ob rq].
  cbn [editors timers next_timer timedInterval updateItr onbeforeunload requests] in *.
  destruct ui as [u|], (noticeOnUnload em), (autosaves stm (changesCount em));
    unfold clearHandle, clearTimeout, setTimeout, with_timers, with_updateItr,
      with_onbeforeunload, store, with_requests;
    cbn [editors timers next_timer timedInterval updateItr onbeforeunload requests];
    rewrite ?E, ?Hs, ?app_nil_r; reflexivity.
Qed.

Lemma storeData_with_changesCount (v : Z) (em : EditorModel) :
  storeData (with_changesCount v em) = storeData em.
Proof. reflexivity. Qed.

Lemma turn_pendingIncrement (e n : nat) (o : Opts) (w : World) (em : EditorModel)
    (stm : StorageManager) :
  timers w = [] ->
  editors w !! e = Some em ->
  sm em = Some stm ->
  silent o = false ->
  turn (pendingIncrement w n e o) = afterIncrement w n e em stm.
Proof.
  intros T E Hs Q.
  pose proof (lookup_lt_Some _ _ _ E) as L.
  set (w0 := mkWorld (editors w) [] (S n) (Some n) (updateItr w) (onbeforeunload w)
               (requests w)).
  assert (F : turn (pendingIncrement w n e o) = run_task (IncChanges e o) w0).
  { unfold turn, pendingIncrement. cbn [timers fold_left fst].
    unfold fire. cbn [timers List.find fst]. rewrite Nat.eqb_refl.
    unfold clearTimeout, with_timers.
    cbn [timers List.filter fst next_timer editors timedInterval updateItr
         onbeforeunload requests].
    now rewrite Nat.eqb_refl. }
  rewrite F. unfold run_task.
  assert (E0 : editors w0 !! e = Some em) by exact E.
  rewrite E0, Q. unfold set_changesCount. rewrite E0.
  destruct (Z.eqb_spec (changesCount em) (changesCount em + 1)) as [Hc|_]; [lia|].
  set (w1 := update_editor e (with_changesCount (changesCount em + 1)) w0).
  assert (W1 : w1 = mkWorld (<[e := with_changesCount (changesCount em + 1) em]> (editors w))
                      [] (S n) (Some n) (updateItr w) (onbeforeunload w) (requests w)).
  { unfold w1, update_editor. now rewrite E0. }
  assert (E1 : editors w1 !! e = Some (with_changesCount (changesCount em + 1) em)).
  { rewrite W1. cbn [editors]. now apply list_lookup_insert_eq. }
  rewrite (updateChanges_closed e w1 _ stm E1 Hs), W1.
  cbn [editors timers next_timer timedInterval updateItr onbeforeunload requests
       changesCount with_changesCount noticeOnUnload].
  rewrite storeData_with_changesCount. unfold afterIncrement.
  now destruct (updateItr w).
Qed.

Lemma accepted_all (em : EditorModel) (os : list Opts) :
  ready em = true ->
  skip_flag em = false ->
  Forall (fun o' => temporary o' = false /\ noCount o' = false /\ avoidStore o' = false) os ->
  Forall (fun o' => ignored em o' = false) os.
Proof.
  intros R K F. eapply List.Forall_impl; [|exact F]. simpl. intros o' (T & N & A).
  unfold ignored. now rewrite K, T, N, A, R.
Qed.

Lemma turn_burst_quiescent (w : World) (e : nat) (em : EditorModel)
    (stm : StorageManager) (o : Opts) (os : list Opts) :
  timers w = [] ->
  editors w !! e = Some em ->
  sm em = Some stm ->
  ready em = true ->
  skip_flag em = false ->
  Forall (fun o' => temporary o' = false /\ noCount o' = false /\ avoidStore o' = false)
         (o :: os) ->
  silent (List.last os o) = false ->
  turn (burst e (o :: os) w) = afterIncrement w (next_timer w + length os) e em stm.
Proof.
  intros T E Hs R K F Q.
  rewrite (burst_quiescent e o os w em T E (accepted_all em _ R K F)).
  now apply turn_pendingIncrement.
Qed.

(** X4. Autosave.  On a page at rest, when the timer of a burst of accepted
    notifications has fired, [store] has been called once, with the data of
    the storable modules and no callbacks, exactly if the storage manager
    autosaves and the new count has reached its number of steps; otherwise
    nothing was handed to the backend. *)
Theorem autosave_at_threshold (w : World) (e : nat) (em : EditorModel)
    (stm : StorageManager) (o : Opts) (os : list Opts) :
  timers w = [] ->
  editors w !! e = Some em ->
  sm em = Some stm ->
  ready em = true ->
  skip_flag em = false ->
  Forall (fun o' => temporary o' = false /\ noCount o' = false /\ avoidStore o' = false)
         (o :: os) ->
  silent (List.last os o) = false ->
  requests (turn (burst e (o :: os) w))
    = requests w ++
        if isAutosave stm && (getStepsBeforeSave stm <=? changesCount em + 1)
        then [mkRequest e (StoreRequest (storeData em)) None None]
        else [].
Proof.
  intros T E Hs R K F Q.
  now rewrite (turn_burst_quiescent w e em stm o os T E Hs R K F Q).
Qed.

(** X5. One [update] per burst.  On a page at rest, a burst of accepted
    notifications makes the instance trigger [update] exactly once: after
    the turn of the increment and the turn of the deferred notification the
    instance has its counter raised by one and the single event [Update]
    added, and no timer is left. *)
Theorem burst_updates_once (w : World) (e : nat) (em : EditorModel)
    (stm : StorageManager) (o : Opts) (os : list Opts) :
  timers w = [] ->
  editors w !! e = Some em ->
  sm em = Some stm ->
  ready em = true ->
  skip_flag em = false ->
  Forall (fun o' => temporary o' = false /\ noCount o' = false /\ avoidStore o' = false)
         (o :: os) ->
  silent (List.last os o) = false ->
  editors (turn (turn (burst e (o :: os) w))) !! e
    = Some (trigger Update (with_changesCount (changesCount em + 1) em))
  /\ timers (turn (turn (burst e (o :: os) w))) = [].
Proof.
  intros T E Hs R K F Q.
  rewrite (turn_burst_quiescent w e em stm o os T E Hs R K F Q).
  pose proof (lookup_lt_Some _ _ _ E) as L.
  unfold turn, afterIncrement. cbn [timers fold_left fst].
  unfold fire. cbn [timers List.find fst]. rewrite Nat.eqb_refl.
  unfold run_task, clearTimeout, with_timers.
  cbn [timers List.filter fst]. rewrite Nat.eqb_refl. cbn [negb].
  split.
  - rewrite lookup_update_editor_eq. cbn [editors].
    now rewrite (list_lookup_insert_eq _ _ _ L).
  - unfold update_editor. cbn [editors].
    now rewrite (list_lookup_insert_eq _ _ _ L).
Qed.

(** X6. A cycle of autosave.  On a page at rest with nothing pending at the
    backend, let an instance that warns on unload and autosaves be
    notified, its count reaching the number of steps.  After the turn the
    unload guard is armed.  When the backend then reports success the
    counter is 0 and the guard is disarmed; and if the number of steps is 0
    or less, this reset of the counter has itself called [store] again. *)
Theorem autosave_cycle (w : World) (e : nat) (em : EditorModel)
    (stm : StorageManager) (o : Opts) (os : list Opts) (res : string) :
  timers w = [] ->
  requests w = [] ->
  editors w !! e = Some em ->
  sm em = Some stm ->
  ready em = true ->
  skip_flag em = false ->
  Forall (fun o' => temporary o' = false /\ noCount o' = false /\ avoidStore o' = false)
         (o :: os) ->
  silent (List.last os o) = false ->
  noticeOnUnload em = true ->
  0 <= changesCount em ->
  isAutosave stm = true ->
  getStepsBeforeSave stm <= changesCount em + 1 ->
  let w1 := turn (burst e (o :: os) w) in
  let w2 := answer 0 (Success res) w1 in
  onbeforeunload w1 = true
  /\ counter e w1 = Some (changesCount em + 1)
  /\ counter e w2 = Some 0
  /\ onbeforeunload w2 = false
  /\ requests w2
     = if getStepsBeforeSave stm <=? 0
       then [mkRequest e (StoreRequest (storeData em)) None None]
       else [].
Proof.
  intros T Rq E Hs R K F Q N C A St w1 w2.
  pose proof (lookup_lt_Some _ _ _ E) as L.
  assert (E1 : w1 = afterIncrement w (next_timer w + length os) e em stm)
    by now apply turn_burst_quiescent.
  assert (Au : autosaves stm (changesCount em + 1) = true).
  { unfold autosaves. rewrite A. simpl. now apply Z.leb_le. }
  assert (Nz : (changesCount em + 1 =? 0) = false) by (apply Z.eqb_neq; lia).
  set (n := (next_timer w + length os)%nat) in E1.
  set (em1 := with_changesCount (changesCount em + 1) em).
  set (ws := mkWorld (<[e := em1]> (editors w)) [(S n, TriggerUpdate e)] (S (S n))
               (Some n) (Some (S n)) true []).
  assert (E2 : w1 = with_requests
                      [mkRequest e (StoreRequest (storeData em)) None None] ws).
  { rewrite E1. unfold afterIncrement. now rewrite Au, N, Nz, Rq. }
  assert (Ls : editors ws !! e = Some em1) by now apply list_lookup_insert_eq.
  split; [now rewrite E2|].
  split; [unfold counter; rewrite E2; change (editors (with_requests _ ws)) with (editors ws);
          now rewrite Ls|].
  set (em2 := with_changesCount 0 em1).
  set (wu := update_editor e (with_changesCount 0) ws).
  assert (Eu : wu = with_editors (<[e := em2]> (editors ws)) ws).
  { unfold wu, update_editor. now rewrite Ls. }
  assert (Lu : editors wu !! e = Some em2).
  { rewrite Eu. apply list_lookup_insert_eq.
    change (e < length (<[e := em1]> (editors w)))%nat. now rewrite length_insert. }
  assert (E3 : w2 = updateChanges e wu).
  { unfold w2. rewrite E2. unfold answer.
    cbn [with_requests requests lookup list_lookup req_kind req_em req_resolve call
         delete list_delete].
    change (with_requests [] (with_requests _ ws)) with ws.
    unfold set_changesCount. rewrite Ls.
    change (changesCount em1) with (changesCount em + 1). now rewrite Nz. }
  rewrite E3, (updateChanges_closed e wu em2 stm Lu Hs).
  change (noticeOnUnload em2) with (noticeOnUnload em). rewrite N.
  unfold counter.
  cbn [editors onbeforeunload requests changesCount em2 with_changesCount].
  rewrite Lu. split; [reflexivity|]. split; [reflexivity|].
  rewrite Eu. cbn [requests with_editors ws app].
  unfold autosaves. rewrite A. cbn [andb].
  now destruct (getStepsBeforeSave stm <=? 0).
Qed.

(** ** The counter over a history *)

Lemma changesCount_set_readyLoad (v : bool) (em : EditorModel) :
  changesCount (set_readyLoad v em) = changesCount em.
Proof.
  unfold set_readyLoad, _checkReady.
  destruct (Bool.eqb (readyLoad em) v); [reflexivity|]. simpl.
  now destruct (v && readyCanvas em && negb (ready em)).
Qed.

Lemma editors_handleUpdates (e : nat) (o : Opts) (w : World) :
  editors (handleUpdates e o w) = editors w.
Proof.
  unfold handleUpdates. destruct (editors w !! e) as [em|]; [|reflexivity].
  destruct (ignored em o); [reflexivity|]. now destruct (timedInterval w).
Qed.

Lemma counter_call (cb : option nat) (arg : string) (e e' : nat) (w : World) :
  counter e' (call cb arg e w) = counter e' w.
Proof. destruct cb; simpl; [now apply counter_update_editor | reflexivity]. Qed.

Lemma counter_new_editor (e : nat) (w : World) (x : EditorModel) (c : Z) :
  counter e w = Some c -> counter e (with_editors (editors w ++ [x]) w) = Some c.
Proof.
  unfold counter. simpl. intros H.
  destruct (editors w !! e) as [em|] eqn:E; [|discriminate].
  now rewrite (lookup_app_l_Some _ _ _ _ E).
Qed.

Lemma counter_fire_grows (id e : nat) (w : World) (c : Z) :
  counter e w = Some c ->
  exists c', counter e (fire id w) = Some c' /\ c <= c'.
Proof.
  intros H. unfold fire.
  destruct (List.find _ (timers w)) as [[i t]|]; [|exists c; split; [exact H|lia]].
  assert (H' : counter e (clearTimeout id w) = Some c) by exact H.
  destruct t as [e' o|e'|e'].
  - simpl. destruct (editors w !! e') as [em'|] eqn:E'; [|exists c; split; [exact H'|lia]].
    destruct (Nat.eq_dec e' e) as [ -> |Hne].
    + exists (changesCount em' + 1). split.
      * eapply counter_set_changesCount. exact E'.
      * unfold counter in H. rewrite E' in H. simpl in H. injection H as <-. lia.
    + exists c. split; [|lia]. now rewrite counter_set_changesCount_ne.
  - exists c. split; [|lia].
    now rewrite (proj1 (run_task_other (TriggerUpdate e') _ e eq_refl)).
  - exists c. split; [|lia].
    now rewrite (proj1 (run_task_other (Startup e') _ e eq_refl)).
Qed.

Lemma counter_turn_grows (e : nat) (w : World) (c : Z) :
  counter e w = Some c ->
  exists c', counter e (turn w) = Some c' /\ c <= c'.
Proof.
  unfold turn. generalize (timers w) as l. intros l. revert w c.
  induction l as [|p l IH]; intros w c H.
  - exists c. split; [exact H|lia].
  - simpl. destruct (counter_fire_grows (fst p) e w c H) as (c1 & H1 & L1).
    destruct (IH _ _ H1) as (c2 & H2 & L2). exists c2. split; [exact H2|lia].
Qed.

(** X7. The counter only grows, but for a successful store.  Whatever the
    page does next (an instance is created or started, a notification
    arrives, [store] is called, a timer fires, a turn passes, the backend
    answers), the counter of an instance stays or grows; the one exception
    is the backend reporting success for a [store] of that very instance,
    which leaves the counter at 0. *)
Theorem counter_grows_or_resets (w : World) (a : Action) (e : nat) (c : Z) :
  counter e w = Some c ->
  (forall e' f, a <> Edit e' f) ->
  exists c',
    counter e (perform w a) = Some c'
    /\ (c <= c'
        \/ (c' = 0 /\ exists k res data rs rj,
              a = Answer k (Success res)
              /\ requests w !! k = Some (mkRequest e (StoreRequest data) rs rj))).
Proof.
  intros H NE.
  destruct a as [deps stm nt ml|deps e'|e' o|e' f|e' rs rj|k r|id|]; simpl.
  - exists c. split; [|left; lia]. now apply counter_new_editor.
  - exists c. split; [|left; lia]. unfold loadOnStart. simpl.
    rewrite counter_update_editor by reflexivity.
    now apply (counter_new_editor e
                 (snd (setTimeout (Startup e') w))).
  - exists c. split; [|left; lia]. unfold counter. now rewrite editors_handleUpdates.
  - destruct (NE e' f eq_refl).
  - exists c. split; [|left; lia]. unfold counter.
    now rewrite (proj1 (editors_store e' rs rj w)).
  - unfold answer. destruct (requests w !! k) as [[e' kind rs rj]|] eqn:Rk;
      [|exists c; split; [exact H|left; lia]].
    assert (H1 : counter e (with_requests (delete k (requests w)) w) = Some c) by exact H.
    destruct kind as [data|], r as [res|err]; simpl.
    + destruct (Nat.eq_dec e' e) as [ -> |Hne].
      * exists 0. split.
        -- rewrite <- (counter_call rs res e e) in H1. unfold counter in H1.
           destruct (editors (call rs res e _) !! e) as [em1|] eqn:E1; [|discriminate].
           eapply counter_set_changesCount. exact E1.
        -- right. split; [reflexivity|]. now exists k, res, data, rs, rj.
      * exists c. split; [|left; lia].
        now rewrite counter_set_changesCount_ne, counter_call.
    + exists c. split; [|left; lia]. now rewrite counter_call.
    + exists c. split; [|left; lia]. unfold postLoad.
      rewrite counter_update_editor; [exact H1|]. apply changesCount_set_readyLoad.
    + exists c. split; [|left; lia]. now rewrite counter_update_editor.
  - destruct (counter_fire_grows id e w c H) as (c' & H' & L). exists c'. auto.
  - destruct (counter_turn_grows e w c H) as (c' & H' & L). exists c'. auto.
Qed.

(** ** Skipping *)

Lemma single_pending_update_editor (e e' : nat) (o : Opts)
    (f : EditorModel -> EditorModel) (w : World) :
  single_pending e o w -> single_pending e o (update_editor e' f w).
Proof.
  intros (id & rest & T & F & N & I).
  destruct (timers_update_editor e' f w) as (T' & N' & I' & _).
  exists id, rest. now rewrite T', N', I'.
Qed.

Lemma skip_burst (e : nat) (os : list Opts) (w : World) (em : EditorModel) :
  editors w !! e = Some em ->
  skip e (burst e os) w
    = update_editor e (with_skip false) (update_editor e (with_skip true) w)
  /\ editors (skip e (burst e os) w) !! e = Some (with_skip false (with_skip true em)).
Proof.
  intros E.
  assert (E1 : editors (update_editor e (with_skip true) w) !! e
               = Some (with_skip true em)).
  { now rewrite lookup_update_editor_eq, E. }
  unfold skip. rewrite (burst_ignored e os _ _ E1 eq_refl).
  split; [reflexivity|]. now rewrite lookup_update_editor_eq, E1.
Qed.

(** X9. [skip] is not re-entrant.  The flag is lowered unconditionally when
    a [skip] returns: inside the callback of an outer [skip], a
    notification that comes after an inner [skip] has returned is accepted
    and counted like any other, although the outer [skip] is still
    running. *)
Theorem skip_not_reentrant (w : World) (e : nat) (em : EditorModel)
    (o : Opts) (os : list Opts) :
  editors w !! e = Some em ->
  coalesced w ->
  ready em = true ->
  temporary o = false -> noCount o = false -> avoidStore o = false ->
  let w' := skip e (fun w1 => handleUpdates e o (skip e (burst e os) w1)) w in
  single_pending e o w'
  /\ counter e (turn w') = Some (changesCount em + 1).
Proof.
  intros E C R T N A w'.
  set (w1 := update_editor e (with_skip true) w).
  assert (E1 : editors w1 !! e = Some (with_skip true em)).
  { unfold w1. now rewrite lookup_update_editor_eq, E. }
  destruct (skip_burst e os w1 _ E1) as [B E2].
  set (w2 := skip e (burst e os) w1) in *.
  assert (C2 : coalesced w2).
  { rewrite B. unfold w1. now do 3 apply coalesced_update_editor. }
  assert (I2 : ignored (with_skip false (with_skip true (with_skip true em))) o = false).
  { unfold ignored. simpl. now rewrite T, N, A, R. }
  destruct (handleUpdates_accepted e o w2 _ E2 I2 C2) as [SP Ed].
  assert (W : w' = update_editor e (with_skip false) (handleUpdates e o w2)) by reflexivity.
  assert (SP' : single_pending e o w') by (rewrite W; now apply single_pending_update_editor).
  split; [exact SP'|].
  assert (E' : editors w' !! e
               = Some (with_skip false
                         (with_skip false (with_skip true (with_skip true em))))).
  { rewrite W, lookup_update_editor_eq, Ed, E2. reflexivity. }
  exact (proj1 (turn_single_pending e o w' _ SP' E')).
Qed.

(** ** Start-up *)

Lemma toLoad_loadModules (deps : list Module) (em : EditorModel) :
  toLoad (loadModules deps em) = toLoad em ++ List.filter has_onLoad deps.
Proof.
  revert em. induction deps as [|m deps IH]; intros em.
  - simpl. now rewrite app_nil_r.
  - change (loadModules (m :: deps) em) with (loadModules deps (loadModule m em)).
    rewrite IH. simpl. destruct (has_onLoad m); [|reflexivity].
    now rewrite <- app_assoc.
Qed.

Lemma ready_loadModules (deps : list Module) (em : EditorModel) :
  ready (loadModules deps em) = ready em
  /\ changesCount (loadModules deps em) = changesCount em
  /\ sm (loadModules deps em) = sm em.
Proof.
  revert em. induction deps as [|m deps IH]; intros em; [repeat split|].
  change (loadModules (m :: deps) em) with (loadModules deps (loadModule m em)).
  destruct (IH (loadModule m em)) as (-> & -> & ->). repeat split.
Qed.

Lemma notice_loadModules (deps : list Module) (em : EditorModel) :
  noticeOnUnload (loadModules deps em) = noticeOnUnload em.
Proof.
  revert em. induction deps as [|m deps IH]; intros em; [reflexivity|].
  change (loadModules (m :: deps) em) with (loadModules deps (loadModule m em)).
  now rewrite IH.
Qed.

Lemma lookup_loadOnStart (deps : list Module) (e : nat) (w : World) (em : EditorModel) :
  editors w !! e = Some em ->
  editors (loadOnStart deps e w) !! e
    = Some (with_shallow (Some (length (editors w))) em)
  /\ editors (loadOnStart deps e w) !! length (editors w)
     = Some (loadModules deps
               (freshEditor (Some (mkStorageManager false 1 false)) false false))
  /\ timers (loadOnStart deps e w) = timers w ++ [(next_timer w, Startup e)]
  /\ requests (loadOnStart deps e w) = requests w.
Proof.
  intros E. pose proof (lookup_lt_Some _ _ _ E) as L.
  unfold loadOnStart. simpl.
  set (x := loadModules deps _).
  assert (Ea : (editors w ++ [x]) !! e = Some em) by now apply lookup_app_l_Some.
  unfold update_editor. simpl. rewrite Ea. simpl.
  split; [|split; [|split; reflexivity]].
  - apply list_lookup_insert_eq. rewrite length_app. simpl. lia.
  - rewrite list_lookup_insert_ne by lia.
    rewrite lookup_app_r by lia. now rewrite Nat.sub_diag.
Qed.

(** X12. The shallow instance starts out deaf.  [loadOnStart] appends the
    shallow instance to the page and records it on its owner; it is a new
    instance with every module of the list registered, in order, with no
    unload notice, a counter of 0 and not ready, so every notification on
    it is ignored: nothing it is told can reach the shared timer. *)
Theorem shallow_starts_unready (deps : list Module) (e : nat) (w : World)
    (em : EditorModel) (o : Opts) :
  editors w !! e = Some em ->
  let w' := loadOnStart deps e w in
  let s := length (editors w) in
  s <> e
  /\ (shallow <$> editors w' !! e) = Some (Some s)
  /\ (modules <$> editors w' !! s) = Some deps
  /\ (toLoad <$> editors w' !! s) = Some (List.filter has_onLoad deps)
  /\ (noticeOnUnload <$> editors w' !! s) = Some false
  /\ (ready <$> editors w' !! s) = Some false
  /\ (changesCount <$> editors w' !! s) = Some 0
  /\ handleUpdates s o w' = w'.
Proof.
  intros E w' s. pose proof (lookup_lt_Some _ _ _ E) as L.
  destruct (lookup_loadOnStart deps e w em E) as (E1 & E2 & _).
  fold w' in E1, E2. fold s in E2.
  set (fresh := freshEditor (Some (mkStorageManager false 1 false)) false false) in *.
  destruct (ready_loadModules deps fresh) as (R & Cc & _).
  pose proof (modules_loadModules deps fresh) as Md.
  pose proof (toLoad_loadModules deps fresh) as Tl.
  pose proof (notice_loadModules deps fresh) as Nt.
  split; [unfold s; lia|]. rewrite E1, E2. cbn [fmap option_fmap option_map].
  rewrite R, Cc, Md, Tl, Nt.
  split; [reflexivity|]. split; [reflexivity|]. split; [reflexivity|].
  split; [reflexivity|]. split; [reflexivity|]. split; [reflexivity|].
  apply (handleUpdates_guard w' s _ o E2). unfold ignored. rewrite R. simpl.
  now rewrite !orb_true_r.
Qed.

Lemma turn_loadOnStart (deps : list Module) (e : nat) (w : World) (em : EditorModel) :
  timers w = [] ->
  editors w !! e = Some em ->
  turn (loadOnStart deps e w)
    = run_task (Startup e) (clearTimeout (next_timer w) (loadOnStart deps e w)).
Proof.
  intros T E. destruct (lookup_loadOnStart deps e w em E) as (_ & _ & Tm & _).
  unfold turn. rewrite Tm, T. simpl. unfold fire. rewrite Tm, T. simpl.
  now rewrite Nat.eqb_refl.
Qed.

(** X13. Start-up without autoload.  On a page at rest, for an instance whose
    storage manager does not autoload (or that has none), the turn after
    [loadOnStart] sets [readyLoad]; the instance is ready from then on if
    its canvas had reported in, and is left waiting for it otherwise. *)
Theorem loadOnStart_sets_readyLoad (deps : list Module) (e : nat) (w : World)
    (em : EditorModel) :
  timers w = [] ->
  editors w !! e = Some em ->
  readyLoad em = false ->
  match sm em with Some stm => canAutoload stm = false | None => True end ->
  exists em',
    editors (turn (loadOnStart deps e w)) !! e = Some em'
    /\ readyLoad em' = true
    /\ ready em' = ready em || readyCanvas em
    /\ shallow em' = Some (length (editors w))
    /\ timers (turn (loadOnStart deps e w)) = [].
Proof.
  intros T E Rl Hsm.
  destruct (lookup_loadOnStart deps e w em E) as (E1 & _ & Tm & _).
  rewrite (turn_loadOnStart deps e w em T E).
  set (w0 := clearTimeout (next_timer w) (loadOnStart deps e w)).
  assert (E0 : editors w0 !! e = Some (with_shallow (Some (length (editors w))) em))
    by exact E1.
  assert (T0 : timers w0 = []).
  { unfold w0, clearTimeout. simpl. rewrite Tm, T. simpl. now rewrite Nat.eqb_refl. }
  assert (P : run_task (Startup e) w0 = postLoad e w0).
  { unfold run_task. rewrite E0. simpl.
    destruct (sm em) as [stm|]; [now rewrite Hsm | reflexivity]. }
  rewrite P. unfold postLoad.
  exists (set_readyLoad true (with_shallow (Some (length (editors w))) em)).
  split; [now rewrite lookup_update_editor_eq, E0|].
  destruct (timers_update_editor e (set_readyLoad true) w0) as (-> & _).
  unfold set_readyLoad, _checkReady. simpl. rewrite Rl. simpl.
  destruct (readyCanvas em), (ready em); simpl; repeat split; exact T0.
Qed.

Lemma answer_load (k e : nat) (w : World) (em : EditorModel) (rs rj : option nat)
    (err res : string) :
  requests w !! k = Some (mkRequest e LoadRequest rs rj) ->
  editors w !! e = Some em ->
  editors (answer k (Failure err) w) !! e = Some (trigger (LogError err) em)
  /\ editors (answer k (Success res) w) !! e = Some (set_readyLoad true em).
Proof.
  intros K E.
  assert (E' : editors (with_requests (delete k (requests w)) w) !! e = Some em)
    by exact E.
  unfold answer. rewrite K. cbn [req_kind req_em]. unfold postLoad.
  now rewrite !lookup_update_editor_eq, E'.
Qed.

(** X14. A failed autoload leaves the instance unready.  With a storage
    manager that autoloads, the turn after [loadOnStart] only hands a load
    to the backend.  When the backend reports failure the error is logged
    and nothing else happens: [readyLoad] is not set, and an instance that
    was not ready goes on ignoring every notification.  When it reports
    success [readyLoad] is set. *)
Theorem failed_autoload_never_ready (deps : list Module) (e : nat) (w : World)
    (em : EditorModel) (stm : StorageManager) (err res : string) (o : Opts) :
  timers w = [] ->
  requests w = [] ->
  editors w !! e = Some em ->
  sm em = Some stm ->
  canAutoload stm = true ->
  readyLoad em = false ->
  ready em = false ->
  let w1 := turn (loadOnStart deps e w) in
  let em1 := with_shallow (Some (length (editors w))) em in
  requests w1 = [mkRequest e LoadRequest None None]
  /\ editors w1 !! e = Some em1
  /\ editors (answer 0 (Failure err) w1) !! e = Some (trigger (LogError err) em1)
  /\ handleUpdates e o (answer 0 (Failure err) w1) = answer 0 (Failure err) w1
  /\ (readyLoad <$> editors (answer 0 (Success res) w1) !! e) = Some true.
Proof.
  intros T Rq E Hs Ca Rl R w1 em1.
  destruct (lookup_loadOnStart deps e w em E) as (E1 & _ & Tm & Rq').
  set (w0 := clearTimeout (next_timer w) (loadOnStart deps e w)).
  assert (E0 : editors w0 !! e = Some em1) by exact E1.
  assert (Rq0 : requests w0 = []) by (unfold w0; simpl; now rewrite Rq', Rq).
  assert (W1 : w1 = load e w0).
  { unfold w1. rewrite (turn_loadOnStart deps e w em T E). fold w0.
    unfold run_task. rewrite E0. change (sm em1) with (sm em). now rewrite Hs, Ca. }
  assert (L0 : load e w0 = with_requests [mkRequest e LoadRequest None None] w0).
  { unfold load. rewrite E0. change (sm em1) with (sm em). now rewrite Hs, Rq0. }
  assert (R1 : requests w1 = [mkRequest e LoadRequest None None]).
  { now rewrite W1, L0. }
  assert (Ed1 : editors w1 !! e = Some em1).
  { now rewrite W1, L0. }
  split; [exact R1|]. split; [exact Ed1|].
  assert (K0 : requests w1 !! 0%nat = Some (mkRequest e LoadRequest None None))
    by now rewrite R1.
  destruct (answer_load 0 e w1 em1 None None err res K0 Ed1) as [AF AS].
  split; [exact AF|]. split.
  - apply (handleUpdates_guard _ e _ o AF). unfold ignored. simpl. rewrite R.
    simpl. now rewrite !orb_true_r.
  - rewrite AS. simpl. unfold set_readyLoad, _checkReady. simpl. rewrite Rl. simpl.
    now destruct (readyCanvas em && negb (ready em)).
Qed.

(** ** The registry *)

Lemma loadModules_snoc (deps : list Module) (m : Module) (em : EditorModel) :
  loadModules (deps ++ [m]) em = loadModule m (loadModules deps em).
Proof. unfold loadModules. now rewrite fold_left_app. Qed.

(** X1. Registration order.  On a new instance the module list is the
    registered modules in the order of registration, the load queue is
    those of them that have [onLoad], in the same order, and every module
    of the load queue and of the storable list is in the module list. *)
Theorem registration_order (deps : list Module)
    (stm : option StorageManager) (notice mlt : bool) :
  let em := loadModules deps (freshEditor stm notice mlt) in
  modules em = deps
  /\ toLoad em = List.filter has_onLoad deps
  /\ (forall m, In m (toLoad em) -> In m (modules em))
  /\ (forall m, In m (storables em) -> In m (modules em)).
Proof.
  intros em. unfold em.
  rewrite modules_loadModules, toLoad_loadModules, storables_loadModules. simpl.
  split; [reflexivity|]. split; [reflexivity|]. split.
  - intros m H. apply filter_In in H. tauto.
  - intros m H. rewrite in_app_iff, <- in_rev, !filter_In in H. tauto.
Qed.

(** X2. Looking a module up.  After any registrations, the module found
    under a name is the last public module registered under that name; a
    private module is never exposed and does not hide an earlier public
    one; a name no public module was registered under is left as it was. *)
Theorem exposed_last_public (deps : list Module) (em : EditorModel) (n : string) :
  exposed (loadModules deps em) !! n
    = match last (List.filter (publicNamed n) deps) with
      | Some m => Some m
      | None => exposed em !! n
      end.
Proof.
  induction deps as [|m deps IH] using rev_ind; [reflexivity|].
  rewrite loadModules_snoc, List.filter_app. simpl. unfold publicNamed at 2.
  destruct (private m) eqn:P; simpl.
  - rewrite app_nil_r. exact IH.
  - destruct (String.eqb_spec (name m) n) as [ <- |Hne]; simpl.
    + rewrite last_snoc. apply lookup_insert_eq.
    + rewrite app_nil_r, lookup_insert_ne by exact Hne. exact IH.
Qed.

(** ** Stored data *)

Lemma storeData_absent (l : list Module) (acc : gmap string string) (k : string) :
  (forall m, In m l -> store_result m !! k = None) ->
  fold_left (fun result m => store_result m ∪ result) l acc !! k = acc !! k.
Proof.
  revert acc. induction l as [|m l IH]; intros acc H; [reflexivity|].
  simpl. rewrite IH by (intros m' Hm'; apply H; now right).
  rewrite lookup_union_r; [reflexivity|]. apply H. now left.
Qed.

(** X3. Later modules win.  In the data handed to the backend, the value
    under a key is the one of the last storable module (in storable order)
    whose result has that key; a key none of them has is absent. *)
Theorem storeData_last_wins (em : EditorModel) (k : string) :
  (forall l1 m l2 v,
      storables em = l1 ++ m :: l2 ->
      store_result m !! k = Some v ->
      (forall m', In m' l2 -> store_result m' !! k = None) ->
      storeData em !! k = Some v)
  /\ ((forall m, In m (storables em) -> store_result m !! k = None) ->
      storeData em !! k = None).
Proof.
  unfold storeData. split.
  - intros l1 m l2 v -> Hv Hl2. rewrite fold_left_app. simpl.
    rewrite (storeData_absent l2 _ k Hl2). now apply lookup_union_Some_l.
  - intros H. now rewrite (storeData_absent _ ∅ k H).
Qed.

(** ** Data kept on an element *)

(** X26. Writing and reading back.  A string written under a name other
    than [__proto__] is what a later read of that name returns, also when
    the name is one of [Object.prototype]; a write leaves every other name
    as it was; a read changes nothing that can be read.  On an element that
    never held data a name reads as undefined unless [Object.prototype] has
    a member of that name, which is then what the read returns.  A string
    written under [__proto__] is not stored: the name reads afterwards as
    it did before. *)
Theorem data_round_trip (el : Element) (key other v : string) :
  (key <> "__proto__"%string ->
   fst (data (snd (data el key (Some v))) key None) = Some (JsString v))
  /\ (other <> key ->
      fst (data (snd (data el key (Some v))) other None) = fst (data el other None))
  /\ fst (data (snd (data el other None)) key None) = fst (data el key None)
  /\ (gjsData el = None ->
      fst (data el key None) = if inherited key then Some (JsBuiltin key) else None)
  /\ fst (data (snd (data el "__proto__" (Some v))) other None)
     = fst (data el other None).
Proof.
  unfold data, readProperty, writeProperty. simpl.
  split; [|split; [|split; [|split]]].
  - intros H. apply String.eqb_neq in H. rewrite H. now rewrite lookup_insert_eq.
  - intros H. destruct (String.eqb key "__proto__"); [reflexivity|].
    now rewrite lookup_insert_ne.
  - reflexivity.
  - intros ->. simpl. now rewrite lookup_empty.
  - reflexivity.
Qed.

(** On a new element [toString] reads as the member of [Object.prototype],
    and still does after a string was written under [__proto__]. *)
Example data_inherited_names :
  fst (data (mkElement None) "toString" None) = Some (JsBuiltin "toString")
  /\ fst (data (mkElement None) "title" None) = None
  /\ fst (data (snd (data (mkElement None) "__proto__" (Some "x"))) "__proto__" None)
     = Some (JsBuiltin "__proto__")
  /\ fst (data (snd (data (mkElement None) "toString" (Some "x"))) "toString" None)
     = Some (JsString "x").
Proof. vm_compute. repeat split. Qed.

(** ** The default command *)

Lemma default_invariant (known : bool) (steps : list DefaultStep) (s : DefaultCommand) :
  (defaultRunning s = true <-> last (commandCalls s) = Some CmdRun) ->
  let s' := fold_left (defaultStep known) steps s in
  defaultRunning s' = true <-> last (commandCalls s') = Some CmdRun.
Proof.
  revert s. induction steps as [|a steps IH]; intros s H; [exact H|].
  simpl. apply IH. destruct a; simpl.
  - unfold runDefault. destruct (negb known || defaultRunning s); [exact H|].
    simpl. change [CmdStop; CmdRun] with ([CmdStop] ++ [CmdRun]).
    rewrite app_assoc, last_snoc. tauto.
  - unfold stopDefault. destruct (negb known || negb (defaultRunning s)); [exact H|].
    simpl. rewrite last_snoc. split; discriminate.
Qed.

Lemma default_runs_after_stop (known : bool) (steps : list DefaultStep)
    (s : DefaultCommand) :
  let s' := fold_left (defaultStep known) steps s in
  exists added,
    commandCalls s' = commandCalls s ++ added
    /\ (length (List.filter isRun added)
        <= length (List.filter (fun c => negb (isRun c)) added))%nat.
Proof.
  revert s. induction steps as [|a steps IH]; intros s.
  - exists []. simpl. now rewrite app_nil_r.
  - simpl. destruct (IH (defaultStep known s a)) as (added & E & L).
    destruct a; simpl in *.
    + unfold runDefault in *. destruct (negb known || defaultRunning s).
      * exists added. auto.
      * exists ([CmdStop; CmdRun] ++ added). simpl in *.
        rewrite E, <- app_assoc. split; [reflexivity|]. lia.
    + unfold stopDefault in *. destruct (negb known || negb (defaultRunning s)).
      * exists added. auto.
      * exists ([CmdStop] ++ added). simpl in *.
        rewrite E, <- app_assoc. split; [reflexivity|]. lia.
Qed.

(** X27. The default command.  Through any sequence of [runDefault] and
    [stopDefault], starting with the command at rest, [defaultRunning] is
    set exactly when the last thing done to the command was to run it; the
    command is never run more often than it is stopped, and running it
    twice in a row is running it once. *)
Theorem default_command_runs_once (known : bool) (steps : list DefaultStep) :
  let s := fold_left (defaultStep known) steps (mkDefaultCommand false []) in
  (defaultRunning s = true <-> last (commandCalls s) = Some CmdRun)
  /\ (length (List.filter isRun (commandCalls s))
      <= length (List.filter (fun c => negb (isRun c)) (commandCalls s)))%nat
  /\ runDefault known (runDefault known s) = runDefault known s
  /\ stopDefault known (stopDefault known s) = stopDefault known s.
Proof.
  intros s. split; [|split; [|split]].
  - apply default_invariant. simpl. split; discriminate.
  - destruct (default_runs_after_stop known steps (mkDefaultCommand false []))
      as (added & E & L). fold s in E. simpl in E. now rewrite E.
  - unfold runDefault. destruct known; simpl; [|reflexivity].
    destruct (defaultRunning s) eqn:D; simpl; [now rewrite D | reflexivity].
  - unfold stopDefault. destruct known; simpl; [|reflexivity].
    destruct (defaultRunning s) eqn:D; simpl; [reflexivity | now rewrite D].
Qed.

(** ** What selecting touches *)

Lemma selectionStep_refl (em : EditorModel) : selectionStep em em.
Proof.
  split; [now destruct em|]. split; [|auto].
  exists []. split; [now rewrite app_nil_r | intros c []].
Qed.

Lemma selectionStep_trans (a b c : EditorModel) :
  selectionStep a b -> selectionStep b c -> selectionStep a c.
Proof.
  intros (E1 & (t1 & V1 & S1) & I1) (E2 & (t2 & V2 & S2) & I2).
  split; [|split].
  - rewrite E2, E1. reflexivity.
  - exists (t1 ++ t2). split; [now rewrite V2, V1, app_assoc|].
    intros x Hx. apply in_app_or in Hx. destruct Hx; auto.
  - intros x Hx. destruct (I2 x Hx) as [Hb|Hs]; auto.
Qed.

Lemma selectionStep_trigger (ev : Event) (em : EditorModel) :
  (forall c, ev = Select c -> selectable c = true) ->
  selectionStep em (trigger ev em).
Proof.
  intros H. split; [reflexivity|]. split; [|auto].
  exists [ev]. split; [reflexivity|]. intros c [ -> |[]]. now apply H.
Qed.

Lemma selectionStep_removeSelected (ms : list Component) (em : EditorModel) :
  selectionStep em (removeSelected ms em).
Proof.
  split; [reflexivity|]. split.
  - exists []. split; [simpl; now rewrite app_nil_r | intros c []].
  - intros x Hx. left. simpl in Hx. apply In_removeComponent in Hx. tauto.
Qed.

Lemma selectionStep_addSelected1 (opts : SelectOpts) (em : EditorModel)
    (m : option Component) :
  selectionStep em (addSelected1 opts em m).
Proof.
  destruct m as [c|].
  2:{ change (addSelected1 opts em None) with (addSelected [None] opts em).
      rewrite (addSelected_skips None opts em I). apply selectionStep_refl. }
  simpl.
  - destruct (selectable c) eqn:S; simpl; [|apply selectionStep_refl].
    assert (A : selectionStep em
                  (if forceChange opts then removeSelected [c] em else em)).
    { destruct (forceChange opts);
        [apply selectionStep_removeSelected | apply selectionStep_refl]. }
    eapply selectionStep_trans; [exact A|].
    set (em1 := if forceChange opts then removeSelected [c] em else em).
    split; [reflexivity|]. split.
    + exists [Select c]. split; [reflexivity|]. intros x [Hx|[]]. congruence.
    + intros x Hx. simpl in Hx. apply In_addComponent in Hx.
      destruct Hx as [Hx|[_ ->]]; auto.
Qed.

Lemma selectionStep_addSelected (ms : list (option Component)) (opts : SelectOpts)
    (em : EditorModel) :
  selectionStep em (addSelected ms opts em).
Proof.
  unfold addSelected. revert em. induction ms as [|m ms IH]; intros em.
  - apply selectionStep_refl.
  - simpl. eapply selectionStep_trans; [apply selectionStep_addSelected1 | apply IH].
Qed.

Lemma selectionStep_toggleSelected (ms : list (option Component)) (opts : SelectOpts)
    (em : EditorModel) :
  selectionStep em (toggleSelected ms opts em).
Proof.
  unfold toggleSelected. revert em. induction ms as [|m ms IH]; intros em.
  - apply selectionStep_refl.
  - simpl. eapply selectionStep_trans; [|apply IH].
    unfold toggleSelected1. destruct (hasComponent (selected em) m);
      [apply selectionStep_removeSelected | apply selectionStep_addSelected].
Qed.

Lemma selectionStep_addUpwards (doc : nat -> list Component) (k n : nat) (i : Z)
    (em : EditorModel) :
  selectionStep em (addUpwards doc k n i em).
Proof.
  revert i em. induction n as [|n IH]; intros i em; [apply selectionStep_refl|].
  simpl. eapply selectionStep_trans; [|apply IH].
  apply (selectionStep_addSelected [at_ doc k i]).
Qed.

Lemma selectionStep_addDownwards (doc : nat -> list Component) (k n : nat) (i : Z)
    (em : EditorModel) :
  selectionStep em (addDownwards doc k n i em).
Proof.
  revert i em. induction n as [|n IH]; intros i em; [apply selectionStep_refl|].
  simpl. eapply selectionStep_trans; [|apply IH].
  apply (selectionStep_addSelected [at_ doc k i]).
Qed.

Lemma selectionStep_selectRange (doc : nat -> list Component) (m : Component)
    (em : EditorModel) :
  selectionStep em (state_of (selectRange doc m em)).
Proof.
  unfold selectRange.
  set (em0 := trigger ClearTextSelection em).
  assert (S0 : selectionStep em em0) by (apply selectionStep_trigger; discriminate).
  destruct (nearestSelected doc (collection m) (index doc m) (getSelectedAll em0))
    as [mn mx].
  destruct (collection m) as [k|].
  - set (em1 := match mn with
                | Some v => addUpwards doc k (Z.to_nat (index doc m - v)) v em0
                | None => em0
                end).
    assert (S1 : selectionStep em em1).
    { eapply selectionStep_trans; [exact S0|]. unfold em1.
      destruct mn; [apply selectionStep_addUpwards | apply selectionStep_refl]. }
    set (em2 := match mx with
                | Some v => addDownwards doc k (Z.to_nat (v - index doc m)) v em1
                | None => em1
                end).
    assert (S2 : selectionStep em em2).
    { eapply selectionStep_trans; [exact S1|]. unfold em2.
      destruct mx; [apply selectionStep_addDownwards | apply selectionStep_refl]. }
    assert (G : selectionStep em (addSelected [Some m] noOpts em2)).
    { eapply selectionStep_trans; [exact S2 | apply selectionStep_addSelected]. }
    destruct mn, mx; exact G.
  - destruct mn, mx; cbn [bind state_of]; try exact S0.
    eapply selectionStep_trans; [exact S0 | apply (selectionStep_addSelected [Some m])].
Qed.

Lemma selectionStep_commitSelected (doc : nat -> list Component)
    (ctrl shift mltSel multiple : bool) (sel0 : list Component)
    (opts : SelectOpts) (em : EditorModel) (model : option Component) :
  selectionStep em
    (snd (state_of (commitSelected doc ctrl shift mltSel multiple sel0 opts em model))).
Proof.
  unfold commitSelected. destruct (ctrl && mltSel).
  - apply selectionStep_toggleSelected.
  - destruct (shift && mltSel).
    + destruct model as [m|].
      * pose proof (selectionStep_selectRange doc m em) as H.
        destruct (selectRange doc m em); exact H.
      * apply selectionStep_trigger. discriminate.
    + cbn [state_of snd].
      eapply selectionStep_trans; [|apply (selectionStep_addSelected [model])].
      destruct multiple; [apply selectionStep_refl | apply selectionStep_removeSelected].
Qed.

Lemma selectionStep_setSelected1 (doc : nat -> list Component)
    (ctrl shift mltSel multiple : bool) (sel0 : list Component)
    (opts : SelectOpts) (em : EditorModel) (el : option Component) :
  selectionStep em
    (snd (state_of (setSelected1 doc ctrl shift mltSel multiple sel0 (opts, em) el))).
Proof.
  unfold setSelected1. destruct el as [m|];
    [|apply selectionStep_commitSelected].
  assert (B : selectionStep em (trigger (SelectBefore m) em))
    by (apply selectionStep_trigger; discriminate).
  destruct (checkSelectable m (onSelectBefore em m opts)) as [model|]; [|exact B].
  eapply selectionStep_trans; [exact B | apply selectionStep_commitSelected].
Qed.

Lemma selectionStep_forEach (doc : nat -> list Component)
    (ctrl shift mltSel multiple : bool) (sel0 : list Component)
    (els : list (option Component)) (opts : SelectOpts) (em : EditorModel) :
  selectionStep em
    (snd (state_of (forEach (setSelected1 doc ctrl shift mltSel multiple sel0)
                      els (opts, em)))).
Proof.
  revert opts em. induction els as [|el els IH]; intros opts em;
    [apply selectionStep_refl|].
  cbn [forEach].
  pose proof (selectionStep_setSelected1 doc ctrl shift mltSel multiple sel0
                opts em el) as H.
  destruct (setSelected1 doc ctrl shift mltSel multiple sel0 (opts, em) el)
    as [[o1 e1]|[o1 e1]]; cbn [state_of snd] in H.
  - eapply selectionStep_trans; [exact H | apply IH].
  - exact H.
Qed.

Lemma selectionStep_setSelected (doc : nat -> list Component) (el : Arg)
    (opts : SelectOpts) (em : EditorModel) :
  selectionStep em (snd (state_of (setSelected doc el opts em))).
Proof.
  unfold setSelected.
  eapply selectionStep_trans; [|apply selectionStep_forEach].
  destruct (isArray el); [apply selectionStep_removeSelected | apply selectionStep_refl].
Qed.

(** X15. Only what is selectable gets selected.  Whatever the targets, the
    options and the listeners, and whether or not it raises, [setSelected]
    puts no entity into the Selection Set that is not selectable, and
    triggers [component:select] for selectable entities only. *)
Theorem setSelected_adds_only_selectable (doc : nat -> list Component) (el : Arg)
    (opts : SelectOpts) (em : EditorModel) :
  let em' := snd (state_of (setSelected doc el opts em)) in
  (forall x, In x (selected em') -> In x (selected em) \/ selectable x = true)
  /\ exists tl, events em' = events em ++ tl
                /\ forall c, In (Select c) tl -> selectable c = true.
Proof.
  intros em'. destruct (selectionStep_setSelected doc el opts em) as (_ & H & I).
  split; [exact I | exact H].
Qed.

(** X16. Selecting touches the selection only.  Every selection operation
    leaves the instance as it was but for the Selection Set and the log of
    events: the counter of changes, the Hovered Entity, the readiness flags
    and the registry are the same afterwards. *)
Theorem selection_leaves_rest (doc : nat -> list Component) (el : Arg)
    (ms : list (option Component)) (cs : list Component)
    (opts : SelectOpts) (em : EditorModel) :
  let same_rest (em' : EditorModel) :=
    em' = with_events (events em') (with_selected (selected em') em) in
  same_rest (snd (state_of (setSelected doc el opts em)))
  /\ same_rest (addSelected ms opts em)
  /\ same_rest (removeSelected cs em)
  /\ same_rest (toggleSelected ms opts em).
Proof.
  intros same_rest. unfold same_rest. repeat split.
  - apply selectionStep_setSelected.
  - apply selectionStep_addSelected.
  - apply selectionStep_toggleSelected.
Qed.

(** ** Plain, toggling and multiple selection *)

Lemma contains_filter_respect (p : Component -> bool) (sel : list Component)
    (x : Component) :
  (forall s, same x s = true -> p s = p x) ->
  contains (List.filter p sel) x = contains sel x && p x.
Proof.
  intros H. induction sel as [|s sel IH]; [reflexivity|].
  simpl. destruct (p s) eqn:Ps; rewrite ?contains_cons, IH.
  - destruct (same x s) eqn:Sx; simpl; [|reflexivity].
    now rewrite <- (H s Sx), Ps.
  - destruct (same x s) eqn:Sx; simpl; [|reflexivity].
    rewrite <- (H s Sx), Ps. now rewrite andb_false_r.
Qed.

Lemma contains_removeComponent (ms sel : list Component) (x : Component) :
  contains (removeComponent ms sel) x = contains sel x && negb (contains ms x).
Proof.
  apply (contains_filter_respect (fun s => negb (contains ms s))).
  intros s Sx. f_equal. symmetry. now apply contains_same.
Qed.

Lemma removeComponent_absent (c : Component) (sel : list Component) :
  contains sel c = false -> removeComponent [c] sel = sel.
Proof.
  intros H. unfold removeComponent. apply filter_all. intros x Hx.
  unfold contains at 1. simpl. rewrite orb_false_r.
  destruct (same x c) eqn:Sx; [|reflexivity]. exfalso.
  assert (T : contains sel c = true).
  { apply existsb_exists. exists x. split; [exact Hx|]. now rewrite same_sym. }
  congruence.
Qed.

(** X17. Plain selection replaces.  A single selectable target that no
    listener aborts, selected without an active modifier (none pressed, or
    multiple selection disabled, which also turns a ctrl-click into a plain
    one), ends up selected and alone: everything else is deselected. *)
Theorem plain_select_replaces (doc : nat -> list Component) (c : Component)
    (opts : SelectOpts) (em : EditorModel) :
  selectable c = true ->
  abort (onSelectBefore em c opts) = false ->
  multipleSelection em = false \/ event opts = None ->
  exists em',
    setSelected doc (One (Entity c)) opts em
      = Returned (onSelectBefore em c opts, em')
    /\ contains (selected em') c = true
    /\ (forall x, In x (selected em') -> same x c = true)
    /\ componentHovered em' = componentHovered em.
Proof.
  intros S A M.
  rewrite (setSelected_goes_on doc c opts em (Some c))
    by (unfold checkSelectable; now rewrite S, A).
  apply (commit_plain_selects doc _ _ (multipleSelection em)
           (onSelectBefore em c opts) (trigger (SelectBefore c) em) c);
    [| |exact S]; destruct M as [ -> | -> ]; rewrite ?andb_false_r; reflexivity.
Qed.

(** X18. Ctrl-click toggles.  With multiple selection enabled and the control
    (or meta) key down, selecting a selectable entity takes it out of the
    Selection Set if it is in it and appends it otherwise; the other
    entities stay, in their order. *)
Theorem ctrl_select_toggles (doc : nat -> list Component) (c : Component)
    (opts : SelectOpts) (em : EditorModel) (ev : KeyEvent) :
  selectable c = true ->
  abort (onSelectBefore em c opts) = false ->
  multipleSelection em = true ->
  event opts = Some ev ->
  ctrlKey ev || metaKey ev = true ->
  exists em',
    setSelected doc (One (Entity c)) opts em
      = Returned (onSelectBefore em c opts, em')
    /\ selected em'
       = (if contains (selected em) c
          then removeComponent [c] (selected em)
          else selected em ++ [c])
    /\ contains (selected em') c = negb (contains (selected em) c)
    /\ (forall x, same x c = false ->
          contains (selected em') x = contains (selected em) x).
Proof.
  intros S A M Ev Ck.
  rewrite (setSelected_goes_on doc c opts em (Some c))
    by (unfold checkSelectable; now rewrite S, A).
  rewrite Ev, Ck, M. unfold commitSelected. cbn [andb].
  eexists. split; [reflexivity|].
  unfold toggleSelected. cbn [fold_left]. unfold toggleSelected1.
  cbn [hasComponent selected trigger entities].
  destruct (contains (selected em) c) eqn:C.
  - cbn [removeSelected selected with_selected trigger].
    split; [reflexivity|]. split.
    + rewrite contains_removeComponent, C. unfold contains at 1. simpl.
      now rewrite same_refl.
    + intros x Sx. rewrite contains_removeComponent. unfold contains at 2. simpl.
      rewrite Sx. simpl. now rewrite andb_true_r.
  - destruct (addSelected_selectable c noOpts (trigger (SelectBefore c) em) S)
      as (-> & _). cbn [forceChange noOpts selected trigger].
    unfold addComponent. rewrite C. split; [reflexivity|]. split.
    + rewrite contains_app. unfold contains at 2. simpl.
      now rewrite same_refl, orb_true_r.
    + intros x Sx. rewrite contains_app. unfold contains at 2. simpl.
      rewrite Sx. now rewrite !orb_false_r.
Qed.

Lemma hooks_selectionStep (em em' : EditorModel) :
  selectionStep em em' ->
  onSelectBefore em' = onSelectBefore em
  /\ multipleSelection em' = multipleSelection em.
Proof. intros (E & _). rewrite E. split; reflexivity. Qed.

Lemma forEach_multiple (doc : nat -> list Component) (ctrl shift mltSel : bool)
    (sel0 : list Component) (cs : list Component) (opts : SelectOpts)
    (em : EditorModel) :
  ctrl && mltSel = false -> shift && mltSel = false ->
  abort opts = false ->
  (forall c o, abort o = false -> abort (onSelectBefore em c o) = false) ->
  Forall (fun c => selectable c = true) cs ->
  exists opts' em',
    forEach (setSelected1 doc ctrl shift mltSel true sel0) (map Some cs) (opts, em)
      = Returned (opts', em')
    /\ forall x, contains (selected em') x = contains (selected em) x || contains cs x.
Proof.
  intros Ck Sk. revert opts em. induction cs as [|c cs IH]; intros opts em A H F.
  - exists opts, em. split; [reflexivity|]. intros x. now rewrite orb_false_r.
  - inversion F as [|? ? Sc F']; subst.
    cbn [map forEach setSelected1]. unfold checkSelectable.
    rewrite Sc, (H c opts A). cbn [negb orb]. unfold commitSelected. rewrite Ck, Sk.
    set (opts1 := onSelectBefore em c opts).
    set (em1 := addSelected [Some c] opts1 (trigger (SelectBefore c) em)).
    assert (St : selectionStep em em1).
    { eapply selectionStep_trans; [|apply selectionStep_addSelected].
      apply selectionStep_trigger. discriminate. }
    destruct (hooks_selectionStep em em1 St) as [Hk _].
    destruct (IH opts1 em1) as (opts' & em' & R & C).
    + exact (H c opts A).
    + intros c' o'. rewrite Hk. apply H.
    + exact F'.
    + exists opts', em'. split; [exact R|]. intros x. rewrite C.
      unfold em1.
      destruct (addSelected_selectable c opts1 (trigger (SelectBefore c) em) Sc)
        as (-> & _).
      rewrite contains_addComponent_eq. cbn [selected trigger entities].
      rewrite !contains_cons.
      change (contains [] x) with false. rewrite orb_false_r.
      destruct (forceChange opts1).
      * rewrite contains_removeComponent, contains_cons.
        change (contains [] x) with false. rewrite orb_false_r.
        destruct (contains (selected em) x), (same x c), (contains cs x); reflexivity.
      * now rewrite orb_assoc.
Qed.

Lemma existsb_isModel (cs : list Component) (s : Component) :
  existsb (fun e => isModel e s) (map Some cs) = contains cs s.
Proof.
  unfold contains. induction cs as [|c cs IH]; [reflexivity|].
  simpl. now rewrite IH.
Qed.

(** X19. Selecting an array replaces the selection by it.  Given an array of
    selectable entities, with no abort asked for, no listener that sets
    it and no active modifier, [setSelected] returns with exactly the
    entities of the array selected: those selected before and absent from
    it are removed. *)
Theorem array_select_replaces (doc : nat -> list Component) (cs : list Component)
    (opts : SelectOpts) (em : EditorModel) :
  Forall (fun c => selectable c = true) cs ->
  abort opts = false ->
  (forall c o, abort o = false -> abort (onSelectBefore em c o) = false) ->
  multipleSelection em = false \/ event opts = None ->
  exists opts' em',
    setSelected doc (Many (map Entity cs)) opts em = Returned (opts', em')
    /\ forall x, contains (selected em') x = contains cs x.
Proof.
  intros F A H M. unfold setSelected. cbn [isArray toList].
  rewrite map_map. cbn [getModel].
  set (ctrl := match event opts with Some ev => ctrlKey ev || metaKey ev | None => false end).
  set (shift := match event opts with Some ev => shiftKey ev | None => false end).
  assert (Ck : ctrl && multipleSelection em = false).
  { unfold ctrl. destruct M as [ -> | -> ]; rewrite ?andb_false_r; reflexivity. }
  assert (Sk : shift && multipleSelection em = false).
  { unfold shift. destruct M as [ -> | -> ]; rewrite ?andb_false_r; reflexivity. }
  set (gone := List.filter
                 (fun s => negb (existsb (fun e => isModel e s) (map Some cs)))
                 (getSelectedAll em)).
  destruct (forEach_multiple doc ctrl shift (multipleSelection em) (getSelectedAll em)
              cs opts (removeSelected gone em) Ck Sk A H F) as (opts' & em' & R & C).
  exists opts', em'. split; [exact R|]. intros x. rewrite C.
  cbn [removeSelected selected with_selected]. rewrite contains_removeComponent.
  assert (G : contains gone x = contains (selected em) x && negb (contains cs x)).
  { unfold gone.
    rewrite (contains_filter_respect _ (getSelectedAll em) x).
    - now rewrite existsb_isModel.
    - intros s Sx. rewrite !existsb_isModel. f_equal. symmetry.
      now apply contains_same. }
  rewrite G.
  destruct (contains (selected em) x), (contains cs x); reflexivity.
Qed.

Lemma selected_toggleSelected (c : Component) (opts : SelectOpts) (em : EditorModel) :
  selectable c = true ->
  selected (toggleSelected [Some c] opts em)
    = if contains (selected em) c
      then removeComponent [c] (selected em)
      else selected em ++ [c].
Proof.
  intros Sc. unfold toggleSelected. cbn [fold_left]. unfold toggleSelected1.
  cbn [hasComponent entities].
  destruct (contains (selected em) c) eqn:C; [reflexivity|].
  destruct (addSelected_selectable c opts em Sc) as (-> & _).
  destruct (forceChange opts); rewrite ?(removeComponent_absent c _ C);
    unfold addComponent; now rewrite C.
Qed.

(** X28. Toggling twice.  Toggling a selectable entity twice leaves every
    entity selected or not as it was.  An entity that was not selected is
    gone again and the Selection Set is what it was; one that was selected
    comes back at the end of the Selection Set, so that it is what
    [getSelected] returns from then on. *)
Theorem toggle_twice (c : Component) (opts : SelectOpts) (em : EditorModel) :
  selectable c = true ->
  let em' := toggleSelected [Some c] opts (toggleSelected [Some c] opts em) in
  (forall x, contains (selected em') x = contains (selected em) x)
  /\ (contains (selected em) c = false -> selected em' = selected em)
  /\ (contains (selected em) c = true ->
      selected em' = removeComponent [c] (selected em) ++ [c]
      /\ getSelected em' = Some c).
Proof.
  intros Sc em'.
  assert (E : selected em'
              = if contains (selected em) c
                then removeComponent [c] (selected em) ++ [c]
                else selected em).
  { unfold em'. rewrite !selected_toggleSelected by exact Sc.
    destruct (contains (selected em) c) eqn:C.
    - rewrite contains_removeComponent, contains_cons, same_refl.
      now rewrite andb_false_r.
    - rewrite contains_app, C, contains_cons, same_refl. cbn [orb].
      unfold removeComponent. rewrite List.filter_app. cbn [List.filter].
      rewrite contains_cons, same_refl. cbn [orb negb]. rewrite app_nil_r.
      now apply removeComponent_absent. }
  split; [|split].
  - intros x. rewrite E. destruct (contains (selected em) c) eqn:C; [|reflexivity].
    rewrite contains_app, contains_removeComponent, !contains_cons.
    change (contains [] x) with false. rewrite !orb_false_r.
    destruct (same x c) eqn:Sx.
    + now rewrite andb_false_r, (contains_same _ x c Sx), C.
    + now rewrite andb_true_r, orb_false_r.
  - intros C. now rewrite E, C.
  - intros C. rewrite E, C. split; [reflexivity|].
    unfold getSelected, lastComponent. rewrite E, C. apply last_snoc.
Qed.

(** X21. Adding in turn.  Adding, one after the other, selectable entities
    that are distinct and not selected yet appends them to the Selection
    Set in that order, and the last of them is what [getSelected] returns
    afterwards. *)
Theorem addSelected_in_order (cs : list Component) (opts : SelectOpts)
    (em : EditorModel) :
  NoDup (map cid cs) ->
  Forall (fun c => selectable c = true /\ contains (selected em) c = false) cs ->
  selected (addSelected (map Some cs) opts em) = selected em ++ cs
  /\ getSelected (addSelected (map Some cs) opts em)
     = match last cs with Some c => Some c | None => getSelected em end.
Proof.
  intros ND F.
  assert (G : selected (addSelected (map Some cs) opts em) = selected em ++ cs).
  { revert em F. induction cs as [|c cs IH]; intros em F.
    - simpl. now rewrite app_nil_r.
    - inversion F as [|? ? [Sc Cc] F']; subst.
      simpl in ND. apply NoDup_cons in ND as [Nc ND].
      change (addSelected (map Some (c :: cs)) opts em)
        with (addSelected (map Some cs) opts (addSelected [Some c] opts em)).
      assert (E1 : selected (addSelected [Some c] opts em) = selected em ++ [c]).
      { destruct (addSelected_selectable c opts em Sc) as (-> & _).
        rewrite (removeComponent_absent c _ Cc).
        destruct (forceChange opts); unfold addComponent; now rewrite Cc. }
      rewrite (IH ND).
      + rewrite E1, <- app_assoc. reflexivity.
      + apply List.Forall_forall. intros c' Hc'.
        rewrite List.Forall_forall in F'. destruct (F' c' Hc') as [Sc' Cc'].
        split; [exact Sc'|]. rewrite E1, contains_app, Cc'. unfold contains. simpl.
        rewrite orb_false_r. apply same_false. intros E. apply Nc.
        rewrite <- E. apply list_elem_of_In, in_map, Hc'. }
  split; [exact G|]. unfold getSelected, lastComponent. rewrite G.
  destruct cs as [|c cs] using rev_ind.
  - now rewrite app_nil_r.
  - now rewrite app_assoc, !last_snoc.
Qed.

(** ** Hovering *)

Lemma sameOpt_refl (v : option Component) : sameOpt v v = true.
Proof. destruct v; [apply same_refl | reflexivity]. Qed.

Lemma hovered_set_componentHovered (v : option Component) (em : EditorModel) :
  sameOpt (componentHovered (set_componentHovered v em)) v = true
  /\ selected (set_componentHovered v em) = selected em.
Proof.
  unfold set_componentHovered.
  destruct (sameOpt (componentHovered em) v) eqn:S; [now split|].
  destruct (componentHovered em), v; simpl; split;
    try reflexivity; try apply same_refl.
Qed.

(** X22. Hovering replaces in order.  Hovering a hoverable entity that no
    listener aborts, without forcing a change: if it is the entity hovered
    already, only the before-notification and the hover notification are
    triggered; otherwise it becomes the Hovered Entity, and between those
    two notifications the previous entity, if any, is announced as
    unhovered before the new one is announced as hovered. *)
Theorem hover_replaces_in_order (c : Component) (opts : SelectOpts) (em : EditorModel) :
  hoverable c = true ->
  abort (onHoverBefore em c opts) = false ->
  forceChange opts = false ->
  let em' := snd (setHovered (Entity c) opts em) in
  let again := sameOpt (componentHovered em) (Some c) in
  componentHovered em' = (if again then componentHovered em else Some c)
  /\ events em'
     = events em ++ [HoverBefore c]
       ++ (if again then []
           else match componentHovered em with
                | Some p => [Unhovered p]
                | None => []
                end ++ [Hovered c])
       ++ [Hover (Some c)]
  /\ selected em' = selected em.
Proof.
  intros H A F em' again. unfold em', setHovered. cbn [falsy getModel].
  rewrite F, H, A. cbn [negb snd]. unfold set_componentHovered.
  cbn [componentHovered trigger]. fold again.
  destruct again.
  - cbn [componentHovered events selected trigger]. rewrite <- !app_assoc.
    repeat split.
  - destruct (componentHovered em) as [p|];
      cbn [componentHovered events selected trigger with_hovered];
      rewrite <- !app_assoc; repeat split.
Qed.

(** X23. An aborted hover commits nothing.  When [abort] is set once the
    listeners of [component:hover:before] have run, [setHovered] neither
    sets the Hovered Entity nor triggers [component:hover], whatever
    [useValid] says: the Hovered Entity is what it was, or, if a change was
    forced, it is left cleared. *)
Theorem aborted_hover_commits_nothing (c : Component) (opts : SelectOpts)
    (em : EditorModel) :
  abort (onHoverBefore em c opts) = true ->
  let em0 := if forceChange opts then set_componentHovered None em else em in
  setHovered (Entity c) opts em = (onHoverBefore em c opts, trigger (HoverBefore c) em0)
  /\ componentHovered (snd (setHovered (Entity c) opts em))
     = (if forceChange opts then None else componentHovered em).
Proof.
  intros A em0.
  assert (E : setHovered (Entity c) opts em
              = (onHoverBefore em c opts, trigger (HoverBefore c) em0)).
  { unfold setHovered. cbn [falsy getModel]. rewrite A. cbn [negb].
    rewrite andb_false_r. now destruct (hoverable c). }
  split; [exact E|]. rewrite E. cbn [snd componentHovered trigger]. unfold em0.
  destruct (forceChange opts); [|reflexivity].
  unfold set_componentHovered.
  destruct (componentHovered em) eqn:P; simpl; [reflexivity | exact P].
Qed.

(** X24. Hovering climbs to a hoverable ancestor.  For an entity that is not
    hoverable, with [useValid] set and no abort, the Hovered Entity becomes
    the nearest hoverable ancestor and [component:hover] is triggered for
    it; when no ancestor is hoverable the Hovered Entity is cleared and the
    notification carries no entity. *)
Theorem hover_climbs_to_hoverable (c : Component) (opts : SelectOpts) (em : EditorModel) :
  hoverable c = false ->
  useValid (onHoverBefore em c opts) = true ->
  abort (onHoverBefore em c opts) = false ->
  let em' := snd (setHovered (Entity c) opts em) in
  let target := List.find hoverable (ancestors c) in
  sameOpt (componentHovered em') target = true
  /\ last (events em') = Some (Hover target)
  /\ selected em' = selected em.
Proof.
  intros H U A em' target. unfold em', setHovered. cbn [falsy getModel].
  rewrite H, U, A. cbn [negb andb snd]. rewrite validParent_nearest. fold target.
  set (em1 := if forceChange opts then set_componentHovered None em else em).
  assert (S1 : selected em1 = selected em).
  { unfold em1. destruct (forceChange opts); [|reflexivity].
    apply hovered_set_componentHovered. }
  destruct (hovered_set_componentHovered target (trigger (HoverBefore c) em1))
    as [Hh Hs].
  cbn [componentHovered selected events trigger]. split; [exact Hh|].
  split; [apply last_snoc|]. rewrite Hs. exact S1.
Qed.

Lemma hover_rest_set (v : option Component) (em : EditorModel) :
  let em' := set_componentHovered v em in
  em' = with_events (events em') (with_hovered (componentHovered em') em).
Proof.
  unfold set_componentHovered.
  destruct (sameOpt (componentHovered em) v); [now destruct em|].
  destruct (componentHovered em), v; reflexivity.
Qed.

(** X25. Hovering touches the hover only.  [setHovered] leaves the instance
    as it was but for the Hovered Entity and the log of events: the
    Selection Set and the counter of changes are the same afterwards. *)
Theorem hover_leaves_rest (el : Target) (opts : SelectOpts) (em : EditorModel) :
  let em' := snd (setHovered el opts em) in
  em' = with_events (events em') (with_hovered (componentHovered em') em).
Proof.
  assert (T : forall ev e0,
            e0 = with_events (events e0) (with_hovered (componentHovered e0) em) ->
            trigger ev e0
              = with_events (events (trigger ev e0))
                  (with_hovered (componentHovered (trigger ev e0)) em)).
  { intros ev e0 E. rewrite E at 1. reflexivity. }
  assert (V : forall v e0,
            e0 = with_events (events e0) (with_hovered (componentHovered e0) em) ->
            set_componentHovered v e0
              = with_events (events (set_componentHovered v e0))
                  (with_hovered (componentHovered (set_componentHovered v e0)) em)).
  { intros v e0 E. rewrite (hover_rest_set v e0) at 1. rewrite E at 3. reflexivity. }
  assert (E0 : em = with_events (events em) (with_hovered (componentHovered em) em))
    by now destruct em.
  unfold setHovered. destruct el as [| |c]; cbn [falsy getModel snd].
  - now apply V.
  - exact E0.
  - set (em1 := if forceChange opts then set_componentHovered None em else em).
    assert (E1 : em1 = with_events (events em1)
                         (with_hovered (componentHovered em1) em)).
    { unfold em1. destruct (forceChange opts); [now apply V | exact E0]. }
    destruct (hoverable c); cbn [negb];
      [|destruct (useValid _ && negb (abort _))];
      try destruct (abort (onHoverBefore em c opts)); cbn [snd];
      try (apply T, E1); apply T, V, T, E1.
Qed.

(** ** Candidates that cannot be selected *)

Lemma commit_nothing (doc : nat -> list Component) (ctrl shift mltSel multiple : bool)
    (sel0 : list Component) (opts : SelectOpts) (em : EditorModel) :
  ctrl && mltSel = true \/ (shift && mltSel = false /\ multiple = true) ->
  commitSelected doc ctrl shift mltSel multiple sel0 opts em None = Returned (opts, em).
Proof.
  intros H. unfold commitSelected.
  destruct (ctrl && mltSel) eqn:C.
  - now rewrite (toggleSelected_skips None noOpts em I).
  - destruct H as [H | [-> ->]]; [discriminate|].
    now rewrite (addSelected_skips None opts em I).
Qed.

Lemma commit_nothing_plain (doc : nat -> list Component) (ctrl shift mltSel : bool)
    (opts : SelectOpts) (em : EditorModel) :
  ctrl && mltSel = false -> shift && mltSel = false ->
  commitSelected doc ctrl shift mltSel false (selected em) opts em None
    = Returned (opts, with_selected [] em).
Proof.
  intros C Sh. unfold commitSelected. rewrite C, Sh.
  rewrite (addSelected_skips None opts _ I).
  unfold removeSelected. cbn [isModel negb].
  rewrite (filter_all _ (selected em)) by reflexivity.
  now rewrite removeComponent_all.
Qed.

(** C6, as stated, fails.  With the row selected: a locked entity without
    any selectable ancestor, given with [useValid], is not dropped, the
    call goes on and empties the Selection Set; and with the control key
    down the nearest selectable ancestor of a locked cell, the row, is not
    selected in its place but toggled, here out of the Selection Set. *)
Lemma unselectable_not_dropped :
  let em := with_selected [row] someEditor in
  selectable note = false
  /\ useValid validOpts = true
  /\ List.find selectable (ancestors note) = None
  /\ selected (snd (state_of (setSelected someDoc (One (Entity note)) validOpts em))) = []
  /\ selectable cell = false
  /\ List.find selectable (ancestors cell) = Some row
  /\ selected (snd (state_of (setSelected someDoc (One (Entity cell)) ctrlValidOpts em)))
     = [].
Proof. vm_compute. repeat split. Qed.

(** C6, amended.  A candidate that is not selectable, in any call of
    [setSelected].  Without [useValid] the callback returns after the
    before-notification and the Selection Set is what it was.  With
    [useValid] the nearest selectable ancestor goes on in the candidate's
    place: the control key toggles it, the range modifier makes it the
    candidate of the range, a plain call with an array adds it, and a plain
    call with a single target leaves it selected and alone.  When no
    ancestor is selectable the callback goes on without an entity: a
    toggle and a plain call with an array then change nothing, and a plain
    call with a single target leaves the Selection Set empty. *)
Theorem unselectable_candidate (doc : nat -> list Component)
    (opts : SelectOpts) (em : EditorModel) (c : Component)
    (ctrl shift mlt multiple : bool) (sel0 : list Component) :
  selectable c = false ->
  let opts1 := onSelectBefore em c opts in
  let em1 := trigger (SelectBefore c) em in
  let r := setSelected1 doc ctrl shift mlt multiple sel0 (opts, em) (Some c) in
  setSelected doc (One (Entity c)) opts em
    = setSelected1 doc
        (match event opts with Some ev => ctrlKey ev || metaKey ev | None => false end)
        (match event opts with Some ev => shiftKey ev | None => false end)
        (multipleSelection em) false (selected em) (opts, em) (Some c)
  /\ (useValid opts1 = false ->
      r = Returned (opts1, em1) /\ selected em1 = selected em)
  /\ (useValid opts1 = true ->
      forall p, List.find selectable (ancestors c) = Some p ->
        selectable p = true
        /\ (ctrl && mlt = true ->
            r = Returned (opts1, toggleSelected [Some p] noOpts em1)
            /\ selected (toggleSelected [Some p] noOpts em1)
               = if contains (selected em) p
                 then removeComponent [p] (selected em)
                 else selected em ++ [p])
        /\ (ctrl && mlt = false -> shift && mlt = true ->
            r = match selectRange doc p em1 with
                | Returned e => Returned (opts1, e)
                | Thrown e => Thrown (opts1, e)
                end)
        /\ (ctrl && mlt = false -> shift && mlt = false -> multiple = true ->
            exists em',
              r = Returned (opts1, em')
              /\ forall x, contains (selected em') x
                           = contains (selected em) x || same x p)
        /\ (ctrl && mlt = false -> shift && mlt = false -> multiple = false ->
            sel0 = selected em ->
            exists em',
              r = Returned (opts1, em')
              /\ contains (selected em') p = true
              /\ forall x, In x (selected em') -> same x p = true))
  /\ (useValid opts1 = true ->
      List.find selectable (ancestors c) = None ->
      (ctrl && mlt = true \/ (shift && mlt = false /\ multiple = true) ->
       r = Returned (opts1, em1))
      /\ (ctrl && mlt = false -> shift && mlt = false -> multiple = false ->
          sel0 = selected em ->
          r = Returned (opts1, with_selected [] em1))).
Proof.
  intros Sc opts1 em1 r.
  assert (G : useValid opts1 = true ->
              r = commitSelected doc ctrl shift mlt multiple sel0
                    opts1 em1 (List.find selectable (ancestors c))).
  { intros U. unfold r, setSelected1, checkSelectable. fold opts1 em1.
    now rewrite Sc, U, validParent_nearest. }
  split; [|split; [|split]].
  - unfold setSelected. cbn [isArray toList map getModel forEach].
    change (getSelectedAll em) with (selected em).
    match goal with |- match ?t with _ => _ end = _ => destruct t end; reflexivity.
  - intros U. split; [|reflexivity].
    unfold r, setSelected1, checkSelectable. fold opts1. now rewrite Sc, U.
  - intros U p F. rewrite (G U), F.
    pose proof (proj2 (find_some _ _ F)) as Sp.
    split; [exact Sp|]. split; [|split; [|split]].
    + intros C. unfold commitSelected. rewrite C. split; [reflexivity|].
      now rewrite (selected_toggleSelected p noOpts em1 Sp).
    + intros C Sh. unfold commitSelected. now rewrite C, Sh.
    + intros C Sh ->. unfold commitSelected. rewrite C, Sh.
      eexists. split; [reflexivity|]. intros x.
      destruct (addSelected_selectable p opts1 em1 Sp) as (-> & _).
      rewrite contains_addComponent_eq. cbn [entities].
      rewrite contains_cons. change (contains [] x) with false. rewrite orb_false_r.
      change (selected em1) with (selected em).
      destruct (forceChange opts1); [|reflexivity].
      rewrite contains_removeComponent, contains_cons.
      change (contains [] x) with false. rewrite orb_false_r.
      now destruct (contains (selected em) x), (same x p).
    + intros C Sh -> ->.
      destruct (commit_plain_selects doc ctrl shift mlt opts1 em1 p C Sh Sp)
        as (em' & R & H1 & H2 & _).
      change (selected em1) with (selected em) in R. rewrite R. eauto.
  - intros U F. rewrite (G U), F. split.
    + intros H. now apply commit_nothing.
    + intros C Sh -> ->. change (selected em) with (selected em1).
      now apply commit_nothing_plain.
Qed.

Lemma unselectable_candidate_witness :
  selectable cell = false
  /\ setSelected someDoc (One (Entity cell)) noOpts someEditor
     = Returned (noOpts, trigger (SelectBefore cell) someEditor)
  /\ setSelected someDoc (One (Entity note)) validOpts (with_selected [row] someEditor)
     = Returned (validOpts,
         with_selected [] (trigger (SelectBefore note) (with_selected [row] someEditor))).
Proof.
  split; [reflexivity|].
  pose proof (unselectable_candidate someDoc noOpts someEditor cell
                false false true false [] eq_refl) as (E1 & H1 & _).
  pose proof (unselectable_candidate someDoc validOpts (with_selected [row] someEditor)
                note false false true false [row] eq_refl) as (E2 & _ & _ & H2).
  split.
  - rewrite E1. exact (proj1 (H1 eq_refl)).
  - rewrite E2. exact (proj2 (H2 eq_refl eq_refl) eq_refl eq_refl eq_refl eq_refl).
Defined.

(** ** Invalid input *)

(** In the range branch the entity is used unguarded: a range call with
    nothing to select raises. *)
Example range_call_without_entity_raises :
  raised (setSelected someDoc (One Unresolved) shiftOpts
            (with_selected [row] someEditor)) = true.
Proof. reflexivity. Qed.

(** C9, as stated, fails.  With the row selected and hovered: a target
    that resolves to no entity is not skipped by a plain call of
    [setSelected], which leaves the Selection Set empty; and a locked
    entity without any valid ancestor, given with [useValid], empties the
    Selection Set and clears the Hovered Entity. *)
Lemma invalid_input_clears :
  let em := with_hovered (Some row) (with_selected [row] someEditor) in
  selected em = [row]
  /\ componentHovered em = Some row
  /\ getModel Unresolved = None
  /\ selected (snd (state_of (setSelected someDoc (One Unresolved) noOpts em))) = []
  /\ selectable note = false /\ hoverable note = false
  /\ List.find selectable (ancestors note) = None
  /\ List.find hoverable (ancestors note) = None
  /\ selected (snd (state_of (setSelected someDoc (One (Entity note)) validOpts em))) = []
  /\ componentHovered (snd (setHovered (Entity note) validOpts em)) = None.
Proof. vm_compute. repeat split. Qed.

(** C9, amended.  Invalid input is skipped, no error is raised and the
    Selection Set and the Hovered Entity are what they were, in all of
    these cases: a target that resolves to no entity, given to
    [addSelected], [removeSelected], [toggleSelected] or [setHovered], or
    to [setSelected] with the control key down or inside an array without
    the range modifier; an entity that is not selectable, given to
    [addSelected], to [toggleSelected] when it is not selected, to
    [setSelected] without [useValid], or to [setSelected] with [useValid]
    and no selectable ancestor with the control key down or inside an
    array without the range modifier; an entity that is not hoverable,
    given to [setHovered] without a forced change when [useValid] is unset
    or [abort] is set.  Not skipped are: a plain single-target
    [setSelected] with no entity to select, which leaves the Selection Set
    empty; [setHovered] with [useValid] when no ancestor is hoverable, and
    with a forced change on an entity it does not hover, which clear the
    Hovered Entity; and a selected entity given to [toggleSelected], which
    is taken out whether it is selectable or not.  The range modifier with
    no entity to select is left out. *)
Theorem invalid_targets_skipped (doc : nat -> list Component)
    (opts : SelectOpts) (em : EditorModel) (c : Component) :
  let ctrl := match event opts with Some ev => ctrlKey ev || metaKey ev | None => false end in
  let shift := match event opts with Some ev => shiftKey ev | None => false end in
  let mlt := multipleSelection em in
  let opts1 := onSelectBefore em c opts in
  let em1 := trigger (SelectBefore c) em in
  let optsh := onHoverBefore em c opts in
  (addSelected [None] opts em = em
   /\ removeSelected (entities None) em = em
   /\ toggleSelected [None] opts em = em
   /\ setHovered Unresolved opts em = (opts, em)
   /\ (forall ctrl' shift' mltSel multiple sel0,
         ctrl' && mltSel = true \/ (shift' && mltSel = false /\ multiple = true) ->
         setSelected1 doc ctrl' shift' mltSel multiple sel0 (opts, em) None
           = Returned (opts, em))
   /\ (forall el, getModel el = None -> ctrl && mlt = true ->
         setSelected doc (One el) opts em = Returned (opts, em)))
  /\ ((selectable c = false -> addSelected [Some c] opts em = em)
      /\ (selectable c = false -> contains (selected em) c = false ->
          toggleSelected [Some c] opts em = em)
      /\ (selectable c = false -> useValid opts1 = false ->
          selected em1 = selected em
          /\ componentHovered em1 = componentHovered em
          /\ forall ctrl' shift' mltSel multiple sel0,
               setSelected1 doc ctrl' shift' mltSel multiple sel0 (opts, em) (Some c)
                 = Returned (opts1, em1))
      /\ (selectable c = false -> useValid opts1 = true ->
          List.find selectable (ancestors c) = None ->
          forall ctrl' shift' mltSel multiple sel0,
            ctrl' && mltSel = true \/ (shift' && mltSel = false /\ multiple = true) ->
            setSelected1 doc ctrl' shift' mltSel multiple sel0 (opts, em) (Some c)
              = Returned (opts1, em1)))
  /\ (hoverable c = false -> forceChange opts = false ->
      useValid optsh = false \/ abort optsh = true ->
      setHovered (Entity c) opts em = (optsh, trigger (HoverBefore c) em))
  /\ ((forall el, getModel el = None -> ctrl && mlt = false -> shift && mlt = false ->
         setSelected doc (One el) opts em = Returned (opts, with_selected [] em))
      /\ (selectable c = false -> useValid opts1 = true ->
          List.find selectable (ancestors c) = None ->
          ctrl && mlt = false -> shift && mlt = false ->
          setSelected doc (One (Entity c)) opts em
            = Returned (opts1, with_selected [] em1))
      /\ (hoverable c = false -> useValid optsh = true -> abort optsh = false ->
          List.find hoverable (ancestors c) = None ->
          componentHovered (snd (setHovered (Entity c) opts em)) = None)
      /\ (hoverable c = false -> forceChange opts = true ->
          useValid optsh = false \/ abort optsh = true ->
          componentHovered (snd (setHovered (Entity c) opts em)) = None)
      /\ (contains (selected em) c = true ->
          toggleSelected [Some c] opts em = removeSelected [c] em)).
Proof.
  intros ctrl shift mlt opts1 em1 optsh.
  assert (N1 : forall el, getModel el = None ->
            setSelected doc (One el) opts em
              = commitSelected doc ctrl shift mlt false (selected em) opts em None).
  { intros el G. unfold setSelected. cbn [isArray toList map forEach setSelected1].
    rewrite G. fold ctrl shift mlt.
    change (getSelectedAll em) with (selected em).
    now destruct (commitSelected doc ctrl shift mlt false (selected em) opts em None). }
  assert (G1 : selectable c = false -> useValid opts1 = true ->
            List.find selectable (ancestors c) = None ->
            checkSelectable c opts1 = GoOn None).
  { intros Sc U F. unfold checkSelectable. now rewrite Sc, U, validParent_nearest, F. }
  split; [|split; [|split]].
  - split; [apply (addSelected_skips None); exact I|].
    split; [apply removeSelected_nil|].
    split; [apply (toggleSelected_skips None); exact I|].
    split; [reflexivity|]. split.
    + intros. cbn [setSelected1]. now apply commit_nothing.
    + intros el G C. rewrite (N1 el G). apply commit_nothing. now left.
  - split; [intros Sc; now apply (addSelected_skips (Some c))|].
    split; [intros Sc C; now apply (toggleSelected_skips (Some c))|].
    split.
    + intros Sc U. split; [reflexivity|]. split; [reflexivity|]. intros.
      unfold setSelected1, checkSelectable. fold opts1. now rewrite Sc, U.
    + intros Sc U F ctrl' shift' mltSel multiple sel0 H.
      cbn [setSelected1]. fold opts1 em1. rewrite (G1 Sc U F).
      now apply commit_nothing.
  - intros H F U. unfold setHovered. cbn [falsy getModel]. fold optsh.
    rewrite F, H. cbn [negb].
    destruct U as [ -> | -> ]; [reflexivity|]. now rewrite andb_false_r.
  - split; [|split; [|split; [|split]]].
    + intros el G C Sh. rewrite (N1 el G). now apply commit_nothing_plain.
    + intros Sc U F C Sh.
      rewrite (setSelected_goes_on doc c opts em None (G1 Sc U F)).
      fold ctrl shift mlt opts1 em1. change (selected em) with (selected em1).
      now apply commit_nothing_plain.
    + intros H U A F. unfold setHovered. cbn [falsy getModel]. fold optsh.
      rewrite H, U, A. cbn [negb andb snd]. rewrite validParent_nearest, F.
      cbn [componentHovered trigger].
      destruct (hovered_set_componentHovered None
                  (trigger (HoverBefore c)
                     (if forceChange opts then set_componentHovered None em else em)))
        as [Hh _].
      destruct (componentHovered (set_componentHovered None _)); [discriminate|reflexivity].
    + intros H F U. unfold setHovered. cbn [falsy getModel]. fold optsh.
      rewrite F, H. cbn [negb].
      assert (Hn : componentHovered (set_componentHovered None em) = None).
      { destruct (hovered_set_componentHovered None em) as [Hh _].
        destruct (componentHovered (set_componentHovered None em));
          [discriminate|reflexivity]. }
      destruct U as [ -> | -> ]; [exact Hn|]. rewrite andb_false_r. exact Hn.
    + intros C. unfold toggleSelected. cbn [fold_left]. unfold toggleSelected1.
      cbn [hasComponent entities]. now rewrite C.
Qed.

Lemma invalid_targets_skipped_witness :
  selectable cell = false
  /\ hoverable cell = false
  /\ addSelected [Some cell] noOpts someEditor = someEditor
  /\ setHovered (Entity cell) noOpts someEditor
     = (noOpts, trigger (HoverBefore cell) someEditor)
  /\ setSelected someDoc (One Unresolved) ctrlOpts (with_selected [row] someEditor)
     = Returned (ctrlOpts, with_selected [row] someEditor).
Proof.
  split; [reflexivity|]. split; [reflexivity|].
  pose proof (invalid_targets_skipped someDoc noOpts someEditor cell)
    as (_ & (A & _) & H & _).
  split; [exact (A eq_refl)|].
  split; [exact (H eq_refl eq_refl (or_introl eq_refl))|].
  exact (proj2 (proj2 (proj2 (proj2 (proj2 (proj1
           (invalid_targets_skipped someDoc ctrlOpts (with_selected [row] someEditor)
              cell))))))
         Unresolved eq_refl eq_refl).
Defined.

(** ** The shallow instance never counts *)

Lemma isShallow_same (w w' : World) (s : nat) :
  editors w' = editors w -> isShallow w' s <-> isShallow w s.
Proof. unfold isShallow. now intros ->. Qed.

Lemma primary_same (w w' : World) (e : nat) :
  editors w' = editors w -> primary w' e <-> primary w e.
Proof. unfold primary, isShallow. now intros ->. Qed.

Lemma unready_same (w w' : World) (s : nat) :
  editors w' = editors w -> unready w' s <-> unready w s.
Proof. unfold unready. now intros ->. Qed.

Lemma secluded_timers (w w' : World) :
  editors w' = editors w -> requests w' = requests w ->
  (forall p, In p (timers w') ->
     In p (timers w) \/ forall e, target (snd p) = Some e -> primary w e) ->
  secluded w -> secluded w'.
Proof.
  intros E Q T (S1 & S2 & S3). split; [|split].
  - intros s Hs. apply (unready_same w w' s E), S1. now apply (isShallow_same w w' s E).
  - apply List.Forall_forall. intros p Hp e He. apply (primary_same w w' e E).
    rewrite List.Forall_forall in S2. destruct (T p Hp) as [H|H]; eauto.
  - rewrite Q. eapply List.Forall_impl; [|exact S3]. simpl. intros r H L.
    now apply (primary_same w w' _ E), H.
Qed.

Lemma secluded_requests (w w' : World) :
  editors w' = editors w -> timers w' = timers w ->
  (forall r, In r (requests w') ->
     In r (requests w) \/ (isLoad (req_kind r) = true -> primary w (req_em r))) ->
  secluded w -> secluded w'.
Proof.
  intros E T Q (S1 & S2 & S3). split; [|split].
  - intros s Hs. apply (unready_same w w' s E), S1. now apply (isShallow_same w w' s E).
  - rewrite T. eapply List.Forall_impl; [|exact S2]. simpl. intros p H e He.
    now apply (primary_same w w' _ E), H.
  - apply List.Forall_forall. intros r Hr L. apply (primary_same w w' _ E).
    rewrite List.Forall_forall in S3. destruct (Q r Hr) as [H|H]; eauto.
Qed.

Lemma secluded_same (w w' : World) :
  editors w' = editors w -> timers w' = timers w -> requests w' = requests w ->
  secluded w -> secluded w'.
Proof.
  intros E T Q. apply secluded_timers; [exact E | exact Q|].
  intros p Hp. left. now rewrite <- T.
Qed.

Lemma secluded_clearTimeout (id : nat) (w : World) :
  secluded w -> secluded (clearTimeout id w).
Proof.
  apply secluded_timers; [reflexivity | reflexivity|].
  intros p Hp. left. simpl in Hp. now apply filter_In in Hp.
Qed.

Lemma secluded_clearHandle (h : option nat) (w : World) :
  secluded w -> secluded (clearHandle h w).
Proof. destruct h; [apply secluded_clearTimeout | auto]. Qed.

Lemma secluded_setTimeout (t : Task) (w : World) :
  (forall e, target t = Some e -> primary w e) ->
  secluded w -> secluded (snd (setTimeout t w)).
Proof.
  intros H. apply secluded_timers; [reflexivity | reflexivity|].
  intros p Hp. simpl in Hp. apply in_app_iff in Hp as [Hp | [ <- | []]]; [now left|].
  right. exact H.
Qed.

Lemma secluded_addRequest (r : Request) (w : World) :
  (isLoad (req_kind r) = true -> primary w (req_em r)) ->
  secluded w -> secluded (with_requests (requests w ++ [r]) w).
Proof.
  intros H. apply secluded_requests; [reflexivity | reflexivity|].
  intros q Hq. simpl in Hq. apply in_app_iff in Hq as [Hq | [ <- | []]]; [now left|].
  right. exact H.
Qed.

Lemma In_delete (k : nat) (l : list Request) (r : Request) :
  In r (delete k l) -> In r l.
Proof.
  revert k. induction l as [|x l IH]; intros k H; [destruct k; exact H|].
  destruct k as [|k]; simpl in H; [now right|].
  destruct H as [ <- | H]; [now left | right; eauto].
Qed.

Lemma secluded_delRequest (k : nat) (w : World) :
  secluded w -> secluded (with_requests (delete k (requests w)) w).
Proof.
  apply secluded_requests; [reflexivity | reflexivity|].
  intros r Hr. left. simpl in Hr. eapply In_delete, Hr.
Qed.

(** *** Changes of one instance *)

Lemma isShallow_update (e : nat) (f : EditorModel -> EditorModel) (w : World) (s : nat) :
  (forall em, shallow (f em) = shallow em) ->
  isShallow (update_editor e f w) s <-> isShallow w s.
Proof.
  intros Hf. unfold isShallow. split; intros (p & em & E & Sh).
  - destruct (Nat.eq_dec e p) as [ <- | Hne].
    + rewrite lookup_update_editor_eq in E.
      destruct (editors w !! e) as [em0|] eqn:E0; [|discriminate].
      injection E as <-. exists e, em0. split; [exact E0|]. now rewrite <- Hf.
    + rewrite lookup_update_editor_ne in E by exact Hne. eauto.
  - destruct (Nat.eq_dec e p) as [ <- | Hne].
    + exists e, (f em). rewrite lookup_update_editor_eq, E. split; [reflexivity|].
      now rewrite Hf.
    + exists p, em. now rewrite lookup_update_editor_ne.
Qed.

Lemma length_update_editor (e : nat) (f : EditorModel -> EditorModel) (w : World) :
  length (editors (update_editor e f w)) = length (editors w).
Proof.
  unfold update_editor. destruct (editors w !! e); [|reflexivity].
  simpl. apply length_insert.
Qed.

Lemma primary_update (e : nat) (f : EditorModel -> EditorModel) (w : World) (x : nat) :
  (forall em, shallow (f em) = shallow em) ->
  primary (update_editor e f w) x <-> primary w x.
Proof.
  intros Hf. unfold primary. rewrite length_update_editor.
  now rewrite (isShallow_update e f w x Hf).
Qed.

Lemma secluded_update (e : nat) (f : EditorModel -> EditorModel) (w : World) :
  (forall em, shallow (f em) = shallow em) ->
  (isShallow w e ->
   forall em, readyLoad em = false -> ready em = false -> changesCount em = 0 ->
              readyLoad (f em) = false /\ ready (f em) = false
              /\ changesCount (f em) = 0) ->
  secluded w -> secluded (update_editor e f w).
Proof.
  intros Hf Hr (S1 & S2 & S3).
  destruct (timers_update_editor e f w) as (T & _ & _ & Q).
  split; [|split].
  - intros s Hs. apply (isShallow_update e f w s Hf) in Hs.
    destruct (S1 s Hs) as (em & E & Rl & R & Cc). unfold unready.
    destruct (Nat.eq_dec e s) as [ -> | Hne].
    + exists (f em). rewrite lookup_update_editor_eq, E. split; [reflexivity|].
      now apply Hr.
    + exists em. now rewrite lookup_update_editor_ne.
  - rewrite T. eapply List.Forall_impl; [|exact S2]. simpl. intros p H x Hx.
    now apply (primary_update e f w x Hf), H.
  - rewrite Q. eapply List.Forall_impl; [|exact S3]. simpl. intros r H L.
    now apply (primary_update e f w _ Hf), H.
Qed.

(** An update that leaves the readiness and the counter of the instance
    alone. *)
Lemma secluded_update_flags (e : nat) (f : EditorModel -> EditorModel) (w : World) :
  (forall em, shallow (f em) = shallow em /\ readyLoad (f em) = readyLoad em
              /\ (readyLoad em = false -> ready (f em) = ready em)
              /\ changesCount (f em) = changesCount em) ->
  secluded w -> secluded (update_editor e f w).
Proof.
  intros Hf. apply secluded_update; [intros em; apply Hf|].
  intros _ em Rl R Cc. destruct (Hf em) as (_ & H1 & H2 & H3).
  now rewrite H1, (H2 Rl), H3.
Qed.

(** An update of an instance that is nobody's shallow instance. *)
Lemma secluded_update_primary (e : nat) (f : EditorModel -> EditorModel) (w : World) :
  (forall em, shallow (f em) = shallow em) ->
  ~ isShallow w e ->
  secluded w -> secluded (update_editor e f w).
Proof. intros Hf N. apply secluded_update; [exact Hf | intros H; contradiction]. Qed.

(** *** The operations of the page *)

Lemma secluded_store (e : nat) (rs rj : option nat) (w : World) :
  secluded w -> secluded (store e rs rj w).
Proof.
  intros S. unfold store. destruct (editors w !! e) as [em|]; [|exact S].
  destruct (sm em); [|exact S]. apply secluded_addRequest; [discriminate | exact S].
Qed.

Lemma secluded_load (e : nat) (w : World) :
  primary w e -> secluded w -> secluded (load e w).
Proof.
  intros P S. unfold load. destruct (editors w !! e) as [em|]; [|exact S].
  destruct (sm em); [|exact S]. apply secluded_addRequest; [intros _; exact P | exact S].
Qed.

Lemma secluded_trigger (e : nat) (ev : Event) (w : World) :
  secluded w -> secluded (update_editor e (trigger ev) w).
Proof. apply secluded_update_flags. intros em. repeat split. Qed.

Lemma secluded_updateChanges (e : nat) (w : World) :
  secluded w -> secluded (updateChanges e w).
Proof.
  intros S. unfold updateChanges. destruct (editors w !! e) as [em|]; [|exact S].
  assert (S2 : secluded (snd (setTimeout (TriggerUpdate e) (clearHandle (updateItr w) w)))).
  { apply secluded_setTimeout; [discriminate|]. now apply secluded_clearHandle. }
  destruct (setTimeout (TriggerUpdate e) (clearHandle (updateItr w) w)) as [id w2].
  simpl in S2.
  assert (S4 : secluded
                 (if noticeOnUnload em
                  then with_onbeforeunload (negb (changesCount em =? 0))
                         (with_updateItr (Some id) w2)
                  else with_updateItr (Some id) w2)).
  { destruct (noticeOnUnload em);
      (eapply secluded_same; [| | |exact S2]; reflexivity). }
  destruct (sm em) as [stm|].
  - destruct (isAutosave stm && (getStepsBeforeSave stm <=? changesCount em));
      [now apply secluded_store | exact S4].
  - now apply secluded_trigger.
Qed.

(** The counter of a shallow instance is only ever set to what it is. *)
Lemma secluded_set_changesCount (e : nat) (v : Z) (q : bool) (w : World) :
  v = 0 \/ primary w e ->
  secluded w -> secluded (set_changesCount e v q w).
Proof.
  intros Hv S. unfold set_changesCount.
  destruct (editors w !! e) as [em|] eqn:E; [|exact S].
  destruct (Z.eqb_spec (changesCount em) v) as [_|Hne]; [exact S|].
  assert (N : ~ isShallow w e).
  { destruct Hv as [ -> | [_ N]]; [|exact N].
    intros Hs. destruct S as (S1 & _). destruct (S1 e Hs) as (em' & E' & _ & _ & Cc).
    congruence. }
  assert (S1 : secluded (update_editor e (with_changesCount v) w)).
  { apply secluded_update_primary; [reflexivity | exact N | exact S]. }
  destruct q; [exact S1 | now apply secluded_updateChanges].
Qed.

Lemma shallow_set_readyLoad (v : bool) (em : EditorModel) :
  shallow (set_readyLoad v em) = shallow em.
Proof.
  unfold set_readyLoad, _checkReady. destruct (Bool.eqb _ _); [reflexivity|].
  cbn [readyLoad readyCanvas ready with_readiness].
  now destruct (v && readyCanvas em && negb (ready em)).
Qed.

Lemma secluded_postLoad (e : nat) (w : World) :
  primary w e -> secluded w -> secluded (postLoad e w).
Proof.
  intros [_ N]. apply secluded_update_primary; [|exact N].
  intros em. apply shallow_set_readyLoad.
Qed.

Lemma secluded_run_task (t : Task) (w : World) :
  (forall e, target t = Some e -> primary w e) ->
  secluded w -> secluded (run_task t w).
Proof.
  intros P S. destruct t as [e o|e|e]; simpl.
  - destruct (editors w !! e); [|exact S].
    apply secluded_set_changesCount; [right; now apply P | exact S].
  - now apply secluded_trigger.
  - specialize (P e eq_refl).
    destruct (editors w !! e) as [em|]; [|exact S].
    destruct (sm em) as [stm|]; [|now apply secluded_postLoad].
    destruct (canAutoload stm); [now apply secluded_load | now apply secluded_postLoad].
Qed.

Lemma secluded_fire (id : nat) (w : World) : secluded w -> secluded (fire id w).
Proof.
  intros S. unfold fire.
  destruct (List.find _ (timers w)) as [[i t]|] eqn:F; [|exact S].
  apply find_some in F as [F _].
  apply secluded_run_task; [|now apply secluded_clearTimeout].
  intros e He. apply (primary_same w (clearTimeout id w) e eq_refl).
  destruct S as (_ & S2 & _). rewrite List.Forall_forall in S2.
  exact (S2 (i, t) F e He).
Qed.

Lemma secluded_turn (w : World) : secluded w -> secluded (turn w).
Proof.
  unfold turn. generalize (timers w) as l. intros l. revert w.
  induction l as [|p l IH]; intros w S; [exact S|].
  simpl. now apply IH, secluded_fire.
Qed.

(** On a secluded page whoever is ready is nobody's shallow instance. *)
Lemma ready_primary (w : World) (e : nat) (em : EditorModel) :
  secluded w -> editors w !! e = Some em -> ready em = true -> primary w e.
Proof.
  intros (S1 & _) E R. split; [eapply lookup_lt_Some, E|].
  intros Hs. destruct (S1 e Hs) as (em' & E' & _ & R' & _). congruence.
Qed.

Lemma secluded_handleUpdates (e : nat) (o : Opts) (w : World) :
  secluded w -> secluded (handleUpdates e o w).
Proof.
  intros S. unfold handleUpdates. destruct (editors w !! e) as [em|] eqn:E; [|exact S].
  destruct (ignored em o) eqn:I; [exact S|].
  assert (R : ready em = true).
  { unfold ignored in I. destruct (ready em); [reflexivity|].
    now rewrite !orb_true_r in I. }
  pose proof (ready_primary w e em S E R) as P.
  assert (S2 : secluded (snd (setTimeout (IncChanges e o)
                                (clearHandle (timedInterval w) w)))).
  { apply secluded_setTimeout; [|now apply secluded_clearHandle].
    intros x Hx. injection Hx as <-.
    apply (primary_same w (clearHandle (timedInterval w) w) e); [|exact P].
    now destruct (timedInterval w). }
  destruct (setTimeout (IncChanges e o) (clearHandle (timedInterval w) w)) as [id w2].
  eapply secluded_same; [| | |exact S2]; reflexivity.
Qed.

Lemma secluded_call (cb : option nat) (arg : string) (e : nat) (w : World) :
  secluded w -> secluded (call cb arg e w).
Proof. destruct cb; simpl; [apply secluded_trigger | auto]. Qed.

Lemma secluded_answer (k : nat) (r : Report) (w : World) :
  secluded w -> secluded (answer k r w).
Proof.
  intros S. unfold answer. destruct (requests w !! k) as [req|] eqn:Q; [|exact S].
  pose proof (secluded_delRequest k w S) as S1.
  destruct (req_kind req) eqn:K, r.
  - apply secluded_set_changesCount; [now left | now apply secluded_call].
  - now apply secluded_call.
  - apply secluded_postLoad; [|exact S1].
    apply (primary_same w _ _ eq_refl).
    destruct S as (_ & _ & S3). rewrite List.Forall_forall in S3.
    apply (S3 req); [eapply lookup_In, Q | now rewrite K].
  - now apply secluded_trigger.
Qed.

Lemma flags_loadModule (m : Module) (em : EditorModel) :
  flags (loadModule m em) = flags em.
Proof.
  unfold loadModule.
  repeat match goal with |- context [if ?b then _ else _] => destruct b end;
    reflexivity.
Qed.

Lemma flags_loadModules (deps : list Module) (em : EditorModel) :
  flags (loadModules deps em) = flags em.
Proof.
  revert em. induction deps as [|m deps IH]; intros em; [reflexivity|].
  change (loadModules (m :: deps) em) with (loadModules deps (loadModule m em)).
  now rewrite IH, flags_loadModule.
Qed.

Lemma secluded_new (deps : list Module) (stm : option StorageManager)
    (notice mlt : bool) (w : World) :
  secluded w -> secluded (snd (newEditorModel deps stm notice mlt w)).
Proof.
  intros (S1 & S2 & S3). cbn [newEditorModel snd].
  set (x := loadModules deps (freshEditor stm notice mlt)).
  assert (Fx : flags x = (None, false, false, false, 0))
    by (unfold x; now rewrite flags_loadModules).
  assert (Sh : forall s, isShallow (with_editors (editors w ++ [x]) w) s
                         <-> isShallow w s).
  { intros s. unfold isShallow. cbn [editors with_editors]. split.
    - intros (p & em & E & H). apply lookup_app_Some in E as [E | [_ E]]; [eauto|].
      destruct (p - length (editors w))%nat; [|discriminate].
      injection E as <-. unfold flags in Fx. congruence.
    - intros (p & em & E & H). exists p, em. split; [|exact H].
      now apply lookup_app_l_Some. }
  assert (Pr : forall e, primary w e -> primary (with_editors (editors w ++ [x]) w) e).
  { intros e [L N]. split; [cbn [editors with_editors]; rewrite length_app; lia|].
    now rewrite Sh. }
  split; [|split].
  - intros s Hs. apply Sh in Hs. destruct (S1 s Hs) as (em & E & R).
    exists em. split; [|exact R]. cbn [editors with_editors]. now apply lookup_app_l_Some.
  - eapply List.Forall_impl; [|exact S2]. simpl. intros t H e He. now apply Pr, H.
  - eapply List.Forall_impl; [|exact S3]. simpl. intros r H L. now apply Pr, H.
Qed.

Lemma secluded_loadOnStart (deps : list Module) (e : nat) (w : World) :
  primary w e -> secluded w -> secluded (loadOnStart deps e w).
Proof.
  intros [L N] (S1 & S2 & S3).
  destruct (lookup_lt_is_Some_2 _ _ L) as [em E].
  set (x := loadModules deps
              (freshEditor (Some (mkStorageManager false 1 false)) false false)).
  assert (Fx : flags x = (None, false, false, false, 0))
    by (unfold x; now rewrite flags_loadModules).
  set (s := length (editors w)).
  set (eds := <[e := with_shallow (Some s) em]> (editors w ++ [x])).
  assert (W : loadOnStart deps e w
              = mkWorld eds (timers w ++ [(next_timer w, Startup e)]) (S (next_timer w))
                  (timedInterval w) (updateItr w) (onbeforeunload w) (requests w)).
  { unfold loadOnStart, update_editor. cbn [setTimeout newEditorModel snd fst
      with_timers with_editors editors timers next_timer timedInterval updateItr
      onbeforeunload requests].
    now rewrite (lookup_app_l_Some _ _ _ _ E). }
  rewrite W. clear W.
  set (w' := mkWorld eds (timers w ++ [(next_timer w, Startup e)]) (S (next_timer w))
               (timedInterval w) (updateItr w) (onbeforeunload w) (requests w)).
  assert (Le : forall p, p <> e -> eds !! p = (editors w ++ [x]) !! p).
  { intros p Hp. unfold eds. now rewrite list_lookup_insert_ne. }
  assert (Ee : eds !! e = Some (with_shallow (Some s) em)).
  { unfold eds. apply list_lookup_insert_eq. rewrite length_app. simpl. lia. }
  assert (Es : eds !! s = Some x).
  { rewrite Le by (unfold s; lia). rewrite lookup_app_r by (unfold s; lia).
    unfold s. now rewrite Nat.sub_diag. }
  assert (Len : length eds = S s).
  { unfold eds. rewrite length_insert, length_app. simpl. unfold s. lia. }
  assert (Sh : forall y, isShallow w' y -> y = s \/ isShallow w y).
  { intros y (p & em' & E' & H). cbn [editors w'] in E'.
    destruct (Nat.eq_dec p e) as [ -> | Hp].
    - rewrite Ee in E'. injection E' as <-. simpl in H. left. congruence.
    - rewrite Le in E' by exact Hp.
      apply lookup_app_Some in E' as [E' | [_ E']].
      + right. now exists p, em'.
      + destruct (p - length (editors w))%nat; [|discriminate].
        injection E' as <-. unfold flags in Fx. congruence. }
  assert (Pr : forall y, primary w y -> primary w' y).
  { intros y [Ly Ny]. split; [cbn [editors w']; rewrite Len; fold s in Ly; lia|].
    intros H. destruct (Sh y H) as [ -> | H']; [unfold s in Ly; lia | contradiction]. }
  split; [|split].
  - intros y Hy. destruct (Sh y Hy) as [ -> | H'].
    + exists x. cbn [editors w']. split; [exact Es|]. unfold flags in Fx.
      injection Fx as _ -> _ -> ->. auto.
    + destruct (S1 y H') as (em' & E' & R). exists em'. cbn [editors w'].
      split; [|exact R].
      assert (y <> e) by (intros ->; contradiction).
      rewrite Le by assumption. now apply lookup_app_l_Some.
  - cbn [timers w']. apply List.Forall_app. split.
    + eapply List.Forall_impl; [|exact S2]. simpl. intros t H y Hy.
      now apply Pr, H.
    + constructor; [|constructor]. simpl. intros y Hy. injection Hy as <-.
      apply Pr. now split.
  - cbn [requests w']. eapply List.Forall_impl; [|exact S3]. simpl. intros r H Lr.
    now apply Pr, H.
Qed.

Lemma flags_trigger (ev : Event) (em : EditorModel) : flags (trigger ev em) = flags em.
Proof. reflexivity. Qed.

Lemma flags_set_componentHovered (v : option Component) (em : EditorModel) :
  flags (set_componentHovered v em) = flags em.
Proof.
  unfold set_componentHovered. destruct (sameOpt _ _); [reflexivity|].
  destruct (componentHovered em), v; reflexivity.
Qed.

Lemma flags_setHovered (el : Target) (opts : SelectOpts) (em : EditorModel) :
  flags (snd (setHovered el opts em)) = flags em.
Proof.
  unfold setHovered. destruct el as [| |c]; cbn [falsy getModel snd].
  - apply flags_set_componentHovered.
  - reflexivity.
  - assert (F1 : flags (if forceChange opts then set_componentHovered None em else em)
                 = flags em).
    { destruct (forceChange opts); [apply flags_set_componentHovered | reflexivity]. }
    destruct (hoverable c); cbn [negb];
      [|destruct (useValid _ && negb (abort _))];
      try destruct (abort (onHoverBefore em c opts)); cbn [snd];
      rewrite ?flags_trigger, ?flags_set_componentHovered, ?flags_trigger; exact F1.
Qed.

Lemma flags_selectionStep (em em' : EditorModel) :
  selectionStep em em' -> flags em' = flags em.
Proof. intros (E & _). rewrite E. reflexivity. Qed.

(** No operation of an instance sets [readyLoad], changes its shallow
    instance or its counter, or makes ready an instance that has not
    loaded. *)
Lemma operate_flags (op : Operation) (em : EditorModel) :
  shallow (operate op em) = shallow em
  /\ readyLoad (operate op em) = readyLoad em
  /\ (readyLoad em = false -> ready (operate op em) = ready em)
  /\ changesCount (operate op em) = changesCount em.
Proof.
  assert (K : forall em', flags em' = flags em ->
            shallow em' = shallow em /\ readyLoad em' = readyLoad em
            /\ (readyLoad em = false -> ready em' = ready em)
            /\ changesCount em' = changesCount em).
  { unfold flags. intros em' H. injection H as -> -> _ -> ->. auto. }
  destruct op as [doc el opts|ms opts|cs|ms opts|el opts|v]; cbn [operate].
  - apply K, flags_selectionStep, selectionStep_setSelected.
  - apply K, flags_selectionStep, selectionStep_addSelected.
  - apply K, flags_selectionStep, selectionStep_removeSelected.
  - apply K, flags_selectionStep, selectionStep_toggleSelected.
  - apply K, flags_setHovered.
  - unfold set_readyCanvas, _checkReady. destruct (Bool.eqb _ _); [auto|].
    cbn [readyLoad readyCanvas ready with_readiness].
    destruct (readyLoad em) eqn:Rl; cbn [andb].
    + destruct (v && negb (ready em)); repeat split; auto; discriminate.
    + auto.
Qed.

Lemma secluded_perform (w : World) (a : Action) :
  coded w a -> secluded w -> secluded (perform w a).
Proof.
  destruct a as [deps stm notice mlt|deps e|e o|e f|e rs rj|k r|id|]; cbn [coded perform].
  - intros _. apply secluded_new.
  - apply secluded_loadOnStart.
  - intros _. apply secluded_handleUpdates.
  - intros [op ->]. apply secluded_update_flags. intros em. apply operate_flags.
  - intros _. apply secluded_store.
  - intros _. apply secluded_answer.
  - intros _. apply secluded_fire.
  - intros _. apply secluded_turn.
Qed.

Lemma secluded_emptyWorld : secluded emptyWorld.
Proof.
  split; [|split; constructor].
  intros s (p & em & E & _). destruct p; discriminate.
Qed.

Lemma secluded_history (acts : list Action) :
  codedFrom emptyWorld acts -> secluded (history acts).
Proof.
  unfold history. pose proof secluded_emptyWorld as S0. revert S0.
  generalize emptyWorld as w. induction acts as [|a acts IH]; intros w S C; [exact S|].
  destruct C as [Ca C]. cbn [fold_left]. apply IH; [|exact C].
  now apply secluded_perform.
Qed.

(** *** What a turn does to an instance with no increment pending *)

Lemma noIncrement_timers (s : nat) (w w' : World) :
  (forall p, In p (timers w') -> In p (timers w) \/ isInc (snd p) = false) ->
  noIncrement s w -> noIncrement s w'.
Proof.
  intros T N. unfold noIncrement in *. rewrite List.Forall_forall in *.
  intros p Hp o E. destruct (T p Hp) as [H|H]; [exact (N p H o E)|].
  rewrite E in H. discriminate.
Qed.

Lemma timers_updateChanges (e : nat) (w : World) (p : nat * Task) :
  In p (timers (updateChanges e w)) -> In p (timers w) \/ isInc (snd p) = false.
Proof.
  unfold updateChanges. destruct (editors w !! e) as [em|]; [|now left].
  unfold setTimeout.
  assert (T3 : forall w', timers w' = timers (clearHandle (updateItr w) w)
                                      ++ [(next_timer (clearHandle (updateItr w) w),
                                           TriggerUpdate e)] ->
               In p (timers w') -> In p (timers w) \/ isInc (snd p) = false).
  { intros w' -> H. apply in_app_iff in H as [H | [ <- | []]]; [|now right].
    left. destruct (updateItr w); [|exact H]. simpl in H. now apply filter_In in H. }
  destruct (sm em) as [stm|].
  - destruct (isAutosave stm && _).
    + rewrite (proj2 (editors_store e None None _)).
      apply T3. now destruct (noticeOnUnload em).
    + apply T3. now destruct (noticeOnUnload em).
  - rewrite (proj1 (timers_update_editor e _ _)).
    apply T3. now destruct (noticeOnUnload em).
Qed.

Lemma timers_set_changesCount (e : nat) (v : Z) (q : bool) (w : World) (p : nat * Task) :
  In p (timers (set_changesCount e v q w)) -> In p (timers w) \/ isInc (snd p) = false.
Proof.
  unfold set_changesCount. destruct (editors w !! e) as [em|]; [|now left].
  destruct (changesCount em =? v); [now left|].
  destruct q.
  - rewrite (proj1 (timers_update_editor e _ w)). now left.
  - intros H. apply timers_updateChanges in H.
    now rewrite (proj1 (timers_update_editor e _ w)) in H.
Qed.

Lemma timers_fire (id : nat) (w : World) (p : nat * Task) :
  In p (timers (fire id w)) -> In p (timers w) \/ isInc (snd p) = false.
Proof.
  unfold fire. destruct (List.find _ (timers w)) as [[i t]|]; [|now left].
  assert (C : In p (timers (clearTimeout id w)) -> In p (timers w)).
  { simpl. intros H. now apply filter_In in H. }
  destruct t as [e o|e|e].
  - cbn [run_task]. change (editors (clearTimeout id w)) with (editors w).
    destruct (editors w !! e); [|auto].
    intros H. apply timers_set_changesCount in H as [H|H]; auto.
  - rewrite (proj2 (run_task_other (TriggerUpdate e) _ 0 eq_refl)). auto.
  - rewrite (proj2 (run_task_other (Startup e) _ 0 eq_refl)). auto.
Qed.

Lemma counter_fire_noIncrement (s id : nat) (w : World) :
  noIncrement s w -> counter s (fire id w) = counter s w.
Proof.
  intros N. unfold fire.
  destruct (List.find _ (timers w)) as [[i t]|] eqn:F; [|reflexivity].
  apply find_some in F as [F _].
  unfold noIncrement in N. rewrite List.Forall_forall in N. specialize (N _ F).
  change (counter s w) with (counter s (clearTimeout id w)).
  destruct t as [e o|e|e].
  - cbn [run_task]. destruct (editors (clearTimeout id w) !! e); [|reflexivity].
    apply counter_set_changesCount_ne. intros ->. exact (N o eq_refl).
  - exact (proj1 (run_task_other (TriggerUpdate e) _ s eq_refl)).
  - exact (proj1 (run_task_other (Startup e) _ s eq_refl)).
Qed.

Lemma counter_turn_noIncrement (s : nat) (w : World) :
  noIncrement s w -> counter s (turn w) = counter s w.
Proof.
  unfold turn. generalize (timers w) as l. intros l. revert w.
  induction l as [|p l IH]; intros w N; [reflexivity|].
  cbn [fold_left]. rewrite IH.
  - now apply counter_fire_noIncrement.
  - eapply noIncrement_timers; [|exact N]. intros q. apply timers_fire.
Qed.

Lemma shallow_has_noIncrement (s : nat) (w : World) :
  secluded w -> isShallow w s -> noIncrement s w.
Proof.
  intros (_ & S2 & _) Hs. eapply List.Forall_impl; [|exact S2].
  simpl. intros p H o E. destruct (H s) as [_ N]; [now rewrite E | contradiction].
Qed.

Lemma shallow_ignores (s : nat) (o : Opts) (w : World) :
  secluded w -> isShallow w s -> handleUpdates s o w = w.
Proof.
  intros (S1 & _) Hs. destruct (S1 s Hs) as (em & E & _ & R & _).
  apply (handleUpdates_guard w s em o E). unfold ignored. rewrite R.
  now rewrite !orb_true_r.
Qed.


Lemma startedHistory_coded : codedFrom emptyWorld startedHistory.
Proof.
  split; [exact I|]. split.
  - split; [vm_compute; lia|].
    intros (q & em & E & Sh). destruct q as [|q]; [|destruct q; discriminate E].
    vm_compute in E. injection E as <-. discriminate Sh.
  - split; [exact I|]. split; [|exact I]. now exists (OpReadyCanvas true).
Defined.


(** ** The properties at work *)

Lemma autosave_at_threshold_witness :
  isAutosave (mkStorageManager true 1 false) = true
  /\ requests (turn (burst 0 [plainOpts; plainOpts] startedWorld))
     = requests startedWorld ++
         if isAutosave (mkStorageManager true 1 false)
            && (getStepsBeforeSave (mkStorageManager true 1 false)
                <=? changesCount (instance 0 startedWorld) + 1)
         then [mkRequest 0 (StoreRequest (storeData (instance 0 startedWorld))) None None]
         else [].
Proof.
  split; [reflexivity|].
  refine (autosave_at_threshold startedWorld 0 (instance 0 startedWorld)
            (mkStorageManager true 1 false) plainOpts [plainOpts] _ _ _ _ _ _ _).
  - vm_compute; reflexivity.
  - vm_compute; reflexivity.
  - vm_compute; reflexivity.
  - vm_compute; reflexivity.
  - vm_compute; reflexivity.
  - repeat constructor.
  - reflexivity.
Defined.

Lemma burst_updates_once_witness :
  ready (instance 0 startedWorld) = true
  /\ editors (turn (turn (burst 0 [plainOpts; plainOpts] startedWorld))) !! 0%nat
     = Some (trigger Update
               (with_changesCount (changesCount (instance 0 startedWorld) + 1)
                  (instance 0 startedWorld)))
  /\ timers (turn (turn (burst 0 [plainOpts; plainOpts] startedWorld))) = [].
Proof.
  split; [vm_compute; reflexivity|].
  refine (burst_updates_once startedWorld 0 (instance 0 startedWorld)
            (mkStorageManager true 1 false) plainOpts [plainOpts] _ _ _ _ _ _ _).
  - vm_compute; reflexivity.
  - vm_compute; reflexivity.
  - vm_compute; reflexivity.
  - vm_compute; reflexivity.
  - vm_compute; reflexivity.
  - repeat constructor.
  - reflexivity.
Defined.

Lemma autosave_cycle_witness :
  noticeOnUnload (instance 0 startedWorld) = true
  /\ let w1 := turn (burst 0 [plainOpts] startedWorld) in
     let w2 := answer 0 (Success "saved") w1 in
     onbeforeunload w1 = true
     /\ counter 0 w1 = Some (changesCount (instance 0 startedWorld) + 1)
     /\ counter 0 w2 = Some 0
     /\ onbeforeunload w2 = false
     /\ requests w2
        = if getStepsBeforeSave (mkStorageManager true 1 false) <=? 0
          then [mkRequest 0 (StoreRequest (storeData (instance 0 startedWorld))) None None]
          else [].
Proof.
  split; [vm_compute; reflexivity|].
  refine (autosave_cycle startedWorld 0 (instance 0 startedWorld)
            (mkStorageManager true 1 false) plainOpts [] "saved"
            _ _ _ _ _ _ _ _ _ _ _ _).
  - vm_compute; reflexivity.
  - vm_compute; reflexivity.
  - vm_compute; reflexivity.
  - vm_compute; reflexivity.
  - vm_compute; reflexivity.
  - vm_compute; reflexivity.
  - repeat constructor.
  - reflexivity.
  - vm_compute; reflexivity.
  - vm_compute. discriminate.
  - reflexivity.
  - vm_compute. discriminate.
Defined.

Lemma counter_grows_or_resets_witness :
  counter 0 (handleUpdates 0 plainOpts startedWorld) = Some 0
  /\ exists c',
       counter 0 (perform (handleUpdates 0 plainOpts startedWorld) Turn) = Some c'
       /\ (0 <= c'
           \/ (c' = 0 /\ exists k res data rs rj,
                 Turn = Answer k (Success res)
                 /\ requests (handleUpdates 0 plainOpts startedWorld) !! k
                    = Some (mkRequest 0 (StoreRequest data) rs rj))).
Proof.
  split; [vm_compute; reflexivity|].
  refine (counter_grows_or_resets (handleUpdates 0 plainOpts startedWorld) Turn 0 0 _ _).
  - vm_compute; reflexivity.
  - intros e' f H. discriminate H.
Defined.

Lemma skip_suppresses_witness :
  timers (skip 0 (burst 0 [plainOpts; plainOpts]) startedWorld) = timers startedWorld
  /\ timedInterval (skip 0 (burst 0 [plainOpts; plainOpts]) startedWorld)
     = timedInterval startedWorld
  /\ counter 0 (skip 0 (burst 0 [plainOpts; plainOpts]) startedWorld)
     = counter 0 startedWorld.
Proof.
  refine (skip_suppresses 0 [plainOpts; plainOpts] startedWorld
            (instance 0 startedWorld) _).
  vm_compute; reflexivity.
Defined.

Lemma skip_not_reentrant_witness :
  ready (instance 0 startedWorld) = true
  /\ let w' := skip 0 (fun w1 => handleUpdates 0 plainOpts
                                   (skip 0 (burst 0 [plainOpts]) w1)) startedWorld in
     single_pending 0 plainOpts w'
     /\ counter 0 (turn w') = Some (changesCount (instance 0 startedWorld) + 1).
Proof.
  split; [vm_compute; reflexivity|].
  refine (skip_not_reentrant startedWorld 0 (instance 0 startedWorld) plainOpts
            [plainOpts] _ coalesced_startedWorld _ _ _ _).
  - vm_compute; reflexivity.
  - vm_compute; reflexivity.
  - reflexivity.
  - reflexivity.
  - reflexivity.
Defined.

Lemma notification_cancels_other_instance_witness :
  ready (instance 0 bothReadyWorld) = true
  /\ ready (instance 1 bothReadyWorld) = true
  /\ let w' := handleUpdates 1 plainOpts (handleUpdates 0 plainOpts bothReadyWorld) in
     single_pending 1 plainOpts w'
     /\ counter 0 (turn w') = Some (changesCount (instance 0 bothReadyWorld))
     /\ counter 1 (turn w') = Some (changesCount (instance 1 bothReadyWorld) + 1).
Proof.
  split; [vm_compute; reflexivity|]. split; [vm_compute; reflexivity|].
  refine (notification_cancels_other_instance bothReadyWorld 0 1
            (instance 0 bothReadyWorld) (instance 1 bothReadyWorld)
            plainOpts plainOpts _ _ _ _ _ _).
  - discriminate.
  - split; vm_compute; constructor.
  - vm_compute; reflexivity.
  - vm_compute; reflexivity.
  - vm_compute; reflexivity.
  - vm_compute; reflexivity.
Defined.

Lemma shallow_starts_unready_witness :
  editors newWorld !! 0%nat = Some (instance 0 newWorld)
  /\ let w' := loadOnStart someDeps 0 newWorld in
     let s := length (editors newWorld) in
     s <> 0%nat
     /\ (shallow <$> editors w' !! 0%nat) = Some (Some s)
     /\ (modules <$> editors w' !! s) = Some someDeps
     /\ (toLoad <$> editors w' !! s) = Some (List.filter has_onLoad someDeps)
     /\ (noticeOnUnload <$> editors w' !! s) = Some false
     /\ (ready <$> editors w' !! s) = Some false
     /\ (changesCount <$> editors w' !! s) = Some 0
     /\ handleUpdates s plainOpts w' = w'.
Proof.
  split; [vm_compute; reflexivity|].
  refine (shallow_starts_unready someDeps 0 newWorld (instance 0 newWorld) plainOpts _).
  vm_compute; reflexivity.
Defined.

Lemma loadOnStart_sets_readyLoad_witness :
  readyLoad (instance 0 newWorld) = false
  /\ exists em',
       editors (turn (loadOnStart someDeps 0 newWorld)) !! 0%nat = Some em'
       /\ readyLoad em' = true
       /\ ready em' = ready (instance 0 newWorld) || readyCanvas (instance 0 newWorld)
       /\ shallow em' = Some (length (editors newWorld))
       /\ timers (turn (loadOnStart someDeps 0 newWorld)) = [].
Proof.
  split; [vm_compute; reflexivity|].
  refine (loadOnStart_sets_readyLoad someDeps 0 newWorld (instance 0 newWorld) _ _ _ _).
  - vm_compute; reflexivity.
  - vm_compute; reflexivity.
  - vm_compute; reflexivity.
  - vm_compute; reflexivity.
Defined.

Lemma failed_autoload_never_ready_witness :
  canAutoload (mkStorageManager true 1 true) = true
  /\ let w1 := turn (loadOnStart someDeps 0 autoloadWorld) in
     let em1 := with_shallow (Some (length (editors autoloadWorld)))
                  (instance 0 autoloadWorld) in
     requests w1 = [mkRequest 0 LoadRequest None None]
     /\ editors w1 !! 0%nat = Some em1
     /\ editors (answer 0 (Failure "offline") w1) !! 0%nat
        = Some (trigger (LogError "offline") em1)
     /\ handleUpdates 0 plainOpts (answer 0 (Failure "offline") w1)
        = answer 0 (Failure "offline") w1
     /\ (readyLoad <$> editors (answer 0 (Success "{}") w1) !! 0%nat) = Some true.
Proof.
  split; [reflexivity|].
  refine (failed_autoload_never_ready someDeps 0 autoloadWorld (instance 0 autoloadWorld)
            (mkStorageManager true 1 true) "offline" "{}" plainOpts _ _ _ _ _ _ _).
  - vm_compute; reflexivity.
  - vm_compute; reflexivity.
  - vm_compute; reflexivity.
  - vm_compute; reflexivity.
  - reflexivity.
  - vm_compute; reflexivity.
  - vm_compute; reflexivity.
Defined.

Lemma plain_select_replaces_witness :
  selectable (block 1) = true
  /\ exists em',
       setSelected someDoc (One (Entity (block 1))) noOpts busyEditor
         = Returned (onSelectBefore busyEditor (block 1) noOpts, em')
       /\ contains (selected em') (block 1) = true
       /\ (forall x, In x (selected em') -> same x (block 1) = true)
       /\ componentHovered em' = componentHovered busyEditor.
Proof.
  split; [reflexivity|].
  refine (plain_select_replaces someDoc (block 1) noOpts busyEditor _ _ _).
  - reflexivity.
  - reflexivity.
  - right; reflexivity.
Defined.

Lemma ctrl_select_toggles_witness :
  contains (selected busyEditor) text = true
  /\ exists em',
       setSelected someDoc (One (Entity text)) ctrlOpts busyEditor
         = Returned (onSelectBefore busyEditor text ctrlOpts, em')
       /\ selected em'
          = (if contains (selected busyEditor) text
             then removeComponent [text] (selected busyEditor)
             else selected busyEditor ++ [text])
       /\ contains (selected em') text = negb (contains (selected busyEditor) text)
       /\ (forall x, same x text = false ->
             contains (selected em') x = contains (selected busyEditor) x).
Proof.
  split; [reflexivity|].
  refine (ctrl_select_toggles someDoc text ctrlOpts busyEditor
            (mkKeyEvent true false false) _ _ _ _ _); reflexivity.
Defined.

Lemma array_select_replaces_witness :
  abort noOpts = false
  /\ exists opts' em',
       setSelected someDoc (Many (map Entity [block 1; text])) noOpts busyEditor
         = Returned (opts', em')
       /\ forall x, contains (selected em') x = contains [block 1; text] x.
Proof.
  split; [reflexivity|].
  refine (array_select_replaces someDoc [block 1; text] noOpts busyEditor _ _ _ _).
  - repeat constructor.
  - reflexivity.
  - intros c o H. exact H.
  - right; reflexivity.
Defined.

Lemma addSelected_in_order_witness :
  NoDup (map cid [row; block 2])
  /\ selected (addSelected (map Some [row; block 2]) noOpts busyEditor)
     = selected busyEditor ++ [row; block 2]
  /\ getSelected (addSelected (map Some [row; block 2]) noOpts busyEditor)
     = match last [row; block 2] with
       | Some c => Some c
       | None => getSelected busyEditor
       end.
Proof.
  assert (N : NoDup (map cid [row; block 2]))
    by (apply (bool_decide_unpack _); vm_compute; exact I).
  split; [exact N|].
  refine (addSelected_in_order [row; block 2] noOpts busyEditor N _).
  repeat constructor.
Defined.

Lemma hover_replaces_in_order_witness :
  hoverable text = true
  /\ let em' := snd (setHovered (Entity text) noOpts busyEditor) in
     let again := sameOpt (componentHovered busyEditor) (Some text) in
     componentHovered em' = (if again then componentHovered busyEditor else Some text)
     /\ events em'
        = events busyEditor ++ [HoverBefore text]
          ++ (if again then []
              else match componentHovered busyEditor with
                   | Some p => [Unhovered p]
                   | None => []
                   end ++ [Hovered text])
          ++ [Hover (Some text)]
     /\ selected em' = selected busyEditor.
Proof.
  split; [reflexivity|].
  refine (hover_replaces_in_order text noOpts busyEditor _ _ _); reflexivity.
Defined.

Lemma aborted_hover_commits_nothing_witness :
  abort abortValidOpts = true
  /\ let em0 := if forceChange abortValidOpts
                then set_componentHovered None busyEditor else busyEditor in
     setHovered (Entity text) abortValidOpts busyEditor
       = (onHoverBefore busyEditor text abortValidOpts, trigger (HoverBefore text) em0)
     /\ componentHovered (snd (setHovered (Entity text) abortValidOpts busyEditor))
        = (if forceChange abortValidOpts then None else componentHovered busyEditor).
Proof.
  split; [reflexivity|].
  refine (aborted_hover_commits_nothing text abortValidOpts busyEditor _); reflexivity.
Defined.

Lemma hover_climbs_to_hoverable_witness :
  hoverable cell = false
  /\ let em' := snd (setHovered (Entity cell) validOpts someEditor) in
     let target := List.find hoverable (ancestors cell) in
     sameOpt (componentHovered em') target = true
     /\ last (events em') = Some (Hover target)
     /\ selected em' = selected someEditor.
Proof.
  split; [reflexivity|].
  refine (hover_climbs_to_hoverable cell validOpts someEditor _ _ _); reflexivity.
Defined.

Lemma setSelected_range_block_witness :
  someDoc 12 !! 2%nat = Some (block 2)
  /\ exists em' lo hi,
       setSelected someDoc (One (Entity (block 2))) shiftOpts
           (with_selected [block 0; block 4; text] someEditor)
         = Returned (onSelectBefore (with_selected [block 0; block 4; text] someEditor)
                       (block 2) shiftOpts, em')
       /\ (lo <= 2 <= hi)%nat /\ (hi < length (someDoc 12))%nat
       /\ (forall x, contains (selected em') x
                     = contains (selected (with_selected [block 0; block 4; text]
                                             someEditor)) x
                       || contains (slice lo (S (hi - lo)) (someDoc 12)) x)
       /\ (lo < 2 -> exists s,
             In s (selected (with_selected [block 0; block 4; text] someEditor))
             /\ someDoc 12 !! lo = Some s)%nat
       /\ (2 < hi -> exists s,
             In s (selected (with_selected [block 0; block 4; text] someEditor))
             /\ someDoc 12 !! hi = Some s)%nat
       /\ (forall j s, someDoc 12 !! j = Some s ->
             In s (selected (with_selected [block 0; block 4; text] someEditor)) ->
             (j < 2 -> j <= lo < 2)%nat /\ (2 < j -> 2 < hi <= j)%nat).
Proof.
  split; [reflexivity|].
  refine (setSelected_range_block someDoc 12 _ _ 2 (block 2) shiftOpts
            (with_selected [block 0; block 4; text] someEditor)
            (mkKeyEvent false false true) _ _ _ _ _ _ _ _).
  - apply (bool_decide_unpack _); vm_compute; exact I.
  - intros x H. simpl in H.
    destruct H as [<- | [<- | [<- | [<- | [<- | []]]]]]; split; reflexivity.
  - reflexivity.
  - intros s H C. simpl in H. destruct H as [<- | [<- | [<- | []]]].
    + simpl. tauto.
    + simpl. tauto.
    + discriminate C.
  - reflexivity.
  - reflexivity.
  - reflexivity.
  - reflexivity.
  - reflexivity.
  - reflexivity.
Defined.

Lemma toggle_twice_witness :
  selectable text = true
  /\ let em' := toggleSelected [Some text] noOpts
                  (toggleSelected [Some text] noOpts busyEditor) in
     (forall x, contains (selected em') x = contains (selected busyEditor) x)
     /\ (contains (selected busyEditor) text = false -> selected em' = selected busyEditor)
     /\ (contains (selected busyEditor) text = true ->
         selected em' = removeComponent [text] (selected busyEditor) ++ [text]
         /\ getSelected em' = Some text).
Proof.
  split; [reflexivity|].
  refine (toggle_twice text noOpts busyEditor _). reflexivity.
Defined.
